(** * The model layer of fire: a shallow embedding of [lib/modules/models/model.js]

    The development follows the source file top to bottom.  JavaScript
    dictionaries whose key order is observable ([Object.keys], [for in])
    are insertion-ordered association lists ([dict]); set-maps and option
    objects, which are only read and written by key, are [gmap]s; objects
    that are shared with the caller live in a heap and are passed by
    location. *)

From Stdlib Require Import ZArith List String Ascii Bool Lia.
From Stdlib Require OrdersEx.
From stdpp Require Import gmap strings list sorting.

Open Scope string_scope.
Open Scope Z_scope.
Open Scope list_scope.

(** ** JavaScript values *)

Module Js.

Inductive value : Type :=
| VUndefined
| VNull
| VBool (b : bool)
| VNum (n : Z)
| VStr (s : string)
| VRef (l : nat).

(** [!!v] of the language: [undefined], [null], [false], [0] and [''] are
    falsy, every object is truthy. *)
Definition truthy (v : value) : bool :=
  match v with
  | VUndefined | VNull => false
  | VBool b => b
  | VNum n => negb (n =? 0)
  | VStr s => negb (String.eqb s "")
  | VRef _ => true
  end.

(** [typeof v != 'undefined'] *)
Definition defined (v : value) : bool :=
  match v with VUndefined => false | _ => true end.

(** What a [throw] carries: an [Error] with the optional [status] field the
    module sets on some of its errors, or the engine's own [TypeError]
    raised by a member access on [undefined] or [null]. *)
Inductive exn : Type :=
| Error (status : option Z) (message : string)
| TypeError (message : string).

Definition status_of (e : exn) : option Z :=
  match e with Error s _ => s | TypeError _ => None end.

(** A call either returns or throws synchronously. *)
Inductive completion (A : Type) : Type :=
| Return (a : A)
| Throw (e : exn).
Arguments Return {A} a.
Arguments Throw {A} e.

(** A promise, identified with the way it eventually settles. *)
Inductive promise (A : Type) : Type :=
| Fulfilled (a : A)
| Rejected (e : exn).
Arguments Fulfilled {A} a.
Arguments Rejected {A} e.

(** [p.then(f)] for a callback that returns a plain value. *)
Definition then_ {A B : Type} (p : promise A) (f : A -> B) : promise B :=
  match p with
  | Fulfilled a => Fulfilled (f a)
  | Rejected e => Rejected e
  end.

(** [p.then(f)] for a callback that may throw. *)
Definition then_try {A B : Type} (p : promise A) (f : A -> completion B) : promise B :=
  match p with
  | Fulfilled a => match f a with Return b => Fulfilled b | Throw e => Rejected e end
  | Rejected e => Rejected e
  end.

End Js.
Export Js.

(** ** Insertion-ordered dictionaries

    An object literal used as a dictionary: [d[k]] reads, [d[k] = v] writes in
    place when the key exists and appends otherwise, [delete d[k]] removes,
    [Object.keys(d)] lists the keys in insertion order. *)

Module Dict.

Definition dict (V : Type) : Type := list (string * V).

Section Ops.

Context {V : Type}.

Fixpoint get (d : dict V) (k : string) : option V :=
  match d with
  | [] => None
  | (k', v) :: d' => if String.eqb k' k then Some v else get d' k
  end.

Fixpoint set (d : dict V) (k : string) (v : V) : dict V :=
  match d with
  | [] => [(k, v)]
  | (k', v') :: d' =>
      if String.eqb k' k then (k', v) :: d' else (k', v') :: set d' k v
  end.

Fixpoint remove (d : dict V) (k : string) : dict V :=
  match d with
  | [] => []
  | (k', v') :: d' =>
      if String.eqb k' k then d' else (k', v') :: remove d' k
  end.

Definition keys (d : dict V) : list string := map fst d.

(** Number of entries stored under [k]. *)
Definition occurrences (d : dict V) (k : string) : nat :=
  length (List.filter (fun kv => String.eqb (fst kv) k) d).

End Ops.

End Dict.
Abbreviation dict := Dict.dict.

(** ** Properties

    [property.js] is not among the sources: a property is the record of what
    [model.js] reads from it and calls on it.  User-supplied functions
    (transform, hash, select and default methods) are the functions they
    compute; a model that a property refers to is given by its name. *)

Inductive PropertyType : Type :=
| UUID
| CanUpdate (allowed : bool)
| Modifier (label : string).

Record PropertyOptions : Type := {
  transformMethod : option (gmap string value -> value);
  hashMethod : option (gmap string value -> value);
  defaultValue : option (unit -> value);
  defaultChangePropertyName : option string;
  selectMethod : option (value -> option (dict value));
  through : option string;
  referenceName : option string
}.

Record Property : Type := {
  name : string;
  types : list PropertyType;
  options : PropertyOptions;
  isAssociation : bool;
  isManyToMany : bool;
  getAssociatedModel : option string;
  manyAssociation : bool;
  oneAssociation : bool
}.

(** Modelled from the spec: [Property#isTransformable] of the absent
    [property.js]; section 4.1 derives it from the transform modifier. *)
Definition isTransformable (p : Property) : bool :=
  bool_decide (is_Some (transformMethod (options p))).

(** Modelled from the spec: [Property#isSelectable] of the absent
    [property.js]; section 4.1 derives it from the select modifier. *)
Definition isSelectable (p : Property) : bool :=
  bool_decide (is_Some (selectMethod (options p))).

(** ** Arguments, datastore calls and migrations *)

(** The first argument of [update]: a where-map, [null], nothing, or an id. *)
Inductive WhereArg : Type :=
| WhereMap (whereMap : dict value)
| WhereNull
| WhereMissing
| WhereId (id : value).

(** The [arguments] object of the methods a migration can capture. *)
Inductive Arguments : Type :=
| ArgsNone
| ArgsEdit (addedProperties removedProperties changedProperties : list Property)
| ArgsCreate (setMap : gmap string value)
| ArgsUpdate (whereMap : WhereArg) (setMap : option (gmap string value)) (optionsMap : option nat)
| ArgsRemove (whereMap : option (dict value)) (optionsMap : option nat)
| ArgsFind (whereMap : option (dict value)) (optionsMap : option nat)
| ArgsExecute (sql : string) (values : list value).

(** The calls [model.js] makes on [this._table]. *)
Inductive TableCall : Type :=
| TAlter (addedProperties removedProperties changedProperties : list Property)
| TCreate
| TInsert (setMap : gmap string value)
| TUpdate (where_ : dict value) (set_ : gmap string value) (limit skip orderBy : value)
| TRemove (where_ : dict value) (limit skip orderBy : value)
| TSelect (where_ : dict value)
    (limit skip orderBy groupBy select associations autoFetchDepth : value)
| TExists
| TExecute (sql : string) (values : list value)
| TDrop (force : bool).

(** Modelled from the spec: a task of the absent migrations module, the
    [{model, operation, args}] triple of section 4.3. *)
Record Task : Type := {
  task_model : string;
  task_operation : string;
  task_args : Arguments
}.

(** What a model sends to its active migration, in order. *)
Inductive MigrationCall : Type :=
| MAddTask (t : Task)
| MAddProperty (p : Property) (existing : option Property)
| MRemoveProperty (p : Property).

(** ** The world a method runs in *)

(** Modelled from the spec: a row of a select with an association joined in;
    section 3 gives it the id of the parent and, when the join found one, the
    associated row (here its id). *)
Record Row : Type := {
  row_id : string;
  row_joined : option string
}.

(** Modelled from the spec: an instance of the absent [model-instance.js], as
    far as [model.js] makes it: what it passes to the constructor, and the
    association collection of section 3. *)
Record ModelInstance : Type := {
  instance_model : string;
  instance_id : string;
  instance_joined : list string;
  instance_hook : option string;
  instance_partial : bool;
  instance_shallow : value
}.

(** One call of [ModelInstance#save] on a freshly constructed instance. *)
Record Save : Type := {
  save_model : string;
  save_changes : gmap string value;
  save_private : value
}.

(** What happens to the saves, in time order: a save is started and
    returns its promise; later the promise settles.  The promise of a save is
    numbered by the count of saves started before it. *)
Inductive Tick : Type :=
| Started (s : Save)
| Settled (i : nat) (r : promise ModelInstance).

(** The heap holds the option objects shared with the caller; each migration
    has the calls it received; the datastore calls issued are logged oldest
    first, and so is the timeline of the saves. *)
Record World : Type := {
  heap : gmap nat (gmap string value);
  migrations : gmap nat (list MigrationCall);
  calls : list TableCall;
  timeline : list Tick
}.

Definition empty_world : World :=
  {| heap := ∅; migrations := ∅; calls := []; timeline := [] |}.

Definition received (w : World) (mig : nat) : list MigrationCall :=
  default [] (migrations w !! mig).

Definition send (mig : nat) (c : MigrationCall) (w : World) : World :=
  {| heap := heap w;
     migrations := <[mig := received w mig ++ [c]]> (migrations w);
     calls := calls w;
     timeline := timeline w |}.


Definition issue (c : TableCall) (w : World) : World :=
  {| heap := heap w; migrations := migrations w; calls := calls w ++ [c];
     timeline := timeline w |}.

Definition tick (t : Tick) (w : World) : World :=
  {| heap := heap w; migrations := migrations w; calls := calls w;
     timeline := timeline w ++ [t] |}.

Definition with_heap (w : World) (h : gmap nat (gmap string value)) : World :=
  {| heap := h; migrations := migrations w; calls := calls w; timeline := timeline w |}.

(** [var o = {}] *)
Definition alloc (w : World) : nat * World :=
  let l := fresh (dom (heap w)) in (l, with_heap w (<[l := ∅]> (heap w))).

(** [o[k]] for the object at [l] *)
Definition read (w : World) (l : nat) (k : string) : value :=
  match heap w !! l with
  | Some o => default VUndefined (o !! k)
  | None => VUndefined
  end.

(** [o[k] = v] for the object at [l] *)
Definition write (w : World) (l : nat) (k : string) (v : value) : World :=
  with_heap w (<[l := <[k := v]> (default ∅ (heap w !! l))]> (heap w)).

(** ** Models *)

(** An enumerable field of a model that [Model.prototype] does not define:
    a list of property types, a method, or anything else. *)
Inductive Field : Type :=
| FTypes (propertyTypes : list PropertyType)
| FMethod (label : string)
| FValue (v : value).

(** [!!this[k]]: an array and a function are truthy. *)
Definition field_truthy (f : option Field) : bool :=
  match f with
  | None => false
  | Some (FTypes _) | Some (FMethod _) => true
  | Some (FValue v) => truthy v
  end.

(** The fields of the constructor of [Model] that the methods below use.
    [fields] are the enumerable fields in [for in] order; [_table] is the name
    of the table when one is set, [_activeMigration] the migration when one is
    active, [automaticPropertyName] the entry of [options]. *)
Record Model : Type := {
  _name : string;
  fields : dict Field;
  _properties : option (dict Property);
  _methods : dict string;
  _table : option string;
  _associations : dict Property;
  _activeMigration : option nat;
  automaticPropertyName : option string
}.

Definition with_fields (m : Model) (f : dict Field) : Model :=
  {| _name := _name m; fields := f; _properties := _properties m;
     _methods := _methods m; _table := _table m;
     _associations := _associations m; _activeMigration := _activeMigration m;
     automaticPropertyName := automaticPropertyName m |}.

Definition with_properties (m : Model) (ps : option (dict Property)) : Model :=
  {| _name := _name m; fields := fields m; _properties := ps;
     _methods := _methods m; _table := _table m;
     _associations := _associations m; _activeMigration := _activeMigration m;
     automaticPropertyName := automaticPropertyName m |}.

Definition with_methods (m : Model) (ms : dict string) : Model :=
  {| _name := _name m; fields := fields m; _properties := _properties m;
     _methods := ms; _table := _table m;
     _associations := _associations m; _activeMigration := _activeMigration m;
     automaticPropertyName := automaticPropertyName m |}.

Definition with_associations (m : Model) (a : dict Property) : Model :=
  {| _name := _name m; fields := fields m; _properties := _properties m;
     _methods := _methods m; _table := _table m;
     _associations := a; _activeMigration := _activeMigration m;
     automaticPropertyName := automaticPropertyName m |}.

(** [Model#setActiveMigration] *)
Definition setActiveMigration (m : Model) (migration : option nat) : Model :=
  {| _name := _name m; fields := fields m; _properties := _properties m;
     _methods := _methods m; _table := _table m;
     _associations := _associations m; _activeMigration := migration;
     automaticPropertyName := automaticPropertyName m |}.

(** One turn of the [forEach] of [findAssociationsTo]: the association is
    pushed when it points to [model], by the model it is associated with or
    by its reference name, and no other name was asked for.  Models are
    compared by their names in the registry. *)
Definition push_association (model : Model) (linkedPropertyName : option string)
    (associations : list Property) (kv : string * Property) : list Property :=
  let association := snd kv in
  if bool_decide (getAssociatedModel association = Some (_name model))
     || bool_decide (referenceName (options association) = Some (_name model))
  then
    match linkedPropertyName with
    | Some linked =>
        if String.eqb linked "" || String.eqb linked (fst kv)
        then associations ++ [association]
        else associations
    | None => associations ++ [association]
    end
  else associations.

(** [Model#findAssociationsTo] *)
Definition findAssociationsTo (m : Model) (model : Model) (linkedPropertyName : option string)
  : list Property :=
  fold_left (push_association model linkedPropertyName) (_associations m) [].

Definition starts_with (c : ascii) (s : string) : bool :=
  match s with
  | String c' _ => Ascii.eqb c' c
  | EmptyString => false
  end.

Definition invalid_property_name (n : string) : exn :=
  Error None ("Invalid property name `" +:+ n +:+
    "`. Property names may not start with _ or $ as they are reserved.").

(** [Model#addProperty] *)
Definition addProperty (m : Model) (property : Property) (isNew : bool) (w : World)
  : completion Property * Model * World :=
  if String.eqb (name property) "" || starts_with "_" (name property)
     || starts_with "$" (name property)
  then (Throw (invalid_property_name (name property)), m, w)
  else
    match _properties m with
    | None => (Throw (TypeError "Cannot read property of null"), m, w)
    | Some props =>
        let w1 :=
          match isNew, _activeMigration m with
          | false, Some mig =>
              send mig (MAddProperty property (Dict.get props (name property))) w
          | _, _ => w
          end in
        let m1 := with_properties m (Some (Dict.set props (name property) property)) in
        let m2 :=
          if isAssociation property
          then with_associations m1 (Dict.set (_associations m1) (name property) property)
          else m1 in
        (Return property, m2, w1)
    end.

Section Constructor.

(** [new Property(name, types, model, models)] of the absent [property.js]:
    it yields a property or throws. *)
Variable new_Property : string -> list PropertyType -> string -> completion Property.

(** [Model#_addProperty] *)
Definition _addProperty (m : Model) (propertyName : string)
    (propertyTypes : list PropertyType) (isNew : bool) (w : World)
  : completion (option Property) * Model * World :=
  match propertyTypes with
  | [] => (Return None, m, w)
  | _ :: _ =>
      match new_Property propertyName propertyTypes (_name m) with
      | Throw e => (Throw e, m, w)
      | Return property =>
          match addProperty m property isNew w with
          | (Throw e, m', w') => (Throw e, m', w')
          | (Return p, m', w') => (Return (Some p), m', w')
          end
      end
  end.

(** [Model#_addMethod] *)
Definition _addMethod (m : Model) (methodName method : string) : Model :=
  with_methods m (Dict.set (_methods m) methodName method).

(** The [for(propertyName in this)] loop of [getAllProperties], over the
    fields still to visit. *)
Fixpoint register_fields (todo : dict Field) (m : Model) (w : World)
  : completion unit * Model * World :=
  match todo with
  | [] => (Return tt, m, w)
  | (propertyName, FTypes propertyTypes) :: rest =>
      match _addProperty m propertyName propertyTypes true w with
      | (Throw e, m', w') => (Throw e, m', w')
      | (Return _, m', w') => register_fields rest m' w'
      end
  | (propertyName, FMethod method) :: rest =>
      register_fields rest (_addMethod m propertyName method) w
  | (_, FValue _) :: rest => register_fields rest m w
  end.

(** The types of the default [id]: [[this.UUID, this.CanUpdate(false)]]. *)
Definition id_types : list PropertyType := [UUID; CanUpdate false].

(** [Model#getAllProperties].  The loop keeps the dictionary it is given, so
    the last [None] is not reached. *)
Definition getAllProperties (m : Model) (w : World)
  : completion (dict Property) * Model * World :=
  match _properties m with
  | Some props => (Return props, m, w)
  | None =>
      let m0 := with_properties m (Some []) in
      let step :=
        if negb (field_truthy (Dict.get (fields m0) "id"))
        then
          let m1 := with_fields m0 (Dict.set (fields m0) "id" (FTypes id_types)) in
          match new_Property "id" id_types (_name m1) with
          | Throw e => (Throw e, m1, w)
          | Return p => (Return tt, with_properties m1 (Some [("id", p)]), w)
          end
        else (Return tt, m0, w) in
      match step with
      | (Throw e, m2, w2) => (Throw e, m2, w2)
      | (Return _, m2, w2) =>
          match register_fields (fields m2) m2 w2 with
          | (Throw e, m3, w3) => (Throw e, m3, w3)
          | (Return _, m3, w3) =>
              match _properties m3 with
              | Some props => (Return props, m3, w3)
              | None => (Throw (TypeError "Cannot read property of null"), m3, w3)
              end
          end
      end
  end.

End Constructor.

(** ** Key paths *)

(** [s.split(c)] *)
Fixpoint split_on (c : ascii) (s : string) : list string :=
  match s with
  | EmptyString => [""]
  | String a rest =>
      if Ascii.eqb a c then "" :: split_on c rest
      else match split_on c rest with
           | [] => [String a ""]
           | segment :: segments => String a segment :: segments
           end
  end.

Definition key_path_null : exn :=
  Error None "Cannot find property with key path `null` (or `undefined`)".

Definition undefined_member (member : string) : exn :=
  TypeError ("Cannot read property '" +:+ member +:+ "' of undefined").

(** [Model#getProperty].  The method calls itself on the associated model with
    the second segment of the key path; [depth] bounds these nested calls and
    [None] says the bound was reached. *)
Fixpoint getProperty (depth : nat) (models : gmap string Model) (m : Model)
    (keyPath : string) : option (completion (option Property)) :=
  if String.eqb keyPath "" then Some (Throw key_path_null)
  else
    match _properties m with
    | None => Some (Throw (TypeError "Cannot read property of null"))
    | Some props =>
        match Dict.get props keyPath with
        | Some property => Some (Return (Some property))
        | None =>
            match take 2 (split_on "." keyPath) with
            | [first; second] =>
                match Dict.get props first with
                | None => Some (Throw (undefined_member "isManyToMany"))
                | Some firstProperty =>
                    let associatedModel :=
                      if isManyToMany firstProperty
                      then through (options firstProperty)
                      else getAssociatedModel firstProperty in
                    match associatedModel ≫= (fun n => models !! n) with
                    | None => Some (Throw (undefined_member "getProperty"))
                    | Some associated =>
                        match depth with
                        | O => None
                        | S depth' => getProperty depth' models associated second
                        end
                    end
                end
            | _ => Some (Return None)
            end
        end
    end.

(** ** Where-maps *)

(** A key is a raw operator when it is longer than one character and starts
    with the sigil. *)
Definition is_operator (propertyName : string) : bool :=
  (1 <? String.length propertyName)%nat && starts_with "$" propertyName.

Definition property_not_found (propertyName modelName : string) : exn :=
  Error None ("Cannot find property `" +:+ propertyName +:+ "` on `" +:+ modelName +:+ "`").

Definition hash_not_queryable (propertyName : string) : exn :=
  Error None ("Property `" +:+ propertyName +:+
    "` contains a hash method. It is not possible to query on a hash method directly.").

(** [Object.keys(selectMap || {}).forEach(key => map[key] = selectMap[key])] *)
Definition merge_select (map : dict value) (selectMap : option (dict value)) : dict value :=
  fold_left (fun acc kv => Dict.set acc (fst kv) (snd kv)) (default [] selectMap) map.

(** The [forEach] of [_transformWhereMap] over the entries still to visit,
    with the map built so far.  One nested call is all [getProperty] makes
    (lemma [getProperty_depth]), so the bound is not reached. *)
Fixpoint transform_entries (models : gmap string Model) (m : Model)
    (todo : dict value) (map : dict value) : completion (dict value) :=
  match todo with
  | [] => Return map
  | (propertyName, value) :: rest =>
      if is_operator propertyName
      then transform_entries models m rest (Dict.set map propertyName value)
      else
        match getProperty 1 models m propertyName with
        | None => Throw (TypeError "too much recursion")
        | Some (Throw e) => Throw e
        | Some (Return None) => Throw (property_not_found propertyName (_name m))
        | Some (Return (Some property)) =>
            match isSelectable property, selectMethod (options property) with
            | true, Some select =>
                transform_entries models m rest (merge_select map (select value))
            | _, _ =>
                match hashMethod (options property) with
                | Some _ => Throw (hash_not_queryable propertyName)
                | None => transform_entries models m rest (Dict.set map propertyName value)
                end
            end
        end
  end.

(** [Model#_transformWhereMap] *)
Definition _transformWhereMap (models : gmap string Model) (m : Model)
    (whereMap : dict value) : completion (dict value) :=
  transform_entries models m whereMap [].

(** ** Set-maps *)

Definition lookup_value (setMap : gmap string value) (k : string) : value :=
  default VUndefined (setMap !! k).

(** What a callback of the chain did. *)
Inductive Event : Type :=
| Transformed (propertyName : string)
| Hashed (propertyName : string)
| Defaulted (propertyName : string).

(** A callback registered with [result.then]: it updates the set-map in
    place when its turn comes. *)
Record Callback : Type := {
  event : Event;
  run : gmap string value -> gmap string value
}.

Definition transform_callback (property : Property) (f : gmap string value -> value) : Callback :=
  {| event := Transformed (name property);
     run := fun setMap =>
       match f setMap with
       | VUndefined => setMap
       | v => <[name property := v]> setMap
       end |}.

Definition hash_callback (property : Property) (f : gmap string value -> value) : Callback :=
  {| event := Hashed (name property);
     run := fun setMap => <[name property := f setMap]> setMap |}.

Definition default_callback (property : Property) (f : unit -> value) : Callback :=
  {| event := Defaulted (name property);
     run := fun setMap => <[name property := f tt]> setMap |}.

(** The condition under which [_transformSetMap] registers the default-value
    callback of a property that has one. *)
Definition default_condition (setMap : gmap string value) (isNew : bool)
    (property : Property) : bool :=
  let current := lookup_value setMap (name property) in
  (negb (truthy current) && isNew)
  || (negb isNew && defined current && negb (truthy current))
  || match defaultChangePropertyName (options property) with
     | Some change => negb (String.eqb change "") && truthy (lookup_value setMap change)
     | None => false
     end.

(** One turn of the [forEach] of [_transformSetMap]: the callbacks it appends
    to the chain.  The set-map it reads is the one passed in: no callback
    has run yet. *)
Definition register_callbacks (setMap : gmap string value) (isNew : bool)
    (chain : list Callback) (property : Property) : list Callback :=
  let chain1 :=
    match isTransformable property, transformMethod (options property) with
    | true, Some f => chain ++ [transform_callback property f]
    | _, _ => chain
    end in
  let chain2 :=
    match hashMethod (options property) with
    | Some f =>
        if truthy (lookup_value setMap (name property))
        then chain1 ++ [hash_callback property f]
        else chain1
    | None => chain1
    end in
  match defaultValue (options property) with
  | Some f =>
      if default_condition setMap isNew property
      then chain2 ++ [default_callback property f]
      else chain2
  | None => chain2
  end.

(** Running the chain: every callback in turn, on the set-map the previous
    ones left. *)
Definition run_chain (chain : list Callback) (setMap : gmap string value)
  : list Event * gmap string value :=
  fold_left (fun acc cb => (fst acc ++ [event cb], run cb (snd acc))) chain ([], setMap).

(** [Model#_transformSetMap], given the properties [getAllProperties]
    returned: the events in the order they happened, and the set-map the
    promise resolves with. *)
Definition _transformSetMap (properties : dict Property) (setMap : gmap string value)
    (isNew : bool) : list Event * gmap string value :=
  run_chain (fold_left (register_callbacks setMap isNew) (map snd properties) []) setMap.

(** ** Model instances from rows *)

(** Modelled from the spec: the constructor of the absent [model-instance.js]
    on a datastore row; section 3 makes the instance from the row, with the
    row it was joined to as the first member of its association collection. *)
Definition new_ModelInstance (m : Model) (row : Row) (hookName : option string)
    (isPartial : bool) (isShallow : value) : ModelInstance :=
  {| instance_model := _name m;
     instance_id := row_id row;
     instance_joined := option_list (row_joined row);
     instance_hook := hookName;
     instance_partial := isPartial;
     instance_shallow := isShallow |}.

(** Modelled from the spec: [ModelInstance#consumeRow] of the absent
    [model-instance.js]; section 3 has an instance consume a row that shares
    its id, folding the row into its association collection, and reject any
    other row. *)
Definition consumeRow (instance : ModelInstance) (row : Row) : option ModelInstance :=
  if String.eqb (row_id row) (instance_id instance)
  then Some {| instance_model := instance_model instance;
               instance_id := instance_id instance;
               instance_joined := instance_joined instance ++ option_list (row_joined row);
               instance_hook := instance_hook instance;
               instance_partial := instance_partial instance;
               instance_shallow := instance_shallow instance |}
  else None.

(** One turn of the [forEach] of [_createModelInstances].  The array holds
    the instance under construction by reference: [finished] are the instances
    before it, [current] is the last element of the array. *)
Definition consume_step (m : Model) (hookName : option string) (isPartial : bool)
    (isShallow : value) (state : list ModelInstance * option ModelInstance) (row : Row)
  : list ModelInstance * option ModelInstance :=
  match snd state with
  | None => (fst state, Some (new_ModelInstance m row hookName isPartial isShallow))
  | Some instance =>
      match consumeRow instance row with
      | Some instance' => (fst state, Some instance')
      | None =>
          (fst state ++ [instance],
           Some (new_ModelInstance m row hookName isPartial isShallow))
      end
  end.

(** [Model#_createModelInstances] *)
Definition _createModelInstances (m : Model) (rows : list Row) (hookName : option string)
    (isPartial : bool) (isShallow : value) : list ModelInstance :=
  let state := fold_left (consume_step m hookName isPartial isShallow) rows ([], None) in
  fst state ++ option_list (snd state).

(** ** The methods of a model *)

Definition no_table : exn := TypeError "Cannot read property of null".

(** Modelled from the spec: [Migration#addTask] of the absent migrations
    module, which registers [{model, operation, args}] on the queue of the
    migration and returns the queued task.  [operation] is the name
    [utils.getMethodName] finds for the calling method in [Model.prototype];
    [args] is the copy of its [arguments]. *)
Definition addTask (mig : nat) (m : Model) (operation : string) (args : Arguments)
    (w : World) : Task * World :=
  let t := {| task_model := _name m; task_operation := operation; task_args := args |} in
  (t, send mig (MAddTask t) w).

(** [this._table.f(...)]: the call is issued when the table is set. *)
Definition on_table (m : Model) (c : TableCall) (w : World) : completion TableCall * World :=
  match _table m with
  | None => (Throw no_table, w)
  | Some _ => (Return c, issue c w)
  end.

(** The shape shared by [setup], [edit], [exists], [removeAll], [forceDestroy]
    and [destroy]: hand the call to the active migration, or else return what
    the table returns. *)
Definition captured_or_table (m : Model) (operation : string) (args : Arguments)
    (c : TableCall) (w : World) : completion (Task + TableCall) * World :=
  match _activeMigration m with
  | Some mig => let '(t, w') := addTask mig m operation args w in (Return (inl t), w')
  | None =>
      match on_table m c w with
      | (Throw e, w') => (Throw e, w')
      | (Return c', w') => (Return (inr c'), w')
      end
  end.




(** [Model#removeAll] *)
Definition removeAll (m : Model) (w : World) : completion (Task + TableCall) * World :=
  captured_or_table m "removeAll" ArgsNone (TRemove [] VUndefined VUndefined VUndefined) w.


(** [Model#destroy] *)
Definition destroy (m : Model) (w : World) : completion (Task + TableCall) * World :=
  captured_or_table m "destroy" ArgsNone (TDrop false) w.

(** [var options = optionsMap || {}] *)
Definition options_or_new (optionsMap : option nat) (w : World) : nat * World :=
  match optionsMap with
  | Some l => (l, w)
  | None => alloc w
  end.

Section Methods.

(** [new Property(...)] of [property.js], and the rows the datastore answers a
    call with. *)
Variable new_Property : string -> list PropertyType -> string -> completion Property.
Variable datastore : TableCall -> promise (list Row).
Variable models : gmap string Model.

(** [Model#_create] *)
Definition _create (m : Model) (setMap : gmap string value) (w : World)
  : completion (Task + promise (option Row)) * World :=
  match _activeMigration m with
  | Some mig =>
      let '(t, w') := addTask mig m "_create" (ArgsCreate setMap) w in (Return (inl t), w')
  | None =>
      match on_table m (TInsert setMap) w with
      | (Throw e, w') => (Throw e, w')
      | (Return c, w') => (Return (inr (then_ (datastore c) head)), w')
      end
  end.


(** [Model#find] *)
Definition find (m : Model) (whereMap : option (dict value)) (optionsMap : option nat)
    (w : World) : completion (Task + promise (list ModelInstance)) * World :=
  match _activeMigration m with
  | Some mig =>
      let '(t, w') := addTask mig m "find" (ArgsFind whereMap optionsMap) w in
      (Return (inl t), w')
  | None =>
      let '(options, w1) := options_or_new optionsMap w in
      match _transformWhereMap models m (default [] whereMap) with
      | Throw e => (Throw e, w1)
      | Return where_ =>
          let c := TSelect where_ (read w1 options "limit") (read w1 options "skip")
                     (read w1 options "orderBy") (read w1 options "groupBy")
                     (read w1 options "select") (read w1 options "associations")
                     (read w1 options "autoFetchDepth") in
          match on_table m c w1 with
          | (Throw e, w2) => (Throw e, w2)
          | (Return c', w2) =>
              (Return (inr (then_ (datastore c')
                         (fun rows => _createModelInstances m rows None false
                                        (read w1 options "isShallow")))), w2)
          end
      end
  end.

(** The callback of [findOne], [updateOne] and [removeOne]: the first
    instance, or [null]. *)
Definition first_or_null (instances : list ModelInstance) : option ModelInstance :=
  head instances.

(** [Model#findOne] *)
Definition findOne (m : Model) (whereMap : option (dict value)) (optionsMap : option nat)
    (w : World) : completion (Task + promise (option ModelInstance)) * World :=
  match _activeMigration m with
  | Some mig =>
      let '(t, w') := addTask mig m "findOne" (ArgsFind whereMap optionsMap) w in
      (Return (inl t), w')
  | None =>
      let '(options, w1) := options_or_new optionsMap w in
      let w2 := write w1 options "limit" (VNum 1) in
      match find m whereMap (Some options) w2 with
      | (Throw e, w3) => (Throw e, w3)
      | (Return (inl t), w3) => (Return (inl t), w3)
      | (Return (inr p), w3) => (Return (inr (then_ p first_or_null)), w3)
      end
  end.

Definition not_found : exn := Error (Some 404) "Not Found".

(** [Model#getOne].  Under an active migration the chain is built on the task
    [findOne] returned; what chaining on a task yields belongs to the
    migrations module, and the task is returned as it is. *)
Definition getOne (m : Model) (where_ : option (dict value)) (options : option nat)
    (w : World) : completion (Task + promise ModelInstance) * World :=
  match findOne m where_ options w with
  | (Throw e, w') => (Throw e, w')
  | (Return (inl t), w') => (Return (inl t), w')
  | (Return (inr p), w') =>
      (Return (inr (then_try p (fun model =>
                      match model with
                      | Some instance => Return instance
                      | None => Throw not_found
                      end))), w')
  end.

(** The where clause of [update]: the transformed map when the argument is an
    object (or [null]), and [{id: whereMap}] otherwise. *)
Definition update_where (m : Model) (whereMap : WhereArg) : completion (dict value) :=
  match whereMap with
  | WhereMap d => _transformWhereMap models m d
  | WhereNull => _transformWhereMap models m []
  | WhereMissing => Return [("id", VUndefined)]
  | WhereId id => Return [("id", id)]
  end.

(** [Model#update] *)
Definition update (m : Model) (whereMap : WhereArg) (setMap : option (gmap string value))
    (optionsMap : option nat) (w : World)
  : completion (Task + promise (list ModelInstance)) * Model * World :=
  match _activeMigration m with
  | Some mig =>
      let '(t, w') := addTask mig m "update" (ArgsUpdate whereMap setMap optionsMap) w in
      (Return (inl t), m, w')
  | None =>
      match update_where m whereMap with
      | Throw e => (Throw e, m, w)
      | Return where_ =>
          let '(options, w1) := options_or_new optionsMap w in
          match getAllProperties new_Property m w1 with
          | (Throw e, m', w2) => (Throw e, m', w2)
          | (Return properties, m', w2) =>
              let set_ := snd (_transformSetMap properties (default ∅ setMap) false) in
              let c := TUpdate where_ set_ (read w2 options "limit")
                         (read w2 options "skip") (read w2 options "orderBy") in
              match _table m' with
              | None => (Return (inr (Rejected no_table)), m', w2)
              | Some _ =>
                  (Return (inr (then_ (datastore c)
                     (fun rows => _createModelInstances m' rows (Some "afterUpdate") true VUndefined))),
                   m', issue c w2)
              end
          end
      end
  end.

(** [Model#updateOne] *)
Definition updateOne (m : Model) (whereMap : WhereArg) (setMap : option (gmap string value))
    (optionsMap : option nat) (w : World)
  : completion (Task + promise (option ModelInstance)) * Model * World :=
  let '(options, w1) := options_or_new optionsMap w in
  let w2 := write w1 options "limit" (VNum 1) in
  match update m whereMap setMap (Some options) w2 with
  | (Throw e, m', w3) => (Throw e, m', w3)
  | (Return (inl t), m', w3) => (Return (inl t), m', w3)
  | (Return (inr p), m', w3) => (Return (inr (then_ p first_or_null)), m', w3)
  end.

(** [Model#_updateOne] *)
Definition _updateOne (m : Model) (where_ : dict value) (set_ : gmap string value) (w : World)
  : completion (promise (option Row)) * World :=
  match on_table m (TUpdate where_ set_ (VNum 1) VUndefined VUndefined) w with
  | (Throw e, w') => (Throw e, w')
  | (Return c, w') => (Return (then_ (datastore c) head), w')
  end.

Definition remove_without_where : exn :=
  Error None ("You are calling Model#remove without a `where` clause. " +:+
    "This will result in removing all instances. This is disabled in Model#remove. " +:+
    "Please invoke Model#removeAll instead.").

(** [Model#remove] *)
Definition remove (m : Model) (whereMap : option (dict value)) (optionsMap : option nat)
    (w : World) : completion (Task + promise (list ModelInstance)) * World :=
  match _activeMigration m with
  | Some mig =>
      let '(t, w') := addTask mig m "remove" (ArgsRemove whereMap optionsMap) w in
      (Return (inl t), w')
  | None =>
      match _transformWhereMap models m (default [] whereMap) with
      | Throw e => (Throw e, w)
      | Return where_ =>
          match Dict.keys where_ with
          | [] => (Throw remove_without_where, w)
          | _ :: _ =>
              let '(options, w1) := options_or_new optionsMap w in
              let c := TRemove where_ (read w1 options "limit") (read w1 options "skip")
                         (read w1 options "orderBy") in
              match on_table m c w1 with
              | (Throw e, w2) => (Throw e, w2)
              | (Return c', w2) =>
                  (Return (inr (then_ (datastore c')
                     (fun rows => _createModelInstances m rows None true VUndefined))), w2)
              end
          end
      end
  end.

(** [Model#removeOne] *)
Definition removeOne (m : Model) (whereMap : option (dict value)) (optionsMap : option nat)
    (w : World) : completion (Task + promise (option ModelInstance)) * World :=
  let '(options, w1) := options_or_new optionsMap w in
  let w2 := write w1 options "limit" (VNum 1) in
  match remove m whereMap (Some options) w2 with
  | (Throw e, w3) => (Throw e, w3)
  | (Return (inl t), w3) => (Return (inl t), w3)
  | (Return (inr p), w3) => (Return (inr (then_ p first_or_null)), w3)
  end.

End Methods.

(** ** Creating instances *)

(** The argument of [create]: one create-map, or an array of them. *)
Inductive CreateArg : Type :=
| CreateOne (createMap : gmap string value)
| CreateMany (createMaps : list (gmap string value)).

(** What [create] returns: the promise of one save, or [Q.all] of the promises
    of several. *)
Inductive Created : Type :=
| SavePromise (i : nat)
| AllOf (promises : list nat).

Definition is_started (t : Tick) : bool :=
  match t with Started _ => true | Settled _ _ => false end.

Definition started (tl : list Tick) : nat := length (List.filter is_started tl).

(** Modelled from the spec: [ModelInstance#save] of the absent
    [model-instance.js] on [new ModelInstance(model, null, createMap, null,
    null, true, false, privateMap)]; by section 5 it returns a deferred result
    and suspends at the datastore round-trip, so the call starts the save and
    returns its promise. *)
Definition save (m : Model) (createMap : gmap string value) (privateMap : value)
    (w : World) : nat * World :=
  (started (timeline w),
   tick (Started {| save_model := _name m; save_changes := createMap;
                    save_private := privateMap |}) w).

(** [fields.map(function(createMap) { return (new ModelInstance(...)).save(); })] *)
Definition save_each_from (m : Model) (privateMap : value)
    (createMaps : list (gmap string value)) (acc : list nat * World) : list nat * World :=
  fold_left (fun acc createMap =>
               let '(i, w') := save m createMap privateMap (snd acc) in
               (fst acc ++ [i], w'))
            createMaps acc.

Definition save_each (m : Model) (privateMap : value) (createMaps : list (gmap string value))
    (w : World) : list nat * World :=
  save_each_from m privateMap createMaps ([], w).

(** [Model#create] *)
Definition create (m : Model) (fields : CreateArg) (privateMap : value) (w : World)
  : Created * World :=
  match fields with
  | CreateMany createMaps =>
      let '(promises, w') := save_each m privateMap createMaps w in (AllOf promises, w')
  | CreateOne createMap =>
      let '(i, w') := save m createMap privateMap w in (SavePromise i, w')
  end.

(** ** Finding or creating *)

(** The where argument as [utils.merge] receives it. *)
Definition where_arg (whereMap : option (dict value)) : WhereArg :=
  match whereMap with
  | Some d => WhereMap d
  | None => WhereMissing
  end.

(** What the promise of [findOrCreate] and of [updateOrCreate] does: it
    settles as the lookup did, or it follows the promise of the save that
    [create] started. *)
Inductive Upserted : Type :=
| Kept (p : promise ModelInstance)
| Follows (c : Created).

Section Upsert.

Variable new_Property : string -> list PropertyType -> string -> completion Property.
Variable datastore : TableCall -> promise (list Row).
Variable models : gmap string Model.

(** [utils.merge] of the absent helpers, by what it returns. *)
Variable merge : WhereArg -> option (gmap string value) -> gmap string value.

(** The callback of [findOrCreate] and of [updateOrCreate]: create when the
    lookup resolved with [null]. *)
Definition or_create (m : Model) (whereMap : WhereArg) (setMap : option (gmap string value))
    (p : promise (option ModelInstance)) (w : World) : Upserted * World :=
  match p with
  | Rejected e => (Kept (Rejected e), w)
  | Fulfilled (Some model) => (Kept (Fulfilled model), w)
  | Fulfilled None =>
      let '(c, w') := create m (CreateOne (merge whereMap setMap)) VUndefined w in
      (Follows c, w')
  end.

(** [Model#findOrCreate].  Under an active migration [findOne] returns a
    task, and the task is returned as it is. *)
Definition findOrCreate (m : Model) (where_ : option (dict value))
    (set_ : option (gmap string value)) (w : World)
  : completion (Task + Upserted) * World :=
  match findOne datastore models m where_ None w with
  | (Throw e, w') => (Throw e, w')
  | (Return (inl t), w') => (Return (inl t), w')
  | (Return (inr p), w') =>
      let '(u, w'') := or_create m (where_arg where_) set_ p w' in (Return (inr u), w'')
  end.


End Upsert.

(** ** Authenticating *)

(** What [findMe] reads of a request that has its [headers] and its
    [session]: the authorization header and the access token of the
    session. *)
Record Request : Type := {
  authorization : value;
  session_at : value
}.

Definition findMe_without_request (modelName : string) : exn :=
  Error None ("`" +:+ modelName +:+ "#findMe` requires a request argument on the back-end.").

Definition not_the_authenticator (modelName : string) : exn :=
  Error None ("Warning: `" +:+ modelName +:+
    "#findMe` is not available because it's not the authenticator.").

Definition unauthorized : exn := Error (Some 401) "Unauthorized".

Definition authorize_unavailable : exn :=
  Error None "Model#authorize is only available on a password-based authenticator model.".

Definition incorrect_password : exn := Error None "Incorrect password provided.".

Section Authenticating.

Variable datastore : TableCall -> promise (list Row).
Variable models : gmap string Model.

(** [this.models.getAuthenticator()] of the absent models module: the
    authenticator model, when there is one. *)
Variable getAuthenticator : option Model.

(** [utils.parseAuthorization] of the absent helpers: the two credentials of
    an authorization header, when it holds them. *)
Variable parseAuthorization : value -> option (value * value).

(** The name of [this.options.authenticatingProperty] and
    [!!this.options.isPasswordBased], which the property types set. *)
Variable authenticatingProperty : Model -> option string.
Variable isPasswordBased : Model -> bool.

(** [ModelInstance#validateHash] of the absent [model-instance.js]. *)
Variable validateHash : ModelInstance -> string -> value -> promise value.

(** [Model#isAuthenticator] *)
Definition isAuthenticator (m : Model) : bool :=
  bool_decide (is_Some (authenticatingProperty m)).

(** [Model#isPasswordBasedAuthenticator] *)
Definition isPasswordBasedAuthenticator (m : Model) : bool :=
  bool_decide (is_Some (authenticatingProperty m)) && isPasswordBased m.

(** [Model#findMe].  Models are compared by their names; past the
    comparison the authenticator model is the model itself. *)
Definition findMe (m : Model) (request : option Request) (w : World)
  : completion (Task + promise (option ModelInstance)) * World :=
  match request with
  | None => (Throw (findMe_without_request (_name m)), w)
  | Some request =>
      match getAuthenticator with
      | None => (Return (inr (Fulfilled None)), w)
      | Some authenticatorModel =>
          if negb (String.eqb (_name authenticatorModel) (_name m))
          then (Throw (not_the_authenticator (_name m)), w)
          else
            match parseAuthorization (authorization request) with
            | Some (identifier, accessToken) =>
                match authenticatingProperty m with
                | None => (Throw (undefined_member "name"), w)
                | Some propertyName =>
                    let findMap :=
                      Dict.set [(propertyName, identifier)] "accessToken" accessToken in
                    findOne datastore models m (Some findMap) None w
                end
            | None =>
                if negb (truthy (session_at request))
                then (Return (inr (Fulfilled None)), w)
                else findOne datastore models m (Some [("accessToken", session_at request)])
                       None w
            end
      end
  end.

(** [Model#getMe].  Under an active migration the chain is built on the task
    [findOne] returned, and the task is returned as it is. *)
Definition getMe (m : Model) (request : option Request) (w : World)
  : completion (Task + promise ModelInstance) * World :=
  match findMe m request w with
  | (Throw e, w') => (Throw e, w')
  | (Return (inl t), w') => (Return (inl t), w')
  | (Return (inr p), w') =>
      (Return (inr (then_try p (fun modelInstance =>
                      match modelInstance with
                      | Some instance => Return instance
                      | None => Throw unauthorized
                      end))), w')
  end.

(** [Model#_findAuthenticator] *)
Definition _findAuthenticator (request : option Request) (w : World)
  : completion (Task + promise (option ModelInstance)) * World :=
  match request with
  | None => (Return (inr (Fulfilled None)), w)
  | Some _ =>
      match getAuthenticator with
      | None => (Return (inr (Fulfilled None)), w)
      | Some authenticatorModel => findMe authenticatorModel request w
      end
  end.

(** The callbacks of [authorize]: the instance when its hash validates. *)
Definition validated (password : value) (p : promise ModelInstance) : promise ModelInstance :=
  match p with
  | Rejected e => Rejected e
  | Fulfilled modelInstance =>
      match validateHash modelInstance "password" password with
      | Rejected e => Rejected e
      | Fulfilled valid =>
          if truthy valid then Fulfilled modelInstance else Rejected incorrect_password
      end
  end.

(** [Model#authorize] *)
Definition authorize (m : Model) (authenticateMap : gmap string value) (w : World)
  : completion (Task + promise ModelInstance) * World :=
  if negb (isPasswordBasedAuthenticator m) then (Throw authorize_unavailable, w)
  else
    match authenticatingProperty m with
    | None => (Throw (undefined_member "name"), w)
    | Some propertyName =>
        let whereMap := [(propertyName, lookup_value authenticateMap propertyName)] in
        match getOne datastore models m (Some whereMap) None w with
        | (Throw e, w') => (Throw e, w')
        | (Return (inl t), w') => (Return (inl t), w')
        | (Return (inr p), w') =>
            (Return (inr (validated (lookup_value authenticateMap "password") p)), w')
        end
    end.

End Authenticating.

(** The datastore answers in its own time: a started save that has not
    settled may settle next, whichever it is. *)
Definition settled_in (tl : list Tick) (i : nat) : bool :=
  existsb (fun t => match t with Settled j _ => Nat.eqb i j | Started _ => false end) tl.

Inductive settles : list Tick -> list Tick -> Prop :=
| settles_refl tl : settles tl tl
| settles_step tl tl' i r :
    settles tl tl' ->
    (i < started tl')%nat ->
    settled_in tl' i = false ->
    settles tl (tl' ++ [Settled i r]).

(** How promise [i] settled, if it did. *)
Definition settlement (tl : list Tick) (i : nat) : option (promise ModelInstance) :=
  match List.find (fun t => match t with
                            | Settled j _ => Nat.eqb i j
                            | Started _ => false
                            end) tl with
  | Some (Settled _ r) => Some r
  | _ => None
  end.

Definition is_rejected (r : option (promise ModelInstance)) : bool :=
  match r with Some (Rejected _) => true | _ => false end.

(** The first rejection among the promises, in time order.  A promise
    settles once: a later tick for it counts for nothing. *)
Definition first_rejection (tl : list Tick) (promises : list nat) : option exn :=
  match List.find (fun t => match t with
                            | Settled j (Rejected _) =>
                                existsb (Nat.eqb j) promises && is_rejected (settlement tl j)
                            | _ => false
                            end) tl with
  | Some (Settled _ (Rejected e)) => Some e
  | _ => None
  end.

(** [Q.all(promises)]: rejected as soon as one of the promises is, fulfilled
    with the values in the order of [promises] once all are fulfilled, pending
    ([None]) otherwise. *)
Definition Q_all (tl : list Tick) (promises : list nat) : option (promise (list ModelInstance)) :=
  match first_rejection tl promises with
  | Some e => Some (Rejected e)
  | None =>
      Fulfilled <$> mapM (fun i => match settlement tl i with
                                   | Some (Fulfilled instance) => Some instance
                                   | _ => None
                                   end) promises
  end.

(** No save starts while a save started before it is unsettled. *)
Definition sequential (tl : list Tick) : Prop :=
  forall k s i,
    tl !! k = Some (Started s) ->
    (i < started (take k tl))%nat ->
    settled_in (take k tl) i = true.

(** ** Removing properties *)

(** [Model#removeProperty], with [_removeOneAssociationTo] and
    [_removeManyAssociationTo] as its inner loop [each]: the three call one
    another across the models of the registry, so the model is named and
    looked up there; [fuel] bounds the nesting and [None] says it ran out.
    [each one owner target names] visits the association names of [owner]
    that were listed before the loop began. *)
Fixpoint removeProperty (fuel : nat) (models : gmap string Model) (self : string)
    (property : Property) (w : World) {struct fuel}
  : option (completion unit * gmap string Model * World) :=
  match fuel with
  | O => None
  | S fuel' =>
      let each :=
        fix each (one : bool) (owner target : string) (names : list string)
            (models : gmap string Model) (w : World) {struct names}
          : option (completion unit * gmap string Model * World) :=
          match names with
          | [] => Some (Return tt, models, w)
          | associationName :: rest =>
              match models !! owner ≫= (fun o => Dict.get (_associations o) associationName) with
              | None =>
                  Some (Throw (undefined_member
                                 (if one then "oneAssociation" else "manyAssociation")),
                        models, w)
              | Some association =>
                  if (if one then oneAssociation association else manyAssociation association)
                     && bool_decide (getAssociatedModel association = Some target)
                  then
                    match removeProperty fuel' models owner association w with
                    | Some (Return _, models', w') => each one owner target rest models' w'
                    | stopped => stopped
                    end
                  else each one owner target rest models w
              end
          end in
      match models !! self with
      | None => Some (Throw (undefined_member "_activeMigration"), models, w)
      | Some m =>
          let w1 :=
            match _activeMigration m with
            | Some mig => send mig (MRemoveProperty property) w
            | None => w
            end in
          match _properties m with
          | None =>
              Some (Throw (TypeError "Cannot convert undefined or null to object"), models, w1)
          | Some props =>
              let m1 := with_properties m (Some (Dict.remove props (name property))) in
              if isAssociation property
              then
                let m2 := with_associations m1
                            (Dict.remove (_associations m1) (name property)) in
                let models2 := <[self := m2]> models in
                if manyAssociation property || oneAssociation property
                then
                  match getAssociatedModel property ≫= (fun n => (fun o => (n, o)) <$> models2 !! n) with
                  | None =>
                      Some (Throw (undefined_member
                                     (if manyAssociation property
                                      then "_removeOneAssociationTo"
                                      else "_removeManyAssociationTo")),
                            models2, w1)
                  | Some (other, o) =>
                      each (manyAssociation property) other self
                        (Dict.keys (_associations o)) models2 w1
                  end
                else Some (Return tt, models2, w1)
              else Some (Return tt, <[self := m1]> models, w1)
          end
      end
  end.

(** ** The mutating methods, by name *)






(** ** Access control *)

(** [unauthenticatedError] of [model.js] *)
Definition unauthenticatedError (authenticator : value) : exn :=
  if truthy authenticator
  then Error (Some 403) "Forbidden"
  else Error (Some 401) "Unauthorized".

Definition no_authenticator_model : exn :=
  Error None ("Cannot find authenticator model. " +:+
    "Did you define an authenticator via `PropertyTypes#Authenticate`?").

Definition automatic_property_set : exn :=
  Error (Some 400) "Cannot set automatic property manually.".

(** The [createMaps.forEach] of [canCreate]: every create-map gets the
    authenticator under the automatic property, unless it sets that property
    itself. *)
Fixpoint stamp (automatic : string) (authenticator : value)
    (createMaps : list (gmap string value)) : completion (list (gmap string value)) :=
  match createMaps with
  | [] => Return []
  | createMap :: rest =>
      if truthy (lookup_value createMap automatic)
      then Throw automatic_property_set
      else match stamp automatic authenticator rest with
           | Throw e => Throw e
           | Return rest' => Return (<[automatic := authenticator]> createMap :: rest')
           end
  end.

(** The callback [canCreate] passes to [spread]: [canCreate] is what
    [getAccessControl] resolved to, [authenticator] what [_findAuthenticator]
    did; [hasAuthenticator] says whether the registry has an authenticator
    model. *)
Definition canCreate_spread (m : Model) (hasAuthenticator : bool)
    (createMaps : list (gmap string value)) (canCreate authenticator : value)
  : completion (bool * list (gmap string value)) :=
  if negb (truthy canCreate) then Throw (unauthenticatedError authenticator)
  else
    match automaticPropertyName m with
    | Some automatic =>
        if String.eqb automatic "" then Return (true, createMaps)
        else if negb hasAuthenticator then Throw no_authenticator_model
        else match stamp automatic authenticator createMaps with
             | Throw e => Throw e
             | Return createMaps' => Return (true, createMaps')
             end
    | None => Return (true, createMaps)
    end.

(** [Model#canCreate]: without a request the create-maps pass as they are;
    with one, [found] is how [_findAuthenticator] settled and [accessControl]
    the object [getAccessControl] returned. *)
Definition canCreate (m : Model) (hasAuthenticator : bool)
    (createMaps : list (gmap string value)) (request : option value)
    (found : promise value) (accessControl : value)
  : promise (bool * list (gmap string value)) :=
  match request with
  | None => Fulfilled (true, createMaps)
  | Some _ =>
      then_try found (fun authenticator =>
        canCreate_spread m hasAuthenticator createMaps accessControl authenticator)
  end.

(** ** The generated API of the test fixture, [test/fixtures/api/tester.js] *)

Module Tester.

(** [http.STATUS_CODES] of the platform, for the codes the fixture uses. *)
Definition STATUS_CODES (status : Z) : string :=
  if status =? 400 then "Bad Request"
  else if status =? 401 then "Unauthorized"
  else if status =? 403 then "Forbidden"
  else if status =? 404 then "Not Found"
  else "".

(** [unauthenticatedError] of the fixture *)
Definition unauthenticatedError (authenticator : value) : exn :=
  let status := if truthy authenticator then 403 else 401 in
  Error (Some status) (STATUS_CODES status).

(** [merge(dest, source)] *)
Definition merge (dest source : dict value) : dict value :=
  fold_left (fun acc kv => Dict.set acc (fst kv) (snd kv)) source dest.

(** What an access-control check resolves to: a boolean, or a predicate
    object to merge into the where-map. *)
Inductive Permission : Type :=
| Verdict (allowed : bool)
| Predicate (whereMap : dict value).

(** The handler of [DELETE /api/testers], from the point where
    [findAuthenticator] resolved with [authenticator] and [canDelete] with
    [permission]; [query] is [request.query]. *)
Definition delete_testers (datastore : TableCall -> promise (list Row))
    (models : gmap string Model) (TesterModel : Model) (query : option (dict value))
    (authenticator : value) (permission : Permission) (w : World)
  : promise (Task + list ModelInstance) * World :=
  let whereMap0 := default [] query in
  let whereMap1 :=
    match automaticPropertyName TesterModel with
    | Some automatic =>
        if String.eqb automatic "" then whereMap0
        else Dict.set whereMap0 automatic authenticator
    | None => whereMap0
    end in
  let removing whereMap :=
    match remove datastore models TesterModel (Some whereMap) None w with
    | (Throw e, w') => (Rejected e, w')
    | (Return (inl t), w') => (Fulfilled (inl t), w')
    | (Return (inr p), w') => (then_ p inr, w')
    end in
  match permission with
  | Verdict true => removing whereMap1
  | Predicate canDelete => removing (merge whereMap1 canDelete)
  | Verdict false => (Rejected (unauthenticatedError authenticator), w)
  end.

(** [badRequestError] of the fixture *)
Definition badRequestError : exn := Error (Some 400) (STATUS_CODES 400).

(** [v !== true] *)
Definition not_true (v : value) : bool :=
  match v with VBool true => false | _ => true end.

(** What the handler of [POST /api/testers] answers with: an error, or what
    [create] returned. *)
Inductive Response : Type :=
| Fails (e : exn)
| Creates (c : Created).

(** The request body: an array of create-maps, or one create-map (or
    nothing). *)
Inductive Body : Type :=
| BodyMany (createMaps : list (dict value))
| BodyOne (createMap : option (dict value)).

(** The create-map as [create] takes it. *)
Definition fields_of (createMap : dict value) : gmap string value := list_to_map createMap.

Section Checks.

(** [property.options.canSet] and [property.options.canUpdate], which
    [model.js] does not read: [undefined] when the property does not set
    them. *)
Variable canSet canUpdate : Property -> value.
Variable models : gmap string Model.

(** [new Property(...)] of [property.js], and the rows the datastore answers a
    call with. *)
Variable new_Property : string -> list PropertyType -> string -> completion Property.
Variable datastore : TableCall -> promise (list Row).

(** [_canUpdateProperties(propertyNames, model)] *)
Fixpoint _canUpdateProperties (propertyNames : list string) (model : Model) : completion bool :=
  match propertyNames with
  | [] => Return true
  | propertyName :: rest =>
      match getProperty 1 models model propertyName with
      | None => Throw (TypeError "too much recursion")
      | Some (Throw e) => Throw e
      | Some (Return None) => _canUpdateProperties rest model
      | Some (Return (Some property)) =>
          if (defined (canUpdate property) && not_true (canUpdate property))
             || (defined (canSet property) && not_true (canSet property))
          then Return false
          else _canUpdateProperties rest model
      end
  end.

(** [_canSetProperties(propertyNames, model)] *)
Fixpoint _canSetProperties (propertyNames : list string) (model : Model) : completion bool :=
  match propertyNames with
  | [] => Return true
  | propertyName :: rest =>
      match getProperty 1 models model propertyName with
      | None => Throw (TypeError "too much recursion")
      | Some (Throw e) => Throw e
      | Some (Return None) => _canSetProperties rest model
      | Some (Return (Some property)) =>
          if defined (canSet property) && not_true (canSet property)
          then Return false
          else _canSetProperties rest model
      end
  end.

(** [checkCreateMap] of the handler of [POST /api/testers] *)
Definition checkCreateMap (TesterModel : Model) (authenticator : value)
    (canCreate : Permission) (createMap : dict value) : completion (dict value) :=
  let createMap1 :=
    match canCreate with
    | Predicate predicate => merge createMap predicate
    | Verdict _ => createMap
    end in
  let createMap2 :=
    match automaticPropertyName TesterModel with
    | Some automatic =>
        if String.eqb automatic "" then createMap1
        else Dict.set createMap1 automatic authenticator
    | None => createMap1
    end in
  match _canSetProperties (Dict.keys createMap2) TesterModel with
  | Throw e => Throw e
  | Return true => Return createMap2
  | Return false => Throw badRequestError
  end.

(** [request.body.map(checkCreateMap)]: the first create-map that fails stops
    the map. *)
Fixpoint check_each (TesterModel : Model) (authenticator : value) (canCreate : Permission)
    (createMaps : list (dict value)) : completion (list (dict value)) :=
  match createMaps with
  | [] => Return []
  | createMap :: rest =>
      match checkCreateMap TesterModel authenticator canCreate createMap with
      | Throw e => Throw e
      | Return checked =>
          match check_each TesterModel authenticator canCreate rest with
          | Throw e => Throw e
          | Return rest' => Return (checked :: rest')
          end
      end
  end.

(** The handler of [POST /api/testers], from the point where
    [findAuthenticator] resolved with [authenticator] and [canCreate] with
    [permission]; [privateMap] is the object it passes to [create]. *)
Definition post_testers (TesterModel : Model) (body : Body) (authenticator : value)
    (permission : Permission) (privateMap : value) (w : World) : Response * World :=
  match permission with
  | Verdict false => (Fails (unauthenticatedError authenticator), w)
  | _ =>
      match body with
      | BodyMany createMaps =>
          match check_each TesterModel authenticator permission createMaps with
          | Throw e => (Fails e, w)
          | Return checked =>
              let '(c, w') := create TesterModel (CreateMany (map fields_of checked))
                                privateMap w in
              (Creates c, w')
          end
      | BodyOne createMap =>
          match checkCreateMap TesterModel authenticator permission (default [] createMap) with
          | Throw e => (Fails e, w)
          | Return checked =>
              let '(c, w') := create TesterModel (CreateOne (fields_of checked)) privateMap w in
              (Creates c, w')
          end
      end
  end.

(** The handler of [PUT /api/testers/:id], from the point where
    [findAuthenticator] resolved with [authenticator] and [canUpdate] with
    [permission]; [query] is [request.query], [id] is [request.params.id] and
    [body] is [request.body]. *)
Definition put_tester (TesterModel : Model) (query : option (dict value)) (id : value)
    (body : dict value) (authenticator : value) (permission : Permission) (w : World)
  : promise (Task + ModelInstance) * Model * World :=
  let whereMap0 := default [] query in
  let whereMap1 :=
    match automaticPropertyName TesterModel with
    | Some automatic =>
        if String.eqb automatic "" then whereMap0
        else Dict.set whereMap0 automatic authenticator
    | None => whereMap0
    end in
  let whereMap2 := Dict.set whereMap1 "id" id in
  match permission with
  | Verdict false => (Rejected (unauthenticatedError authenticator), TesterModel, w)
  | _ =>
      let whereMap3 :=
        match permission with
        | Predicate canUpdate => merge whereMap2 canUpdate
        | Verdict _ => whereMap2
        end in
      match _canUpdateProperties (Dict.keys body) TesterModel with
      | Throw e => (Rejected e, TesterModel, w)
      | Return false => (Rejected badRequestError, TesterModel, w)
      | Return true =>
          match updateOne new_Property datastore models TesterModel (WhereMap whereMap3)
                  (Some (fields_of body)) None w with
          | (Throw e, m', w') => (Rejected e, m', w')
          | (Return (inl t), m', w') => (Fulfilled (inl t), m', w')
          | (Return (inr p), m', w') =>
              (then_try p (fun modelInstance =>
                             match modelInstance with
                             | Some instance => Return (inr instance)
                             | None => Throw (unauthenticatedError authenticator)
                             end), m', w')
          end
      end
  end.

(** The handler of [PUT /api/testers], from the point where
    [findAuthenticator] resolved with [authenticator] and [canUpdate] with
    [permission]; [query] is [request.query] and [body] is [request.body]. *)
Definition put_testers (TesterModel : Model) (query : option (dict value))
    (body : option (dict value)) (authenticator : value) (permission : Permission)
    (w : World) : promise (Task + list ModelInstance) * Model * World :=
  let whereMap0 := default [] query in
  let whereMap1 :=
    match automaticPropertyName TesterModel with
    | Some automatic =>
        if String.eqb automatic "" then whereMap0
        else Dict.set whereMap0 automatic authenticator
    | None => whereMap0
    end in
  match permission with
  | Verdict false => (Rejected (unauthenticatedError authenticator), TesterModel, w)
  | _ =>
      match _canUpdateProperties (Dict.keys (default [] body)) TesterModel with
      | Throw e => (Rejected e, TesterModel, w)
      | Return false => (Rejected badRequestError, TesterModel, w)
      | Return true =>
          let whereMap2 :=
            match permission with
            | Predicate canUpdate => merge whereMap1 canUpdate
            | Verdict _ => whereMap1
            end in
          match update new_Property datastore models TesterModel (WhereMap whereMap2)
                  (Some (fields_of (default [] body))) None w with
          | (Throw e, m', w') => (Rejected e, m', w')
          | (Return (inl t), m', w') => (Fulfilled (inl t), m', w')
          | (Return (inr p), m', w') => (then_ p inr, m', w')
          end
      end
  end.

(** The handler of [DELETE /api/testers/:id], from the point where
    [findAuthenticator] resolved with [authenticator] and [canDelete] with
    [permission]; [query] is [request.query] and [id] is
    [request.params.id]. *)
Definition delete_tester (TesterModel : Model) (query : option (dict value)) (id : value)
    (authenticator : value) (permission : Permission) (w : World)
  : promise (Task + option ModelInstance) * World :=
  let whereMap0 := Dict.set (default [] query) "id" id in
  let whereMap1 :=
    match automaticPropertyName TesterModel with
    | Some automatic =>
        if String.eqb automatic "" then whereMap0
        else Dict.set whereMap0 automatic authenticator
    | None => whereMap0
    end in
  let removing whereMap :=
    match removeOne datastore models TesterModel (Some whereMap) None w with
    | (Throw e, w') => (Rejected e, w')
    | (Return (inl t), w') => (Fulfilled (inl t), w')
    | (Return (inr p), w') => (then_ p inr, w')
    end in
  match permission with
  | Verdict true => removing whereMap1
  | Predicate canDelete => removing (merge whereMap1 canDelete)
  | Verdict false => (Rejected (unauthenticatedError authenticator), w)
  end.

End Checks.

End Tester.

(** * Vocabulary of the statements *)

(** [todo] declares [k] when it holds a non-empty list of types under [k]. *)
Definition declares (todo : dict Field) (k : string) : Prop :=
  exists t ts, (k, FTypes (t :: ts)) ∈ todo.

(** A property name the guard of [addProperty] lets through. *)
Definition valid_name (n : string) : Prop :=
  String.eqb n "" || starts_with "_" n || starts_with "$" n = false.

(** Every list of types stands under a name [addProperty] accepts. *)
Definition well_named (todo : dict Field) : Prop :=
  Forall (fun kv => forall t ts, snd kv = FTypes (t :: ts) -> valid_name (fst kv)) todo.

Definition event_name (e : Event) : string :=
  match e with Transformed n | Hashed n | Defaulted n => n end.

(** The events one property contributes, in order. *)
Definition property_events (setMap : gmap string value) (isNew : bool) (p : Property)
  : list Event :=
  (if isTransformable p then [Transformed (name p)] else [])
  ++ (if bool_decide (is_Some (hashMethod (options p))) && truthy (lookup_value setMap (name p))
      then [Hashed (name p)] else [])
  ++ (if bool_decide (is_Some (defaultValue (options p))) && default_condition setMap isNew p
      then [Defaulted (name p)] else []).

(** The phase of an event: transforms, then hashes, then defaults. *)
Definition rank (e : Event) : nat :=
  match e with Transformed _ => 0 | Hashed _ => 1 | Defaulted _ => 2 end.

(** The select maps the entries of [todo] write do not hold [k]. *)
Definition unselected (models : gmap string Model) (m : Model) (todo : dict value)
    (k : string) : Prop :=
  forall k' v' p select,
    (k', v') ∈ todo -> is_operator k' = false ->
    getProperty 1 models m k' = Some (Return (Some p)) ->
    selectMethod (options p) = Some select ->
    k ∉ Dict.keys (default [] (select v')).

(** The save [create] starts for one create-map. *)
Definition save_of (m : Model) (privateMap : value) (createMap : gmap string value) : Save :=
  {| save_model := _name m; save_changes := createMap; save_private := privateMap |}.


(** Rows ordered by id, ascending in the lexical order of strings. *)
Definition id_lt (a b : string) : Prop := OrdersEx.String_as_OT.lt a b.

Definition id_le (a b : string) : Prop := a = b \/ id_lt a b.

Definition ascending (rows : list Row) : Prop :=
  Sorted (fun a b => id_le (row_id a) (row_id b)) rows.

(** The instance all the rows of [block] fold into. *)
Definition folded (m : Model) (hookName : option string) (isPartial : bool)
    (isShallow : value) (p : string) (block : list Row) : ModelInstance :=
  {| instance_model := _name m; instance_id := p;
     instance_joined := omap row_joined block; instance_hook := hookName;
     instance_partial := isPartial; instance_shallow := isShallow |}.

(** A key [_transformWhereMap] writes as it is: an operator, or the name of a
    property that is not selectable and has no hash method. *)
Definition verbatim (models : gmap string Model) (m : Model) (k : string) : Prop :=
  is_operator k = true
  \/ exists p, getProperty 1 models m k = Some (Return (Some p))
               /\ isSelectable p = false /\ hashMethod (options p) = None.



(** Every entry of the dictionary is stored under the name of its
    property, as [addProperty] stores it. *)
Definition stored_by_name (props : dict Property) : Prop :=
  Forall (fun kv => name (snd kv) = fst kv) props.


(** The association points to the model: the condition of
    [findAssociationsTo]. *)
Definition points_to (association : Property) (model : Model) : bool :=
  bool_decide (getAssociatedModel association = Some (_name model))
  || bool_decide (referenceName (options association) = Some (_name model)).

(** The loop of [_removeOneAssociationTo] ([one]) and of
    [_removeManyAssociationTo] as [removeProperty] runs it, given what the
    nested calls of [removeProperty] do. *)
Definition each_association
    (nested : gmap string Model -> string -> Property -> World ->
              option (completion unit * gmap string Model * World)) :=
  fix each (one : bool) (owner target : string) (names : list string)
      (models : gmap string Model) (w : World) {struct names}
    : option (completion unit * gmap string Model * World) :=
    match names with
    | [] => Some (Return tt, models, w)
    | associationName :: rest =>
        match models !! owner ≫= (fun o => Dict.get (_associations o) associationName) with
        | None =>
            Some (Throw (undefined_member
                           (if one then "oneAssociation" else "manyAssociation")),
                  models, w)
        | Some association =>
            if (if one then oneAssociation association else manyAssociation association)
               && bool_decide (getAssociatedModel association = Some target)
            then
              match nested models owner association w with
              | Some (Return _, models', w') => each one owner target rest models' w'
              | stopped => stopped
              end
            else each one owner target rest models w
        end
    end.

(** The associations of all the models of a registry, counted. *)
Definition association_count (models : gmap string Model) : nat :=
  map_fold (fun _ m n => (length (_associations m) + n)%nat) 0%nat models.

(** Every association of every model of the registry is stored under its
    own name. *)
Definition associations_by_name (models : gmap string Model) : Prop :=
  forall n m, models !! n = Some m -> stored_by_name (_associations m).

(** A call of [removeProperty] on [models] returned: it left a registry that
    still stores its associations by name and has no more of them. *)
Definition removal_returned (models : gmap string Model)
    (r : option (completion unit * gmap string Model * World)) : Prop :=
  exists c models' w',
    r = Some (c, models', w')
    /\ associations_by_name models'
    /\ (association_count models' <= association_count models)%nat.

(** The property is among the associations of the model it is removed from,
    if it is an association at all. *)
Definition held (models : gmap string Model) (self : string) (property : Property) : Prop :=
  forall m, models !! self = Some m -> isAssociation property = true ->
    name property ∈ Dict.keys (_associations m).


(** The where-map the handler of [PUT /api/testers/:id] builds before the
    access check: the query, the authenticator under the automatic property of
    the model, the id of the path under [id]. *)
Definition put_where (TesterModel : Model) (query : option (dict value)) (id : value)
    (authenticator : value) : dict value :=
  Dict.set (match automaticPropertyName TesterModel with
            | Some automatic =>
                if String.eqb automatic "" then default [] query
                else Dict.set (default [] query) automatic authenticator
            | None => default [] query
            end) "id" id.

(** The where-map of the handlers of [PUT /api/testers] and
    [DELETE /api/testers] before the access check: the query, and the
    authenticator under the automatic property of the model. *)
Definition owned (TesterModel : Model) (whereMap : dict value) (authenticator : value)
  : dict value :=
  match automaticPropertyName TesterModel with
  | Some automatic =>
      if String.eqb automatic "" then whereMap
      else Dict.set whereMap automatic authenticator
  | None => whereMap
  end.

(** The where-map of the handler of [DELETE /api/testers/:id]: the id of the
    path is written first, the authenticator after it. *)
Definition delete_where (TesterModel : Model) (query : option (dict value)) (id : value)
    (authenticator : value) : dict value :=
  owned TesterModel (Dict.set (default [] query) "id" id) authenticator.

(** * Sample data *)

Definition no_options : PropertyOptions :=
  {| transformMethod := None; hashMethod := None; defaultValue := None;
     defaultChangePropertyName := None; selectMethod := None;
     through := None; referenceName := None |}.

Definition plain (n : string) (o : PropertyOptions) : Property :=
  {| name := n; types := []; options := o; isAssociation := false;
     isManyToMany := false; getAssociatedModel := None;
     manyAssociation := false; oneAssociation := false |}.

(** A constructor that never throws and derives nothing from the types. *)
Definition plain_Property (n : string) (ts : list PropertyType) (owner : string)
  : completion Property :=
  Return {| name := n; types := ts; options := no_options; isAssociation := false;
            isManyToMany := false; getAssociatedModel := None;
            manyAssociation := false; oneAssociation := false |}.

(** A model as its definition leaves it: the properties not yet enumerated. *)
Definition sample_model (n : string) (f : dict Field) : Model :=
  {| _name := n; fields := f; _properties := None; _methods := [];
     _table := Some n; _associations := []; _activeMigration := None;
     automaticPropertyName := None |}.

(** A datastore that answers every call with no rows. *)
Definition no_rows (c : TableCall) : promise (list Row) := Fulfilled [].

(** [function Tag() { this.id = []; }] *)
Definition tag_model : Model := sample_model "Tag" [("id", FTypes [])].

(** [function User() { this.name = [this.String]; this.shout = function() {...}; }] *)
Definition user_model : Model :=
  sample_model "User" [("name", FTypes [Modifier "String"]); ("shout", FMethod "shout")].

(** A [slug] whose default is re-set by a change of [title], and a transformed
    [title]. *)
Definition slug_options : PropertyOptions :=
  {| transformMethod := None; hashMethod := None;
     defaultValue := Some (fun _ => VStr "generated");
     defaultChangePropertyName := Some "title"; selectMethod := None;
     through := None; referenceName := None |}.

Definition title_options : PropertyOptions :=
  {| transformMethod := Some (fun setMap => VStr "Title"); hashMethod := None;
     defaultValue := None; defaultChangePropertyName := None; selectMethod := None;
     through := None; referenceName := None |}.

Definition article_properties : dict Property :=
  [("slug", plain "slug" slug_options); ("title", plain "title" title_options)].

Definition article_setMap : gmap string value :=
  {["slug" := VStr "mine"; "title" := VStr "title"]}.

(** An article model whose properties are enumerated: [id] and [title] are
    plain, [fullName] selects on [$or]. *)
Definition fullName_options : PropertyOptions :=
  {| transformMethod := None; hashMethod := None; defaultValue := None;
     defaultChangePropertyName := None;
     selectMethod := Some (fun v => Some [("$or", v)]);
     through := None; referenceName := None |}.

Definition article_model : Model :=
  {| _name := "Article"; fields := [];
     _properties := Some [("id", plain "id" no_options);
                          ("title", plain "title" no_options);
                          ("fullName", plain "fullName" fullName_options)];
     _methods := []; _table := Some "articles"; _associations := [];
     _activeMigration := None; automaticPropertyName := None |}.

(** The article model with migration 7 running. *)
Definition migrating_model : Model := setActiveMigration article_model (Some 7%nat).



(** A world whose heap holds the option object [{skip: 5}] at location 0. *)
Definition options_world : World :=
  with_heap empty_world {[0%nat := {["skip" := VNum 5]}]}.

(** Three join rows in order of parent id, and the same rows out of order. *)
Definition sample_rows : list Row :=
  [ {| row_id := "a"; row_joined := Some "x" |};
    {| row_id := "a"; row_joined := Some "y" |};
    {| row_id := "b"; row_joined := Some "z" |} ].

Definition shuffled_rows : list Row :=
  [ {| row_id := "a"; row_joined := Some "x" |};
    {| row_id := "b"; row_joined := Some "z" |};
    {| row_id := "a"; row_joined := Some "y" |} ].

(** Two create-maps, the instances their saves resolve with, and a timeline
    in which the second save settles before the first. *)
Definition two_maps : list (gmap string value) :=
  [ {["title" := VStr "first"]}; {["title" := VStr "second"]} ].

Definition saved (id : string) : ModelInstance :=
  {| instance_model := "Article"; instance_id := id; instance_joined := [];
     instance_hook := None; instance_partial := true; instance_shallow := VBool false |}.

Definition second_first : list Tick :=
  map (fun c => Started (save_of article_model VUndefined c)) two_maps
  ++ [Settled 1 (Fulfilled (saved "2")); Settled 0 (Fulfilled (saved "1"))].

(** An account model: [password] is hashed on set. *)
Definition password_options : PropertyOptions :=
  {| transformMethod := None; hashMethod := Some (fun setMap => VStr "hashed");
     defaultValue := None; defaultChangePropertyName := None; selectMethod := None;
     through := None; referenceName := None |}.

Definition account_model : Model :=
  {| _name := "Account"; fields := [];
     _properties := Some [("id", plain "id" no_options);
                          ("email", plain "email" no_options);
                          ("password", plain "password" password_options)];
     _methods := []; _table := Some "accounts"; _associations := [];
     _activeMigration := None; automaticPropertyName := None |}.

(** A blog: every article has one author, a user has many articles. *)
Definition author : Property :=
  {| name := "author"; types := []; options := no_options; isAssociation := true;
     isManyToMany := false; getAssociatedModel := Some "User";
     manyAssociation := false; oneAssociation := true |}.

Definition articles : Property :=
  {| name := "articles"; types := []; options := no_options; isAssociation := true;
     isManyToMany := false; getAssociatedModel := Some "Article";
     manyAssociation := true; oneAssociation := false |}.

Definition blog_article : Model :=
  {| _name := "Article"; fields := [];
     _properties := Some [("id", plain "id" no_options);
                          ("title", plain "title" no_options);
                          ("author", author)];
     _methods := []; _table := Some "articles"; _associations := [("author", author)];
     _activeMigration := None; automaticPropertyName := None |}.

Definition blog_user : Model :=
  {| _name := "User"; fields := [];
     _properties := Some [("id", plain "id" no_options);
                          ("name", plain "name" no_options);
                          ("articles", articles)];
     _methods := []; _table := Some "users"; _associations := [("articles", articles)];
     _activeMigration := None; automaticPropertyName := None |}.

Definition blog : gmap string Model :=
  {["Article" := blog_article; "User" := blog_user]}.

(** A tester model whose [owner] is set automatically; the API may not set
    [id]. *)
Definition tester_model : Model :=
  {| _name := "Tester"; fields := [];
     _properties := Some [("id", plain "id" no_options);
                          ("name", plain "name" no_options);
                          ("owner", plain "owner" no_options)];
     _methods := []; _table := Some "testers"; _associations := [];
     _activeMigration := None; automaticPropertyName := Some "owner" |}.

Definition id_is_fixed (p : Property) : value :=
  if String.eqb (name p) "id" then VBool false else VUndefined.

Definition unrestricted (p : Property) : value := VUndefined.

(** A merge that keeps the set-map. *)
Definition set_only (whereMap : WhereArg) (setMap : option (gmap string value))
  : gmap string value := default ∅ setMap.


(** An authenticator: members are found by [email]; the datastore holds one
    member, every authorization header that is a string holds the same two
    credentials, and [secret] is the password whose hash validates. *)
Definition member_model : Model :=
  {| _name := "Member"; fields := [];
     _properties := Some [("id", plain "id" no_options);
                          ("email", plain "email" no_options);
                          ("password", plain "password" password_options);
                          ("accessToken", plain "accessToken" no_options)];
     _methods := []; _table := Some "members"; _associations := [];
     _activeMigration := None; automaticPropertyName := None |}.

Definition one_member (c : TableCall) : promise (list Row) :=
  Fulfilled [{| row_id := "1"; row_joined := None |}].

Definition basic_credentials (header : value) : option (value * value) :=
  match header with
  | VStr _ => Some (VStr "ann@example.com", VStr "token")
  | _ => None
  end.

Definition by_email (m : Model) : option string := Some "email".

Definition with_password (m : Model) : bool := true.

Definition secret_validates (instance : ModelInstance) (propertyName : string)
    (password : value) : promise value :=
  Fulfilled (match password with
             | VStr s => VBool (String.eqb s "secret")
             | _ => VBool false
             end).

Definition signed_request : Request :=
  {| authorization := VStr "Basic YW5uQGV4YW1wbGUuY29tOnRva2Vu"; session_at := VUndefined |}.
(** [H] puts an event in a list that cannot hold it. *)
Ltac absent H :=
  first [ now apply not_elem_of_nil in H
        | apply list_elem_of_singleton in H; discriminate H ].

(** * Properties of dictionaries *)

Lemma dict_get_set_eq {V} (d : dict V) k v : Dict.get (Dict.set d k v) k = Some v.
Proof.
  induction d as [|[k' v'] d IH]; simpl.
  - now rewrite String.eqb_refl.
  - destruct (String.eqb_spec k' k) as [->|Hne]; simpl.
    + now rewrite String.eqb_refl.
    + destruct (String.eqb_spec k' k); [contradiction | exact IH].
Qed.

Lemma dict_get_set_ne {V} (d : dict V) k k' v :
  k <> k' -> Dict.get (Dict.set d k v) k' = Dict.get d k'.
Proof.
  intros Hne. induction d as [|[k0 v0] d IH]; simpl.
  - destruct (String.eqb_spec k k'); [contradiction | reflexivity].
  - destruct (String.eqb_spec k0 k) as [->|Hk]; simpl.
    + destruct (String.eqb_spec k k'); [contradiction | reflexivity].
    + now rewrite IH.
Qed.

Lemma dict_keys_set {V} (d : dict V) k v :
  Dict.keys (Dict.set d k v) =
  if bool_decide (k ∈ Dict.keys d) then Dict.keys d else Dict.keys d ++ [k].
Proof.
  induction d as [|[k' v'] d IH].
  - rewrite bool_decide_eq_false_2; [reflexivity | apply not_elem_of_nil].
  - cbn [Dict.set]. destruct (String.eqb_spec k' k) as [->|Hne].
    + rewrite bool_decide_eq_true_2; [reflexivity | apply elem_of_cons; now left].
    + change (Dict.keys ((k', v') :: Dict.set d k v)) with (k' :: Dict.keys (Dict.set d k v)).
      change (Dict.keys ((k', v') :: d)) with (k' :: Dict.keys d).
      rewrite IH. case_bool_decide as Hin.
      * rewrite bool_decide_eq_true_2; [reflexivity | apply elem_of_cons; now right].
      * rewrite bool_decide_eq_false_2; [reflexivity|].
        rewrite elem_of_cons. intros [?|?]; congruence.
Qed.

Lemma dict_in_keys_set {V} (d : dict V) k v k' :
  k' ∈ Dict.keys (Dict.set d k v) <-> k' = k \/ k' ∈ Dict.keys d.
Proof.
  rewrite dict_keys_set. case_bool_decide as Hin.
  - split; [tauto | intros [->|?]; assumption].
  - rewrite elem_of_app, list_elem_of_singleton. tauto.
Qed.

Lemma dict_nodup_set {V} (d : dict V) k v :
  NoDup (Dict.keys d) -> NoDup (Dict.keys (Dict.set d k v)).
Proof.
  intros Hd. rewrite dict_keys_set. case_bool_decide as Hin; [assumption|].
  apply NoDup_app. split_and!; [assumption | | apply NoDup_singleton].
  intros x Hx Hx'. apply list_elem_of_singleton in Hx'. subst. contradiction.
Qed.

Lemma dict_get_in {V} (d : dict V) k v : Dict.get d k = Some v -> (k, v) ∈ d.
Proof.
  induction d as [|[k' v'] d IH]; simpl; [discriminate|].
  destruct (String.eqb_spec k' k) as [->|Hne].
  - intros [= ->]. apply elem_of_cons. now left.
  - intros H. apply elem_of_cons. right. now apply IH.
Qed.

Lemma dict_in_keys {V} (d : dict V) k v : (k, v) ∈ d -> k ∈ Dict.keys d.
Proof.
  intros H. unfold Dict.keys. apply list_elem_of_fmap. now exists (k, v).
Qed.

Lemma dict_in_get {V} (d : dict V) k v :
  NoDup (Dict.keys d) -> (k, v) ∈ d -> Dict.get d k = Some v.
Proof.
  induction d as [|[k' v'] d IH]; simpl.
  - intros _ H. now apply not_elem_of_nil in H.
  - intros Hnd Hin. apply NoDup_cons in Hnd as [Hnotin Hnd'].
    apply elem_of_cons in Hin as [Heq|Hin].
    + injection Heq as -> ->. now rewrite String.eqb_refl.
    + destruct (String.eqb_spec k' k) as [->|Hne].
      * exfalso. apply Hnotin. now apply dict_in_keys with v.
      * now apply IH.
Qed.

Lemma dict_occurrences_notin {V} (d : dict V) k :
  k ∉ Dict.keys d -> Dict.occurrences d k = 0%nat.
Proof.
  unfold Dict.occurrences. induction d as [|[k' v'] d IH]; simpl; [reflexivity|].
  rewrite not_elem_of_cons. intros [Hne Hnotin].
  destruct (String.eqb_spec k' k) as [->|_]; [congruence|]. now apply IH.
Qed.

Lemma dict_occurrences_in {V} (d : dict V) k :
  NoDup (Dict.keys d) -> k ∈ Dict.keys d -> Dict.occurrences d k = 1%nat.
Proof.
  unfold Dict.occurrences. induction d as [|[k' v'] d IH]; simpl.
  - intros _ H. now apply not_elem_of_nil in H.
  - intros Hnd Hin. apply NoDup_cons in Hnd as [Hnotin Hnd'].
    destruct (String.eqb_spec k' k) as [->|Hne]; simpl.
    + f_equal. now apply (dict_occurrences_notin d k).
    + apply elem_of_cons in Hin as [?|Hin]; [congruence|]. now apply IH.
Qed.


Lemma dict_set_fresh {V} (d : dict V) k v :
  k ∉ Dict.keys d -> Dict.set d k v = d ++ [(k, v)].
Proof.
  induction d as [|[k' v'] d IH]; intros Hk; [reflexivity|].
  cbn in Hk. apply not_elem_of_cons in Hk as [Hne Hk].
  cbn [Dict.set]. destruct (String.eqb_spec k' k) as [?|_]; [congruence|].
  now rewrite IH.
Qed.



Lemma dict_remove_length {V} (d : dict V) k :
  k ∈ Dict.keys d -> S (length (Dict.remove d k)) = length d.
Proof.
  induction d as [|[k' v'] d IH]; cbn.
  - intros H. now apply not_elem_of_nil in H.
  - intros H. destruct (String.eqb_spec k' k) as [->|Hne]; [reflexivity|].
    apply elem_of_cons in H as [?|H]; [congruence|]. cbn. now rewrite IH.
Qed.

Lemma dict_remove_length_le {V} (d : dict V) k : (length (Dict.remove d k) <= length d)%nat.
Proof.
  induction d as [|[k' v'] d IH]; cbn; [lia|].
  destruct (String.eqb k' k); cbn; lia.
Qed.

Lemma dict_remove_Forall {V} (P : string * V -> Prop) (d : dict V) k :
  Forall P d -> Forall P (Dict.remove d k).
Proof.
  induction 1 as [|[k' v'] d Hk Hd IH]; cbn; [constructor|].
  destruct (String.eqb k' k); [assumption | now constructor].
Qed.

(** * The properties of a model: [getAllProperties] *)

Section AllProperties.

Variable new_Property : string -> list PropertyType -> string -> completion Property.

(** The constructor names the property as it is asked to. *)
Hypothesis new_Property_name :
  forall n ts owner p, new_Property n ts owner = Return p -> name p = n.

Lemma addProperty_returns m property isNew w p m' w' :
  addProperty m property isNew w = (Return p, m', w') ->
  exists props,
    _properties m = Some props /\
    _properties m' = Some (Dict.set props (name property) property) /\
    fields m' = fields m /\ _name m' = _name m /\ calls w' = calls w.
Proof.
  unfold addProperty.
  destruct (_ || _ || _); [discriminate|].
  destruct (_properties m) as [props|] eqn:Hprops; [|discriminate].
  intros [= _ <- <-]. exists props. split; [reflexivity|].
  split; [destruct (isAssociation property); reflexivity|].
  split; [destruct (isAssociation property); reflexivity|].
  split; [destruct (isAssociation property); reflexivity|].
  destruct isNew, (_activeMigration m); reflexivity.
Qed.

Lemma declares_skip n f todo k :
  (forall t ts, f <> FTypes (t :: ts)) ->
  declares ((n, f) :: todo) k <-> declares todo k.
Proof.
  intros Hf. unfold declares. split; intros (t & ts & Hin); exists t, ts.
  - apply elem_of_cons in Hin as [[= _ <-]|Hin]; [now destruct (Hf t ts) | assumption].
  - apply elem_of_cons. now right.
Qed.

Lemma declares_types n t ts todo k :
  declares ((n, FTypes (t :: ts)) :: todo) k <-> k = n \/ declares todo k.
Proof.
  unfold declares. split.
  - intros (t' & ts' & Hin). apply elem_of_cons in Hin as [[= -> _ _]|Hin]; [now left|].
    right. now exists t', ts'.
  - intros [->|(t' & ts' & Hin)].
    + exists t, ts. apply elem_of_cons. now left.
    + exists t', ts'. apply elem_of_cons. now right.
Qed.

Lemma register_fields_returns todo : forall m w m' w' props,
  register_fields new_Property todo m w = (Return tt, m', w') ->
  _properties m = Some props ->
  exists props',
    _properties m' = Some props' /\
    fields m' = fields m /\ _name m' = _name m /\
    (NoDup (Dict.keys props) -> NoDup (Dict.keys props')) /\
    (forall k, k ∈ Dict.keys props' <-> k ∈ Dict.keys props \/ declares todo k).
Proof.
  induction todo as [|[n f] todo IH]; intros m w m' w' props Hrun Hprops.
  - injection Hrun as <- <-. exists props. split_and!; try done.
    intros k. split; [tauto|]. intros [?|(t & ts & Hin)]; [assumption|].
    now apply not_elem_of_nil in Hin.
  - assert (Hskip : forall m0, register_fields new_Property todo m0 w = (Return tt, m', w') ->
              _properties m0 = Some props -> fields m0 = fields m -> _name m0 = _name m ->
              (forall t ts, f <> FTypes (t :: ts)) ->
              exists props',
                _properties m' = Some props' /\
                fields m' = fields m /\ _name m' = _name m /\
                (NoDup (Dict.keys props) -> NoDup (Dict.keys props')) /\
                (forall k, k ∈ Dict.keys props' <->
                           k ∈ Dict.keys props \/ declares ((n, f) :: todo) k)).
    { intros m0 Hrun0 Hprops0 Hf0 Hn0 Hf.
      destruct (IH _ _ _ _ _ Hrun0 Hprops0) as (props' & H1 & H2 & H3 & H4 & H5).
      exists props'. split_and!; try congruence; try assumption.
      intros k. now rewrite H5, declares_skip. }
    destruct f as [ts|method|v]; cbn [register_fields] in Hrun.
    + unfold _addProperty in Hrun. destruct ts as [|t ts].
      * now apply (Hskip m).
      * destruct (new_Property n (t :: ts) (_name m)) as [p|e] eqn:Hnew; [|discriminate].
        destruct (addProperty m p true w) as [[[p'|e] m1] w1] eqn:Hadd; [|discriminate].
        apply addProperty_returns in Hadd as (props0 & Hp0 & Hp1 & Hf & Hn & _).
        rewrite Hprops in Hp0. injection Hp0 as <-.
        apply new_Property_name in Hnew. rewrite Hnew in Hp1.
        destruct (IH _ _ _ _ _ Hrun Hp1) as (props' & H1 & H2 & H3 & H4 & H5).
        exists props'. split_and!; try congruence.
        -- intros Hnd. apply H4. now apply dict_nodup_set.
        -- intros k. rewrite H5, dict_in_keys_set, declares_types. tauto.
    + now apply (Hskip (_addMethod m n method)).
    + now apply (Hskip m).
Qed.

Lemma dict_set_Forall {V} (P : string * V -> Prop) (d : dict V) k v :
  Forall P d -> P (k, v) -> Forall P (Dict.set d k v).
Proof.
  intros Hd Hkv. induction Hd as [|[k' v'] d Hk' Hd IH]; cbn.
  - now apply Forall_singleton.
  - destruct (String.eqb_spec k' k) as [->|Hne]; now apply Forall_cons.
Qed.

Lemma register_fields_succeeds todo : forall m w props,
  (forall n ts owner, exists p, new_Property n ts owner = Return p) ->
  well_named todo ->
  _properties m = Some props ->
  exists m', register_fields new_Property todo m w = (Return tt, m', w).
Proof.
  induction todo as [|[n f] todo IH]; intros m w props Htotal Hnamed Hprops.
  - now exists m.
  - apply Forall_cons in Hnamed as [Hn Hnamed]. cbn [fst snd] in Hn.
    destruct f as [[|t ts]|method|v]; cbn [register_fields _addProperty].
    + now apply (IH m w props).
    + destruct (Htotal n (t :: ts) (_name m)) as [p Hp]. rewrite Hp.
      unfold addProperty. rewrite (new_Property_name _ _ _ _ Hp), (Hn t ts eq_refl), Hprops.
      destruct (isAssociation p); now eapply IH.
    + now apply (IH (_addMethod m n method) w props).
    + now apply (IH m w props).
Qed.

(** The enumeration returns whenever the constructor does and the fields are
    well named. *)
Lemma getAllProperties_returns m w :
  (forall n ts owner, exists p, new_Property n ts owner = Return p) ->
  well_named (fields m) ->
  exists props m', getAllProperties new_Property m w = (Return props, m', w).
Proof.
  intros Htotal Hnamed. unfold getAllProperties.
  destruct (_properties m) as [props|] eqn:Hprops; [now exists props, m|].
  cbv zeta. cbn [with_properties with_fields fields _name].
  destruct (field_truthy (Dict.get (fields m) "id"));
    cbn [negb with_properties with_fields fields _name].
  - destruct (register_fields_succeeds (fields m) (with_properties m (Some [])) w []
                Htotal Hnamed eq_refl) as [m' Hrun].
    pose proof (register_fields_returns _ _ _ _ _ _ Hrun eq_refl) as (props' & Hp & _).
    rewrite Hrun, Hp. now exists props', m'.
  - destruct (Htotal "id" id_types (_name m)) as [p Hp]. rewrite Hp.
    match goal with |- context [register_fields _ ?t ?m0 w] =>
      destruct (register_fields_succeeds t m0 w [("id", p)] Htotal) as [m' Hrun];
        [apply dict_set_Forall; [exact Hnamed | intros t0 ts0 _; reflexivity]
        | reflexivity |];
      pose proof (register_fields_returns _ _ _ _ _ _ Hrun eq_refl) as (props' & Hp' & _)
    end.
    rewrite Hrun, Hp'. now exists props', m'.
Qed.

(** C4, as amended.  The first enumeration returns a dictionary whenever the
    constructor of properties does not throw and the fields are well named.
    For a model that declares no [id] (or a falsy one) it creates the implicit
    [id] and the dictionary holds it exactly once; a model that declares [id]
    with a non-empty list of types has that one [id]; a model that sets [id]
    to an empty list, a method or another truthy value has no [id] property
    at all; later enumerations return the same dictionary unchanged. *)
Theorem getAllProperties_id m w :
  _properties m = None ->
  ((forall n ts owner, exists p, new_Property n ts owner = Return p) ->
   well_named (fields m) ->
   exists props m', getAllProperties new_Property m w = (Return props, m', w))
  /\ (forall props m' w',
        getAllProperties new_Property m w = (Return props, m', w') ->
        (field_truthy (Dict.get (fields m) "id") = false ->
           Dict.occurrences props "id" = 1%nat /\
           Dict.get (fields m') "id" = Some (FTypes id_types))
        /\ (forall t ts, Dict.get (fields m) "id" = Some (FTypes (t :: ts)) ->
              Dict.occurrences props "id" = 1%nat)
        /\ (NoDup (Dict.keys (fields m)) ->
            field_truthy (Dict.get (fields m) "id") = true ->
            (forall t ts, Dict.get (fields m) "id" <> Some (FTypes (t :: ts))) ->
            Dict.occurrences props "id" = 0%nat)
        /\ getAllProperties new_Property m' w' = (Return props, m', w')).
Proof.
  intros Hnone. split; [apply getAllProperties_returns|].
  intros props m' w' Hrun. unfold getAllProperties in Hrun. rewrite Hnone in Hrun.
  cbv zeta in Hrun. cbn [with_properties with_fields fields _name] in Hrun.
  assert (Hagain : _properties m' = Some props ->
                   getAllProperties new_Property m' w' = (Return props, m', w')).
  { intros H. unfold getAllProperties. now rewrite H. }
  destruct (field_truthy (Dict.get (fields m) "id")) eqn:Hid; cbn [negb] in Hrun.
  - destruct (register_fields _ _ _ _) as [[[[]|e] m3] w3] eqn:Hreg; [|discriminate].
    apply register_fields_returns with (props := []) in Hreg as
        (props' & Hp & Hf & Hn & Hnd & Hkeys); [|reflexivity].
    rewrite Hp in Hrun. injection Hrun as <- <- <-.
    cbn [with_properties fields] in *.
    split_and!; [intros H; discriminate H | | | now apply Hagain].
    + intros t ts Hget. apply dict_occurrences_in; [apply Hnd; constructor|].
      apply Hkeys. right. exists t, ts. now apply dict_get_in.
    + intros Hfields _ Hnot. apply dict_occurrences_notin. intros Hin.
      apply Hkeys in Hin as [Hin|(t & ts & Hin)]; [now apply not_elem_of_nil in Hin|].
      apply (Hnot t ts). now apply dict_in_get.
  - destruct (new_Property "id" id_types (_name m)) as [p|e] eqn:Hnew; [|discriminate Hrun].
    destruct (register_fields _ _ _ _) as [[[[]|e] m3] w3] eqn:Hreg; [|discriminate].
    apply register_fields_returns with (props := [("id", p)]) in Hreg as
        (props' & Hp & Hf & Hn & Hnd & Hkeys); [|reflexivity].
    rewrite Hp in Hrun. injection Hrun as <- <- <-.
    cbn [with_properties with_fields fields] in *.
    assert (Hone : Dict.occurrences props' "id" = 1%nat).
    { apply dict_occurrences_in.
      - apply Hnd. apply NoDup_singleton.
      - apply Hkeys. left. apply list_elem_of_singleton. reflexivity. }
    split_and!; [| | intros _ H; discriminate H | now apply Hagain].
    + intros _. split; [exact Hone|]. rewrite Hf. apply dict_get_set_eq.
    + intros t ts Hget. now rewrite Hget in Hid.
Qed.

End AllProperties.

Lemma plain_Property_name n ts owner p : plain_Property n ts owner = Return p -> name p = n.
Proof. intros [= <-]. reflexivity. Qed.

(** The theorem at the model [User {name: [String], shout: function}]. *)
Lemma getAllProperties_id_witness :
  exists props m' w',
    getAllProperties plain_Property user_model empty_world = (Return props, m', w') /\
    Dict.keys props = ["id"; "name"] /\
    Dict.occurrences props "id" = 1%nat /\
    Dict.get (fields m') "id" = Some (FTypes id_types).
Proof.
  eexists _, _, _. split; [reflexivity|]. split; [reflexivity|].
  refine (proj1 (proj2 (getAllProperties_id plain_Property plain_Property_name
                          user_model empty_world eq_refl) _ _ _ eq_refl) _).
  reflexivity.
Defined.

(** C4 as stated fails on a model that sets [id] to an empty list: the
    implicit [id] is skipped because the field is truthy, and the empty list
    registers nothing. *)
Lemma getAllProperties_id_counterexample :
  ~ (forall new_Property m w props m' w',
        (forall n ts owner p, new_Property n ts owner = Return p -> name p = n) ->
        _properties m = None ->
        getAllProperties new_Property m w = (Return props, m', w') ->
        Dict.occurrences props "id" = 1%nat).
Proof.
  intros claim.
  specialize (claim plain_Property tag_model empty_world [] _ _
                plain_Property_name eq_refl eq_refl).
  discriminate claim.
Qed.

(** * The set-map pipeline: [_transformSetMap] *)

Lemma run_chain_events chain : forall setMap,
  fst (run_chain chain setMap) = map event chain.
Proof.
  unfold run_chain.
  assert (H : forall acc, fst (fold_left
                (fun acc cb => (fst acc ++ [event cb], run cb (snd acc))) chain acc)
              = fst acc ++ map event chain).
  { induction chain as [|cb chain IH]; intros acc; simpl.
    - now rewrite app_nil_r.
    - rewrite IH. simpl. now rewrite <- app_assoc. }
  intros setMap. now rewrite H.
Qed.

Lemma register_callbacks_events setMap isNew chain p :
  map event (register_callbacks setMap isNew chain p) =
  map event chain ++ property_events setMap isNew p.
Proof.
  unfold register_callbacks, property_events, isTransformable.
  destruct (transformMethod (options p)) as [f|];
    destruct (hashMethod (options p)) as [h|];
    destruct (defaultValue (options p)) as [d|];
    destruct (truthy (lookup_value setMap (name p)));
    destruct (default_condition setMap isNew p);
    cbn; rewrite ?map_app, ?app_nil_r, <- ?app_assoc; reflexivity.
Qed.

Lemma registered_events setMap isNew ps : forall chain,
  map event (fold_left (register_callbacks setMap isNew) ps chain) =
  map event chain ++ flat_map (property_events setMap isNew) ps.
Proof.
  induction ps as [|p ps IH]; intros chain; simpl.
  - now rewrite app_nil_r.
  - now rewrite IH, register_callbacks_events, <- app_assoc.
Qed.

(** The events of a call: the properties in key order, and for each its
    transform, then its hash, then its default. *)
Lemma _transformSetMap_events properties setMap isNew :
  fst (_transformSetMap properties setMap isNew) =
  flat_map (property_events setMap isNew) (map snd properties).
Proof.
  unfold _transformSetMap. now rewrite run_chain_events, registered_events.
Qed.

Lemma property_events_name setMap isNew p e :
  e ∈ property_events setMap isNew p -> event_name e = name p.
Proof.
  unfold property_events. intros H.
  repeat (apply elem_of_app in H as [H|H]);
    match type of H with
    | _ ∈ (if ?b then _ else _) => destruct b
    end;
    first [ now apply not_elem_of_nil in H
          | apply list_elem_of_singleton in H; now subst ].
Qed.

Lemma flat_map_events_name setMap isNew ps e :
  e ∈ flat_map (property_events setMap isNew) ps ->
  exists p, p ∈ ps /\ event_name e = name p.
Proof.
  induction ps as [|p ps IH]; simpl; intros H.
  - now apply not_elem_of_nil in H.
  - apply elem_of_app in H as [H|H].
    + exists p. split; [apply elem_of_cons; now left|].
      now apply property_events_name in H.
    + destruct (IH H) as (q & Hq & Hn). exists q. split; [|assumption].
      apply elem_of_cons. now right.
Qed.

Lemma property_events_ranked setMap isNew p i j a b :
  property_events setMap isNew p !! i = Some a ->
  property_events setMap isNew p !! j = Some b ->
  (rank a < rank b)%nat -> (i < j)%nat.
Proof.
  unfold property_events.
  destruct (isTransformable p), (_ && _), (_ && _); cbn;
    destruct i as [|[|[|i]]], j as [|[|[|j]]]; cbn;
    intros [= <-] [= <-]; cbn; lia.
Qed.

(** The events named after [p] all lie in the block of [p] when no other
    property has its name. *)
Lemma events_split setMap isNew (ps : list Property) p :
  NoDup (map name ps) -> p ∈ ps ->
  exists before after,
    flat_map (property_events setMap isNew) ps =
      before ++ property_events setMap isNew p ++ after /\
    (forall e, e ∈ before -> event_name e <> name p) /\
    (forall e, e ∈ after -> event_name e <> name p).
Proof.
  intros Hnd Hin. apply list_elem_of_split in Hin as (l1 & l2 & ->).
  rewrite map_app in Hnd. cbn in Hnd.
  apply NoDup_app in Hnd as (_ & Hdisj & Hnd2).
  apply NoDup_cons in Hnd2 as [Hnotin _].
  exists (flat_map (property_events setMap isNew) l1),
         (flat_map (property_events setMap isNew) l2).
  split; [now rewrite flat_map_app|]. split; intros e He Hname.
  - apply flat_map_events_name in He as (q & Hq & Hn).
    apply (Hdisj (name q)).
    + apply list_elem_of_fmap. now exists q.
    + apply elem_of_cons. left. congruence.
  - apply flat_map_events_name in He as (q & Hq & Hn).
    apply Hnotin. apply list_elem_of_fmap. exists q. split; [congruence | assumption].
Qed.

Lemma block_lookup {A} (before block after : list A) (P : A -> Prop) i a :
  (forall e, e ∈ before -> ~ P e) -> (forall e, e ∈ after -> ~ P e) ->
  (before ++ block ++ after) !! i = Some a -> P a ->
  (length before <= i)%nat /\ block !! (i - length before)%nat = Some a.
Proof.
  intros Hb Ha Hi HP.
  apply lookup_app_Some in Hi as [Hi|[Hle Hi]].
  - exfalso. apply (Hb a); [|assumption]. now apply list_elem_of_lookup_2 in Hi.
  - split; [assumption|].
    apply lookup_app_Some in Hi as [Hi|[_ Hi]]; [assumption|].
    exfalso. apply (Ha a); [|assumption]. now apply list_elem_of_lookup_2 in Hi.
Qed.

(** C1, as amended.  The callbacks are registered property by property, in
    key order, and run in that order ([property_events] lists what one
    property registers): for one property the transform comes before the
    hash and the hash before the default fill.  The default of a
    property is applied exactly when the property has one and, in the set-map
    as passed in, the field is falsy and the instance is new, or the instance
    is not new and the field is present but falsy, or the change companion is
    truthy; on creation this is: the field is falsy or the companion is
    truthy. *)
Theorem _transformSetMap_pipeline (properties : dict Property) setMap isNew key p :
  NoDup (map name (map snd properties)) ->
  (key, p) ∈ properties ->
  let events := fst (_transformSetMap properties setMap isNew) in
  events = flat_map (property_events setMap isNew) (map snd properties)
  /\ (Defaulted (name p) ∈ events <->
     is_Some (defaultValue (options p)) /\ default_condition setMap isNew p = true)
  /\ (isNew = true ->
      default_condition setMap isNew p =
        negb (truthy (lookup_value setMap (name p)))
        || match defaultChangePropertyName (options p) with
           | Some change => negb (String.eqb change "") && truthy (lookup_value setMap change)
           | None => false
           end)
  /\ (forall i j a b,
        events !! i = Some a -> events !! j = Some b ->
        event_name a = name p -> event_name b = name p ->
        (rank a < rank b)%nat -> (i < j)%nat).
Proof.
  intros Hnd Hin events. subst events. rewrite _transformSetMap_events.
  split; [reflexivity|].
  assert (Hp : p ∈ map snd properties).
  { apply list_elem_of_fmap. now exists (key, p). }
  destruct (events_split setMap isNew _ p Hnd Hp) as (before & after & -> & Hb & Ha).
  split_and!.
  - split.
    + intros H. apply elem_of_app in H as [H|H]; [now apply Hb in H|].
      apply elem_of_app in H as [H|H]; [|now apply Ha in H].
      unfold property_events in H.
      apply elem_of_app in H as [H|H]; [destruct (isTransformable p); absent H|].
      apply elem_of_app in H as [H|H]; [destruct (_ && _); absent H|].
      destruct (bool_decide _) eqn:Hd; [|absent H].
      destruct (default_condition setMap isNew p); [|absent H].
      now apply bool_decide_eq_true_1 in Hd.
    + intros [Hd Hc]. apply elem_of_app. right. apply elem_of_app. left.
      unfold property_events. apply elem_of_app. right. apply elem_of_app. right.
      rewrite Hc, bool_decide_eq_true_2 by assumption.
      apply list_elem_of_singleton. reflexivity.
  - intros ->. unfold default_condition. cbn.
    now rewrite andb_true_r, orb_false_r.
  - intros i j a b Hi Hj Hna Hnb Hrank.
    apply (block_lookup _ _ _ (fun e => event_name e = name p)) in Hi as [Hle Hi];
      [| intros e He; now apply Hb | intros e He; now apply Ha | assumption].
    apply (block_lookup _ _ _ (fun e => event_name e = name p)) in Hj as [Hle' Hj];
      [| intros e He; now apply Hb | intros e He; now apply Ha | assumption].
    pose proof (property_events_ranked _ _ _ _ _ _ _ Hi Hj Hrank). lia.
Qed.

Example article_events :
  fst (_transformSetMap article_properties article_setMap true) =
  [Defaulted "slug"; Transformed "title"].
Proof. vm_compute. reflexivity. Qed.

Example article_result :
  snd (_transformSetMap article_properties article_setMap true) !! "slug" =
  Some (VStr "generated").
Proof. vm_compute. reflexivity. Qed.

(** The theorem at the article properties. *)
Lemma _transformSetMap_pipeline_witness :
  Defaulted "slug" ∈ fst (_transformSetMap article_properties article_setMap true).
Proof.
  refine (proj2 (proj1 (proj2 (_transformSetMap_pipeline article_properties article_setMap
                                 true "slug" (plain "slug" slug_options) _ _))) _).
  - apply (bool_decide_unpack _). vm_compute. exact I.
  - apply elem_of_cons. now left.
  - split; [now eexists | reflexivity].
Defined.

(** C1 as stated fails twice on creating an article with both fields set:
    the default of [slug] runs before the transform of [title], and it runs
    although [slug] is set in the set-map. *)
Lemma _transformSetMap_pipeline_counterexample :
  ~ (forall (properties : dict Property) setMap isNew,
        NoDup (map name (map snd properties)) ->
        let events := fst (_transformSetMap properties setMap isNew) in
        forall i j a b,
          events !! i = Some a -> events !! j = Some b ->
          (rank a < rank b)%nat -> (i < j)%nat)
  /\ ~ (forall (properties : dict Property) setMap key p,
        NoDup (map name (map snd properties)) ->
        (key, p) ∈ properties ->
        Defaulted (name p) ∈ fst (_transformSetMap properties setMap true) ->
        truthy (lookup_value setMap (name p)) = false).
Proof.
  assert (Hnd : NoDup (map name (map snd article_properties))).
  { apply (bool_decide_unpack _). vm_compute. exact I. }
  split; intros claim.
  - specialize (claim article_properties article_setMap true Hnd
                  1%nat 0%nat (Transformed "title") (Defaulted "slug")).
    rewrite article_events in claim. cbn in claim.
    specialize (claim eq_refl eq_refl). lia.
  - specialize (claim article_properties article_setMap "slug" (plain "slug" slug_options) Hnd).
    rewrite article_events in claim. cbn [name plain] in claim.
    assert (H : truthy (lookup_value article_setMap "slug") = false).
    { apply claim; apply elem_of_cons; now left. }
    vm_compute in H. discriminate H.
Qed.

(** * Key paths and where-maps: [getProperty], [_transformWhereMap] *)

Lemma split_on_nonempty c s : split_on c s <> [].
Proof.
  destruct s as [|a s]; cbn; [discriminate|].
  destruct (Ascii.eqb a c); [discriminate|]. destruct (split_on c s); discriminate.
Qed.

(** A segment of a split holds no separator: splitting it again returns it. *)
Lemma split_on_segment c s : forall segment,
  segment ∈ split_on c s -> split_on c segment = [segment].
Proof.
  induction s as [|a s IH]; cbn; intros segment Hin.
  - apply list_elem_of_singleton in Hin. now subst.
  - destruct (Ascii.eqb a c) eqn:Hac.
    + apply elem_of_cons in Hin as [->|Hin]; [reflexivity | now apply IH].
    + destruct (split_on c s) as [|first rest] eqn:Hsplit.
      * now destruct (split_on_nonempty c s).
      * apply elem_of_cons in Hin as [->|Hin].
        -- cbn. rewrite Hac, (IH first); [reflexivity | apply elem_of_cons; now left].
        -- apply IH. apply elem_of_cons. now right.
Qed.

(** One nested call is all [getProperty] ever makes: the second segment of a
    key path has no dot, so the nested call does not split again. *)
Lemma getProperty_depth depth models m keyPath :
  exists r, getProperty (S depth) models m keyPath = Some r.
Proof.
  cbn [getProperty]. destruct (String.eqb keyPath ""); [now eexists|].
  destruct (_properties m) as [props|]; [|now eexists].
  destruct (Dict.get props keyPath); [now eexists|].
  destruct (take 2 (split_on "." keyPath)) as [|first [|second [|third rest]]] eqn:Hsplit;
    try now eexists.
  destruct (Dict.get props first) as [firstProperty|]; [|now eexists].
  destruct (_ ≫= _) as [associated|]; [|now eexists].
  assert (Hsecond : split_on "." second = [second]).
  { apply (split_on_segment "." keyPath).
    apply (subseteq_take 2). rewrite Hsplit. apply elem_of_cons. right.
    apply elem_of_cons. now left. }
  destruct depth; cbn [getProperty]; destruct (String.eqb second ""); try now eexists.
  all: destruct (_properties associated) as [props'|]; [|now eexists].
  all: destruct (Dict.get props' second); [now eexists|].
  all: rewrite Hsecond; cbn; now eexists.
Qed.

(** C6, at the failing input: a dotted key whose first segment names no
    property.  [getProperty] reads [isManyToMany] of [undefined]: the call
    fails with the engine's [TypeError], not with the "Cannot find property"
    error, in [_transformWhereMap] and so in [find] and [remove]; no datastore
    call is made. *)
Theorem _transformWhereMap_dotted_key :
  let whereMap := [("author.name", VStr "Martijn")] in
  getProperty 1 ∅ article_model "author.name" = Some (Throw (undefined_member "isManyToMany"))
  /\ _transformWhereMap ∅ article_model whereMap = Throw (undefined_member "isManyToMany")
  /\ _transformWhereMap ∅ article_model [("author", VStr "Martijn")] =
       Throw (property_not_found "author" "Article")
  /\ find no_rows ∅ article_model (Some whereMap) (Some 0%nat) empty_world =
       (Throw (undefined_member "isManyToMany"), empty_world)
  /\ remove no_rows ∅ article_model (Some whereMap) None empty_world =
       (Throw (undefined_member "isManyToMany"), empty_world).
Proof.
  cbv zeta. split_and!; vm_compute; reflexivity.
Qed.

(** An operator key is written as it is when its turn comes. *)
Lemma transform_entries_operator models m propertyName value rest map :
  is_operator propertyName = true ->
  transform_entries models m ((propertyName, value) :: rest) map =
  transform_entries models m rest (Dict.set map propertyName value).
Proof. intros H. cbn [transform_entries]. now rewrite H. Qed.

Lemma merge_select_get map selectMap k :
  k ∉ Dict.keys (default [] selectMap) ->
  Dict.get (merge_select map selectMap) k = Dict.get map k.
Proof.
  unfold merge_select. generalize (default [] selectMap) as entries. clear selectMap.
  intros entries. revert map. induction entries as [|[k' v'] entries IH]; intros map Hnotin.
  - reflexivity.
  - cbn [fold_left fst snd]. cbn in Hnotin. apply not_elem_of_cons in Hnotin as [Hne Hnotin].
    rewrite IH by assumption. apply dict_get_set_ne. congruence.
Qed.

Lemma transform_entries_get models m k : forall todo map result,
  is_operator k = true ->
  NoDup (Dict.keys todo) ->
  unselected models m todo k ->
  transform_entries models m todo map = Return result ->
  Dict.get result k =
    match Dict.get todo k with Some v => Some v | None => Dict.get map k end.
Proof.
  intros todo. induction todo as [|[k0 v0] todo IH]; intros map result Hop Hnd Hsel Hrun.
  - injection Hrun as <-. reflexivity.
  - cbn in Hnd. apply NoDup_cons in Hnd as [Hnotin Hnd].
    assert (Hsel' : unselected models m todo k).
    { intros k' v' p select Hin. apply Hsel. apply elem_of_cons. now right. }
    cbn [transform_entries Dict.get] in *.
    destruct (is_operator k0) eqn:Hop0.
    + rewrite (IH _ _ Hop Hnd Hsel' Hrun).
      destruct (String.eqb_spec k0 k) as [->|Hne].
      * destruct (Dict.get todo k) as [v|] eqn:Hget; [|apply dict_get_set_eq].
        exfalso. apply Hnotin. apply dict_get_in in Hget. now apply dict_in_keys in Hget.
      * now rewrite dict_get_set_ne.
    + assert (Hne : k0 <> k) by congruence.
      destruct (String.eqb_spec k0 k) as [?|_]; [contradiction|].
      destruct (getProperty 1 models m k0) as [[[p|]|e]|] eqn:Hget; try discriminate.
      unfold isSelectable in Hrun.
      destruct (selectMethod (options p)) as [select|] eqn:Hselect; cbn in Hrun.
      * rewrite (IH _ _ Hop Hnd Hsel' Hrun), merge_select_get; [reflexivity|].
        apply (Hsel k0 v0 p select); try assumption. apply elem_of_cons. now left.
      * destruct (hashMethod (options p)); [discriminate|].
        rewrite (IH _ _ Hop Hnd Hsel' Hrun). now rewrite dict_get_set_ne.
Qed.

(** Where the call returns, an operator key that no select map writes is in
    the result with its value, and every other key named a property. *)
Lemma _transformWhereMap_returns models m whereMap result :
  NoDup (Dict.keys whereMap) ->
  _transformWhereMap models m whereMap = Return result ->
  (forall k v, is_operator k = true -> Dict.get whereMap k = Some v ->
               unselected models m whereMap k -> Dict.get result k = Some v)
  /\ (forall k v, (k, v) ∈ whereMap -> is_operator k = false ->
                  exists p, getProperty 1 models m k = Some (Return (Some p))).
Proof.
  intros Hnd Hrun. split.
  - intros k v Hop Hget Hsel. unfold _transformWhereMap in Hrun.
    rewrite (transform_entries_get _ _ _ _ _ _ Hop Hnd Hsel Hrun). now rewrite Hget.
  - unfold _transformWhereMap in Hrun. clear Hnd. revert Hrun. generalize (@nil (string * value)).
    induction whereMap as [|[k0 v0] todo IH]; intros map Hrun k v Hin Hop.
    + now apply not_elem_of_nil in Hin.
    + cbn [transform_entries] in Hrun. apply elem_of_cons in Hin as [[= -> ->]|Hin].
      * rewrite Hop in Hrun.
        destruct (getProperty 1 models m k0) as [[[p|]|e]|]; try discriminate. now exists p.
      * destruct (is_operator k0); [now apply (IH _ Hrun k v)|].
        destruct (getProperty 1 models m k0) as [[[p|]|e]|]; try discriminate.
        destruct (isSelectable p), (selectMethod (options p)), (hashMethod (options p));
          try discriminate; now apply (IH _ Hrun k v).
Qed.

(** A key without a dot that names no property stops the call with the
    "Cannot find property" error, once the keys before it went through. *)
Lemma _transformWhereMap_not_found models m before k v after map props :
  _properties m = Some props ->
  is_operator k = false -> k <> "" ->
  Dict.get props k = None -> split_on "." k = [k] ->
  transform_entries models m before [] = Return map ->
  _transformWhereMap models m (before ++ (k, v) :: after) =
  Throw (property_not_found k (_name m)).
Proof.
  intros Hprops Hop Hne Hget Hsplit. unfold _transformWhereMap.
  generalize (@nil (string * value)) as start. revert map.
  induction before as [|[k0 v0] before IH]; intros map start Hrun.
  - cbn [app transform_entries getProperty]. rewrite Hop.
    destruct (String.eqb_spec k ""); [contradiction|].
    now rewrite Hprops, Hget, Hsplit.
  - cbn [app transform_entries] in *. destruct (is_operator k0); [now apply (IH map)|].
    destruct (getProperty 1 models m k0) as [[[p|]|e]|]; try discriminate.
    destruct (isSelectable p), (selectMethod (options p)), (hashMethod (options p));
      try discriminate; now apply (IH map).
Qed.

(** * The saves [create] starts *)

Lemma started_app tl tl' : started (tl ++ tl') = (started tl + started tl')%nat.
Proof. unfold started. now rewrite List.filter_app, length_app. Qed.

Lemma save_each_spec m privateMap createMaps : forall promises w,
  save_each_from m privateMap createMaps (promises, w) =
  (promises ++ seq (started (timeline w)) (length createMaps),
   {| heap := heap w; migrations := migrations w; calls := calls w;
      timeline := timeline w ++ map (fun c => Started (save_of m privateMap c)) createMaps |}).
Proof.
  induction createMaps as [|createMap createMaps IH]; intros promises w.
  - cbn. rewrite !app_nil_r. now destruct w.
  - change (save_each_from m privateMap (createMap :: createMaps) (promises, w))
      with (save_each_from m privateMap createMaps
              (promises ++ [started (timeline w)],
               tick (Started (save_of m privateMap createMap)) w)).
    rewrite IH. cbn [tick timeline heap migrations calls].
    rewrite started_app. cbn [started List.filter is_started length map seq].
    rewrite <- !app_assoc. cbn [app]. now rewrite Nat.add_1_r.
Qed.

(** * Migrations *)







(** * Option objects and the heap *)

Lemma read_write w l k v : read (write w l k v) l k = v.
Proof. unfold read, write, with_heap. cbn. now rewrite !lookup_insert_eq. Qed.

Lemma read_heap w w' l k : heap w' = heap w -> read w' l k = read w l k.
Proof. unfold read. now intros ->. Qed.

Lemma on_table_heap m c w : heap (snd (on_table m c w)) = heap w.
Proof. unfold on_table. now destruct (_table m). Qed.

Lemma on_table_calls m c w :
  calls (snd (on_table m c w)) = calls w \/ calls (snd (on_table m c w)) = calls w ++ [c].
Proof. unfold on_table. destruct (_table m); cbn; tauto. Qed.

Lemma register_fields_world new_Property todo : forall m w,
  snd (register_fields new_Property todo m w) = w.
Proof.
  induction todo as [|[n f] todo IH]; intros m w; [reflexivity|].
  destruct f as [ts|method|v]; cbn [register_fields]; try apply IH.
  unfold _addProperty. destruct ts as [|t ts]; [apply IH|].
  destruct (new_Property n (t :: ts) (_name m)); [|reflexivity].
  unfold addProperty. destruct (_ || _ || _); [reflexivity|].
  destruct (_properties m); [|reflexivity]. apply IH.
Qed.

(** Enumerating the properties leaves the world as it was. *)
Lemma getAllProperties_world new_Property m w :
  snd (getAllProperties new_Property m w) = w.
Proof.
  unfold getAllProperties. destruct (_properties m); [reflexivity|]. cbv zeta.
  destruct (negb _).
  - destruct (new_Property "id" id_types _); [|reflexivity].
    match goal with |- context [register_fields ?np ?t ?m0 ?w0] =>
      pose proof (register_fields_world np t m0 w0) as H;
      destruct (register_fields np t m0 w0) as [[[[]|e] m3] w3] end;
      cbn in H; subst; [|reflexivity].
    now destruct (_properties m3).
  - match goal with |- context [register_fields ?np ?t ?m0 ?w0] =>
      pose proof (register_fields_world np t m0 w0) as H;
      destruct (register_fields np t m0 w0) as [[[[]|e] m3] w3] end;
      cbn in H; subst; [|reflexivity].
    now destruct (_properties m3).
Qed.

Section Heap.

Variable new_Property : string -> list PropertyType -> string -> completion Property.
Variable datastore : TableCall -> promise (list Row).
Variable models : gmap string Model.

(** [find], [remove] and [update] do not write to an option object they are
    given. *)
Lemma find_heap m whereMap l w :
  heap (snd (find datastore models m whereMap (Some l) w)) = heap w.
Proof.
  unfold find, addTask. destruct (_activeMigration m); [reflexivity|]. cbn.
  destruct (_transformWhereMap _ _ _); [|reflexivity].
  match goal with |- context [on_table ?m0 ?c ?w0] =>
    pose proof (on_table_heap m0 c w0) as H; destruct (on_table m0 c w0) as [[c'|e] w2] end;
    exact H.
Qed.

Lemma remove_heap m whereMap l w :
  heap (snd (remove datastore models m whereMap (Some l) w)) = heap w.
Proof.
  unfold remove, addTask. destruct (_activeMigration m); [reflexivity|].
  destruct (_transformWhereMap _ _ _) as [where_|]; [|reflexivity].
  destruct (Dict.keys where_); [reflexivity|]. cbn.
  match goal with |- context [on_table ?m0 ?c ?w0] =>
    pose proof (on_table_heap m0 c w0) as H; destruct (on_table m0 c w0) as [[c'|e] w2] end;
    exact H.
Qed.

Lemma update_heap m whereMap setMap l w :
  heap (snd (update new_Property datastore models m whereMap setMap (Some l) w)) = heap w.
Proof.
  unfold update, addTask. destruct (_activeMigration m); [reflexivity|].
  destruct (update_where _ _ _); [|reflexivity]. cbn.
  pose proof (getAllProperties_world new_Property m w) as H.
  destruct (getAllProperties new_Property m w) as [[[props|e] m'] w2]; cbn in H; subst;
    [|reflexivity].
  now destruct (_table m').
Qed.

(** C10, as amended.  [updateOne] and [removeOne] set [limit] to 1 on the
    option object they are given, whatever happens next; [findOne] does so
    when no migration is active, and under an active migration leaves the
    object as it was. *)
Theorem one_sets_limit m whereMap l w :
  (_activeMigration m = None ->
   read (snd (findOne datastore models m whereMap (Some l) w)) l "limit" = VNum 1)
  /\ (forall whereArg setMap,
        read (snd (updateOne new_Property datastore models m whereArg setMap (Some l) w))
             l "limit" = VNum 1)
  /\ read (snd (removeOne datastore models m whereMap (Some l) w)) l "limit" = VNum 1
  /\ (forall mig, _activeMigration m = Some mig ->
        heap (snd (findOne datastore models m whereMap (Some l) w)) = heap w).
Proof.
  split_and!.
  - intros Hmig. unfold findOne. rewrite Hmig. cbn [options_or_new].
    remember (write w l "limit" (VNum 1)) as w2 eqn:Hw2.
    pose proof (find_heap m whereMap l w2) as H.
    destruct (find _ _ _ _ _ _) as [[[t|p]|e] w3]; cbn [snd] in *;
      rewrite (read_heap _ _ _ _ H), Hw2; apply read_write.
  - intros whereArg setMap. unfold updateOne. cbn [options_or_new].
    remember (write w l "limit" (VNum 1)) as w2 eqn:Hw2.
    pose proof (update_heap m whereArg setMap l w2) as H.
    destruct (update _ _ _ _ _ _ _ _) as [[[[t|p]|e] m'] w3]; cbn [snd] in *;
      rewrite (read_heap _ _ _ _ H), Hw2; apply read_write.
  - unfold removeOne. cbn [options_or_new].
    remember (write w l "limit" (VNum 1)) as w2 eqn:Hw2.
    pose proof (remove_heap m whereMap l w2) as H.
    destruct (remove _ _ _ _ _ _) as [[[t|p]|e] w3]; cbn [snd] in *;
      rewrite (read_heap _ _ _ _ H), Hw2; apply read_write.
  - intros mig Hmig. unfold findOne, addTask. now rewrite Hmig.
Qed.

End Heap.

(** The theorem at [Article.findOne({title: 'x'}, {skip: 5})]. *)
Lemma one_sets_limit_witness :
  read (snd (findOne no_rows ∅ article_model (Some [("title", VStr "x")]) (Some 0%nat)
               options_world)) 0 "limit" = VNum 1.
Proof.
  refine (proj1 (one_sets_limit plain_Property no_rows ∅ article_model
                   (Some [("title", VStr "x")]) 0%nat options_world) _).
  reflexivity.
Defined.

(** C10 as stated fails for [findOne] under a migration: the call is queued
    before the option object is touched. *)
Lemma one_sets_limit_counterexample :
  ~ (forall datastore (models : gmap string Model) m whereMap l w,
        read (snd (findOne datastore models m whereMap (Some l) w)) l "limit" = VNum 1).
Proof.
  intros claim.
  specialize (claim no_rows ∅ migrating_model None 0%nat options_world).
  vm_compute in claim. discriminate claim.
Qed.

(** * Finding and removing *)

Section Finding.

Variable datastore : TableCall -> promise (list Row).
Variable models : gmap string Model.

Lemma options_or_new_calls optionsMap w :
  calls (snd (options_or_new optionsMap w)) = calls w.
Proof. now destruct optionsMap. Qed.

(** The only call [find] issues is a select with the limit of the option
    object. *)
Lemma find_calls m whereMap l w :
  calls (snd (find datastore models m whereMap (Some l) w)) = calls w
  \/ exists where_ s o g sel a d,
       calls (snd (find datastore models m whereMap (Some l) w)) =
       calls w ++ [TSelect where_ (read w l "limit") s o g sel a d].
Proof.
  unfold find, addTask. destruct (_activeMigration m); [now left|]. cbn.
  destruct (_transformWhereMap _ _ _) as [where_|]; [|now left].
  match goal with |- context [on_table ?m0 ?c ?w0] =>
    destruct (on_table_calls m0 c w0) as [H|H];
    destruct (on_table m0 c w0) as [[c'|e] w2] end; cbn in *;
    first [left; exact H | right; eexists _, _, _, _, _, _, _; exact H].
Qed.

(** The only call [remove] issues is a remove with a where clause that has a
    key. *)
Lemma remove_calls m whereMap optionsMap w :
  calls (snd (remove datastore models m whereMap optionsMap w)) = calls w
  \/ exists where_ l s o,
       where_ <> [] /\
       calls (snd (remove datastore models m whereMap optionsMap w)) =
       calls w ++ [TRemove where_ l s o].
Proof.
  unfold remove, addTask. destruct (_activeMigration m); [now left|].
  destruct (_transformWhereMap _ _ _) as [where_|]; [|now left].
  destruct where_ as [|entry where_]; [now left|]. cbn [Dict.keys map].
  pose proof (options_or_new_calls optionsMap w) as Hnew.
  destruct (options_or_new optionsMap w) as [options w1]. cbn [snd] in Hnew.
  match goal with |- context [on_table ?m0 ?c ?w0] =>
    destruct (on_table_calls m0 c w0) as [H|H];
    destruct (on_table m0 c w0) as [[c'|e] w2] end; cbn [snd] in *;
    rewrite H, Hnew;
    first [now left | right; eexists _, _, _, _; split; [|reflexivity]; discriminate].
Qed.

(** C3, as amended.  With no migration active, [remove] with a where-map
    whose transformed key set is empty throws, before any datastore call, a
    plain [Error] that carries no status, and so does [removeOne].  Whatever
    its arguments, the only datastore call [remove] issues has a where clause
    with a key; [removeAll] issues the remove with the empty where clause. *)
Theorem remove_requires_where m whereMap optionsMap w where_ :
  _activeMigration m = None ->
  _transformWhereMap models m (default [] whereMap) = Return where_ ->
  Dict.keys where_ = [] ->
  remove datastore models m whereMap optionsMap w = (Throw remove_without_where, w)
  /\ status_of remove_without_where = None
  /\ (exists w', removeOne datastore models m whereMap optionsMap w =
                   (Throw remove_without_where, w') /\ calls w' = calls w)
  /\ (forall whereMap' optionsMap' w0,
        calls (snd (remove datastore models m whereMap' optionsMap' w0)) = calls w0
        \/ exists where' l s o,
             where' <> [] /\
             calls (snd (remove datastore models m whereMap' optionsMap' w0)) =
             calls w0 ++ [TRemove where' l s o])
  /\ (forall table, _table m = Some table ->
        removeAll m w =
          (Return (inr (TRemove [] VUndefined VUndefined VUndefined)),
           issue (TRemove [] VUndefined VUndefined VUndefined) w)).
Proof.
  intros Hmig Hwhere Hkeys.
  assert (Hremove : forall o w0, remove datastore models m whereMap o w0 =
                                 (Throw remove_without_where, w0)).
  { intros o w0. unfold remove. now rewrite Hmig, Hwhere, Hkeys. }
  split_and!; [apply Hremove | reflexivity | | apply remove_calls |].
  - unfold removeOne.
    pose proof (options_or_new_calls optionsMap w) as Hnew.
    destruct (options_or_new optionsMap w) as [options w1]. rewrite Hremove.
    eexists. split; [reflexivity|]. exact Hnew.
  - intros table Htable. unfold removeAll, captured_or_table, on_table.
    now rewrite Hmig, Htable.
Qed.

(** C7, as amended.  With no migration active, [findOne] is [find] on the
    option object with [limit] set to 1: it throws and rejects as [find] does,
    resolves with the first instance of a non-empty list and with [null] for
    the empty list; [getOne] resolves with that instance and rejects with the
    404 error on [null]; the select they issue has limit 1. *)
Theorem findOne_getOne m whereMap optionsMap w :
  _activeMigration m = None ->
  let options := fst (options_or_new optionsMap w) in
  let w2 := write (snd (options_or_new optionsMap w)) options "limit" (VNum 1) in
  let found := findOne datastore models m whereMap optionsMap w in
  let got := getOne datastore models m whereMap optionsMap w in
  match find datastore models m whereMap (Some options) w2 with
  | (Throw e, w3) => found = (Throw e, w3) /\ got = (Throw e, w3)
  | (Return (inl t), w3) => False
  | (Return (inr (Rejected e)), w3) =>
      found = (Return (inr (Rejected e)), w3) /\ got = (Return (inr (Rejected e)), w3)
  | (Return (inr (Fulfilled [])), w3) =>
      found = (Return (inr (Fulfilled None)), w3)
      /\ got = (Return (inr (Rejected not_found)), w3)
  | (Return (inr (Fulfilled (instance :: others))), w3) =>
      found = (Return (inr (Fulfilled (Some instance))), w3)
      /\ got = (Return (inr (Fulfilled instance)), w3)
  end
  /\ status_of not_found = Some 404
  /\ (calls (snd found) = calls w
      \/ exists where_ s o g sel a d,
           calls (snd found) = calls w ++ [TSelect where_ (VNum 1) s o g sel a d]).
Proof.
  intros Hmig options w2 found got. subst found got options w2.
  unfold getOne, findOne. rewrite Hmig.
  pose proof (options_or_new_calls optionsMap w) as Hnew.
  destruct (options_or_new optionsMap w) as [options w1]. cbn [fst snd] in *.
  pose proof (find_calls m whereMap options (write w1 options "limit" (VNum 1))) as Hcalls.
  rewrite read_write in Hcalls. change (calls (write w1 options "limit" (VNum 1)))
    with (calls w1) in Hcalls. rewrite Hnew in Hcalls.
  assert (Hfind : forall t w3,
             find datastore models m whereMap (Some options)
               (write w1 options "limit" (VNum 1)) <> (Return (inl t), w3)).
  { intros t w3. unfold find. rewrite Hmig. cbn [options_or_new].
    destruct (_transformWhereMap _ _ _); [|discriminate].
    destruct (on_table _ _ _) as [[c|e] w4]; discriminate. }
  destruct (find _ _ _ _ _ _) as [[[t|[[|instance others]|e]]|e] w3];
    cbn [snd then_ then_try first_or_null head] in *;
    split_and!; try reflexivity; try exact Hcalls.
  now apply (Hfind t w3).
Qed.

End Finding.

(** The theorem at [Article.remove({})]. *)
Lemma remove_requires_where_witness :
  remove no_rows ∅ article_model (Some []) None empty_world =
    (Throw remove_without_where, empty_world).
Proof.
  refine (proj1 (remove_requires_where no_rows ∅ article_model (Some []) None
                   empty_world [] _ _ _)); reflexivity.
Defined.

(** The theorem at [Article.findOne({title: 'x'}, {skip: 5})] and the same
    [getOne], on an empty table. *)
Lemma findOne_getOne_witness :
  findOne no_rows ∅ article_model (Some [("title", VStr "x")]) (Some 0%nat) options_world =
    (Return (inr (Fulfilled None)),
     issue (TSelect [("title", VStr "x")] (VNum 1) (VNum 5) VUndefined VUndefined
              VUndefined VUndefined VUndefined)
           (write options_world 0 "limit" (VNum 1)))
  /\ getOne no_rows ∅ article_model (Some [("title", VStr "x")]) (Some 0%nat) options_world =
    (Return (inr (Rejected not_found)),
     issue (TSelect [("title", VStr "x")] (VNum 1) (VNum 5) VUndefined VUndefined
              VUndefined VUndefined VUndefined)
           (write options_world 0 "limit" (VNum 1))).
Proof.
  refine (proj1 (findOne_getOne no_rows ∅ article_model (Some [("title", VStr "x")])
                   (Some 0%nat) options_world _)).
  reflexivity.
Defined.

(** C3 as stated fails twice: the error [remove] throws carries no status,
    400 or other; and under a migration [remove] does not fail but queues the
    call. *)
Lemma remove_requires_where_counterexample :
  ~ (forall datastore (models : gmap string Model) m whereMap optionsMap w where_,
        _activeMigration m = None ->
        _transformWhereMap models m (default [] whereMap) = Return where_ ->
        Dict.keys where_ = [] ->
        exists e w',
          remove datastore models m whereMap optionsMap w = (Throw e, w')
          /\ status_of e = Some 400)
  /\ ~ (forall datastore (models : gmap string Model) m whereMap optionsMap w where_,
        _transformWhereMap models m (default [] whereMap) = Return where_ ->
        Dict.keys where_ = [] ->
        exists e w', remove datastore models m whereMap optionsMap w = (Throw e, w')).
Proof.
  split; intros claim.
  - destruct (claim no_rows ∅ article_model (Some []) None empty_world []
                eq_refl eq_refl eq_refl) as (e & w' & Hthrow & Hstatus).
    vm_compute in Hthrow. injection Hthrow as <- _. discriminate Hstatus.
  - destruct (claim no_rows ∅ migrating_model (Some []) None empty_world []
                eq_refl eq_refl) as (e & w' & Hthrow).
    vm_compute in Hthrow. discriminate Hthrow.
Qed.

(** C7 as stated fails under a migration: [findOne] queues the call and
    returns the task. *)
Lemma findOne_getOne_counterexample :
  ~ (forall datastore (models : gmap string Model) m whereMap optionsMap w,
        exists r w',
          findOne datastore models m whereMap optionsMap w = (r, w')
          /\ forall t, r <> Return (inl t)).
Proof.
  intros claim.
  destruct (claim no_rows ∅ migrating_model None None empty_world) as (r & w' & Hrun & Hr).
  vm_compute in Hrun. injection Hrun as <- _. eapply Hr. reflexivity.
Qed.

(** * Folding rows into instances: [_createModelInstances] *)

Section Folding.

Variable m : Model.
Variable hookName : option string.
Variable isPartial : bool.
Variable isShallow : value.
Variable p : string.

Local Abbreviation step := (consume_step m hookName isPartial isShallow).
Local Abbreviation fresh_instance := (fun row => new_ModelInstance m row hookName isPartial isShallow).

Lemma omap_joined_cons (row : Row) rows :
  option_list (row_joined row) ++ omap row_joined rows = omap row_joined (row :: rows).
Proof. cbn. now destruct (row_joined row). Qed.

(** An instance consumes every row of a block that shares its id. *)
Lemma consume_block block : forall finished before,
  Forall (fun row => row_id row = p) block ->
  fold_left step block (finished, Some (folded m hookName isPartial isShallow p before)) =
  (finished, Some (folded m hookName isPartial isShallow p (before ++ block))).
Proof.
  induction block as [|row block IH]; intros finished before Hblock.
  - now rewrite app_nil_r.
  - apply Forall_cons in Hblock as [Hrow Hblock]. cbn [fold_left].
    replace (step (finished, Some (folded m hookName isPartial isShallow p before)) row)
      with (finished, Some (folded m hookName isPartial isShallow p (before ++ [row]))).
    + rewrite IH by assumption. now rewrite <- app_assoc.
    + unfold consume_step, consumeRow, folded. cbn. rewrite Hrow, String.eqb_refl.
      now rewrite omap_app, <- omap_joined_cons, app_nil_r.
Qed.

(** Rows with other ids leave the finished instances in place and add only
    instances with other ids. *)
Lemma consume_others rows : forall finished current,
  Forall (fun row => row_id row <> p) rows ->
  instance_id current <> p ->
  exists extra current',
    fold_left step rows (finished, Some current) = (finished ++ extra, Some current')
    /\ Forall (fun instance => instance_id instance <> p) extra
    /\ instance_id current' <> p.
Proof.
  induction rows as [|row rows IH]; intros finished current Hrows Hcurrent.
  - exists [], current. now rewrite app_nil_r.
  - apply Forall_cons in Hrows as [Hrow Hrows]. cbn [fold_left].
    unfold consume_step at 2. cbn [fst snd]. unfold consumeRow.
    destruct (String.eqb (row_id row) (instance_id current)).
    + apply IH; assumption.
    + destruct (IH (finished ++ [current]) (fresh_instance row) Hrows Hrow)
        as (extra & current' & Hfold & Hextra & Hcurrent').
      exists (current :: extra), current'. rewrite Hfold, <- app_assoc.
      split_and!; [reflexivity | now apply Forall_cons | assumption].
Qed.

(** The rows before a block: whatever they fold into has other ids. *)
Lemma consume_before rows :
  Forall (fun row => row_id row <> p) rows ->
  rows = [] \/
  exists extra current,
    fold_left step rows ([], None) = (extra, Some current)
    /\ Forall (fun instance => instance_id instance <> p) extra
    /\ instance_id current <> p.
Proof.
  destruct rows as [|row rows]; [now left|]. intros Hrows. right.
  apply Forall_cons in Hrows as [Hrow Hrows]. cbn [fold_left].
  destruct (consume_others rows [] (fresh_instance row) Hrows Hrow)
    as (extra & current & Hfold & Hextra & Hcurrent).
  now exists extra, current.
Qed.

(** A block of rows that share the id [p], with no row of that id before or
    after it, folds into exactly one instance, which holds the joined rows of
    the whole block. *)
Lemma fold_block before block after :
  block <> [] ->
  Forall (fun row => row_id row = p) block ->
  Forall (fun row => row_id row <> p) before ->
  Forall (fun row => row_id row <> p) after ->
  exists earlier later,
    _createModelInstances m (before ++ block ++ after) hookName isPartial isShallow =
      earlier ++ [folded m hookName isPartial isShallow p block] ++ later
    /\ Forall (fun instance => instance_id instance <> p) earlier
    /\ Forall (fun instance => instance_id instance <> p) later.
Proof.
  intros Hne Hblock Hbefore Hafter. unfold _createModelInstances.
  destruct block as [|first block]; [contradiction|].
  apply Forall_cons in Hblock as [Hfirst Hblock].
  assert (Hstart : exists earlier,
             fold_left step (before ++ first :: block) ([], None) =
               (earlier, Some (folded m hookName isPartial isShallow p (first :: block)))
             /\ Forall (fun instance => instance_id instance <> p) earlier).
  { rewrite fold_left_app. cbn [fold_left].
    assert (Hnew : fresh_instance first = folded m hookName isPartial isShallow p [first]).
    { unfold new_ModelInstance, folded. cbn. rewrite Hfirst.
      now destruct (row_joined first). }
    destruct (consume_before before Hbefore) as [->|(extra & current & -> & Hextra & Hcurrent)].
    - exists []. cbn [fold_left]. unfold consume_step at 2. cbn [fst snd].
      rewrite Hnew, (consume_block block [] [first] Hblock). now split.
    - exists (extra ++ [current]). unfold consume_step at 2. cbn [fst snd].
      unfold consumeRow. destruct (String.eqb_spec (row_id first) (instance_id current));
        [congruence|].
      rewrite Hnew, (consume_block block _ [first] Hblock). split; [reflexivity|].
      apply Forall_app. split; [assumption|]. now apply Forall_singleton. }
  destruct Hstart as (earlier & Hstart & Hearlier).
  rewrite (app_assoc before), fold_left_app, Hstart.
  destruct after as [|next after].
  - exists earlier, []. now split_and!.
  - apply Forall_cons in Hafter as [Hnext Hafter].
    assert (Hstep : step (earlier, Some (folded m hookName isPartial isShallow p (first :: block)))
                      next =
                    (earlier ++ [folded m hookName isPartial isShallow p (first :: block)],
                     Some (fresh_instance next))).
    { unfold consume_step, consumeRow. cbn [fst snd instance_id folded].
      destruct (String.eqb_spec (row_id next) p); [contradiction | reflexivity]. }
    cbn [fold_left]. rewrite Hstep.
    destruct (consume_others after
                (earlier ++ [folded m hookName isPartial isShallow p (first :: block)])
                (fresh_instance next) Hafter Hnext)
      as (extra & current & -> & Hextra & Hcurrent).
    exists earlier, (extra ++ [current]). cbn [fst snd option_list].
    split_and!; [now rewrite <- !app_assoc | assumption |].
    apply Forall_app. split; [assumption|]. now apply Forall_singleton.
Qed.

End Folding.

Lemma id_lt_irrefl a : ~ id_lt a a.
Proof. apply (StrictOrder_Irreflexive (R := OrdersEx.String_as_OT.lt)). Qed.

Lemma id_lt_trans a b c : id_lt a b -> id_lt b c -> id_lt a c.
Proof. apply (StrictOrder_Transitive (R := OrdersEx.String_as_OT.lt)). Qed.

Lemma id_le_trans a b c : id_le a b -> id_le b c -> id_le a c.
Proof.
  intros [->|Hab] [->|Hbc]; [now left | now right | now right |].
  right. now apply id_lt_trans with b.
Qed.

Lemma id_le_antisym a b : id_le a b -> id_le b a -> a = b.
Proof.
  intros [->|Hab] [Heq|Hba]; try congruence.
  destruct (id_lt_irrefl a). now apply id_lt_trans with b.
Qed.

Lemma ascending_strongly rows :
  ascending rows -> StronglySorted (fun a b => id_le (row_id a) (row_id b)) rows.
Proof.
  apply Sorted_StronglySorted. intros a b c. apply id_le_trans.
Qed.

Lemma filter_none {A} (P : A -> Prop) `{forall x, Decision (P x)} (l : list A) :
  filter P l = [] -> Forall (fun x => ~ P x) l.
Proof.
  intros Hnil. apply Forall_forall. intros x Hx HP.
  now apply (filter_nil_not_elem_of P l x).
Qed.

(** In rows ordered by id the rows of one id stand together. *)
Lemma ascending_block rows p :
  ascending rows ->
  exists before after,
    rows = before ++ filter (fun row => row_id row = p) rows ++ after
    /\ Forall (fun row => row_id row <> p) before
    /\ Forall (fun row => row_id row <> p) after.
Proof.
  intros Hsorted. apply ascending_strongly in Hsorted.
  induction Hsorted as [|row rows Hrows IH Hrow].
  - exists [], []. now split_and!.
  - destruct IH as (before & after & Hsplit & Hbefore & Hafter).
    destruct (decide (row_id row = p)) as [Hp|Hp].
    + rewrite filter_cons_True by assumption.
      destruct (filter (fun r => row_id r = p) rows) as [|same block] eqn:Hblock.
      * exists [], rows. split_and!; [reflexivity | apply Forall_nil_2 | exact (filter_none _ rows Hblock)].
      * destruct before as [|other before].
        -- exists [], after. cbn [app] in *. split_and!; [congruence | apply Forall_nil_2 | assumption].
        -- exfalso. apply Forall_cons in Hbefore as [Hother _].
           assert (Hsame : row_id same = p).
           { assert (Hin : same ∈ filter (fun r => row_id r = p) rows).
             { rewrite Hblock. apply elem_of_cons. now left. }
             now apply list_elem_of_filter in Hin as [? _]. }
           assert (Hle : id_le (row_id other) (row_id same)).
           { rewrite Hsplit in Hrows.
             apply (StronglySorted_app_1_elem_of
                      (fun a b => id_le (row_id a) (row_id b))
                      (other :: before) ((same :: block) ++ after));
               [assumption | apply elem_of_cons; now left |].
             apply elem_of_app. left. apply elem_of_cons. now left. }
           assert (Hge : id_le (row_id row) (row_id other)).
           { rewrite Forall_forall in Hrow. apply Hrow. rewrite Hsplit.
             apply elem_of_cons. now left. }
           apply Hother. rewrite Hsame, <- Hp in *. now apply id_le_antisym.
    + rewrite filter_cons_False by assumption.
      exists (row :: before), after. split_and!; [now rewrite Hsplit at 1 | | assumption].
      now apply Forall_cons.
Qed.

Lemma joined_length (block : list Row) :
  Forall (fun row => is_Some (row_joined row)) block ->
  length (omap row_joined block) = length block.
Proof.
  induction 1 as [|row rest [child Hchild] _ IH]; [reflexivity|].
  cbn. rewrite Hchild. cbn. now f_equal.
Qed.

Example sample_rows_fold :
  map (fun i => (instance_id i, instance_joined i))
      (_createModelInstances article_model sample_rows None false VUndefined) =
  [("a", ["x"; "y"]); ("b", ["z"])].
Proof. reflexivity. Qed.

Example shuffled_rows_fold :
  map (fun i => (instance_id i, instance_joined i))
      (_createModelInstances article_model shuffled_rows None false VUndefined) =
  [("a", ["x"]); ("b", ["z"]); ("a", ["y"])].
Proof. reflexivity. Qed.

Lemma sample_rows_ascending : ascending sample_rows.
Proof.
  unfold ascending, sample_rows.
  repeat first [ apply Sorted_nil | apply Sorted_cons | apply HdRel_nil | apply HdRel_cons ];
    cbn; first [ now left | right; reflexivity ].
Qed.

Lemma shuffled_rows_not_ascending : ~ ascending shuffled_rows.
Proof.
  unfold ascending, shuffled_rows. intros H.
  apply Sorted_inv in H as [H _]. apply Sorted_inv in H as [_ H].
  apply HdRel_inv in H. cbn in H. destruct H as [H|H]; discriminate H.
Qed.

(** C5.  In rows ordered by parent id, the rows that share the parent id [p]
    fold into exactly one instance, which holds the joined row of every one of
    them: [N] children when each of the [N] rows carries one.  For some
    unordered rows the fold makes more than one instance of the same parent
    id. *)
Theorem rows_fold_by_parent m hookName isPartial isShallow :
  (forall rows p,
      ascending rows ->
      let block := filter (fun row => row_id row = p) rows in
      block <> [] ->
      exists earlier later,
        _createModelInstances m rows hookName isPartial isShallow =
          earlier ++ [folded m hookName isPartial isShallow p block] ++ later
        /\ Forall (fun instance => instance_id instance <> p) earlier
        /\ Forall (fun instance => instance_id instance <> p) later
        /\ (Forall (fun row => is_Some (row_joined row)) block ->
            length (instance_joined (folded m hookName isPartial isShallow p block)) =
            length block))
  /\ (exists rows p,
        ~ ascending rows /\
        (1 < length (filter (fun instance => instance_id instance = p)
                       (_createModelInstances m rows hookName isPartial isShallow)))%nat).
Proof.
  split.
  - intros rows p Hsorted block Hblock.
    destruct (ascending_block rows p Hsorted) as (before & after & Hsplit & Hbefore & Hafter).
    fold block in Hsplit.
    assert (Hsame : Forall (fun row => row_id row = p) block).
    { apply Forall_forall. intros row Hin. now apply list_elem_of_filter in Hin as [? _]. }
    destruct (fold_block m hookName isPartial isShallow p before block after
                Hblock Hsame Hbefore Hafter) as (earlier & later & Hfold & He & Hl).
    exists earlier, later. rewrite Hsplit at 1. split_and!; try assumption.
    intros Hjoined. cbn [instance_joined folded]. now apply joined_length.
  - exists shuffled_rows, "a". split; [apply shuffled_rows_not_ascending|].
    vm_compute. lia.
Qed.

(** The theorem at the three sample rows and the parent [a]. *)
Lemma rows_fold_by_parent_witness :
  exists earlier later,
    _createModelInstances article_model sample_rows None false VUndefined =
      earlier ++ [folded article_model None false VUndefined "a"
                    (filter (fun row => row_id row = "a") sample_rows)] ++ later
    /\ Forall (fun instance => instance_id instance <> "a") earlier
    /\ Forall (fun instance => instance_id instance <> "a") later
    /\ (Forall (fun row => is_Some (row_joined row))
          (filter (fun row => row_id row = "a") sample_rows) ->
        length (instance_joined (folded article_model None false VUndefined "a"
                  (filter (fun row => row_id row = "a") sample_rows))) =
        length (filter (fun row => row_id row = "a") sample_rows)).
Proof.
  apply (proj1 (rows_fold_by_parent article_model None false VUndefined) sample_rows "a").
  - exact sample_rows_ascending.
  - vm_compute. discriminate.
Defined.


(** * Creating several instances: [create] on an array *)

Lemma find_nothing {A} (f : A -> bool) (l : list A) :
  (forall x, x ∈ l -> f x = false) -> List.find f l = None.
Proof.
  induction l as [|x l IH]; intros H; [reflexivity|]. cbn.
  rewrite (H x) by (apply elem_of_cons; now left).
  apply IH. intros y Hy. apply H. apply elem_of_cons. now right.
Qed.

Lemma settled_in_app tl tl' i : settled_in (tl ++ tl') i = settled_in tl i || settled_in tl' i.
Proof. unfold settled_in. apply existsb_app. Qed.

Lemma fulfilled_member tl promises instances j :
  Forall2 (fun i instance => settlement tl i = Some (Fulfilled instance)) promises instances ->
  j ∈ promises -> is_rejected (settlement tl j) = false.
Proof.
  induction 1 as [|i instance promises instances Hi _ IH]; intros Hj.
  - now apply not_elem_of_nil in Hj.
  - apply elem_of_cons in Hj as [->|Hj]; [now rewrite Hi | now apply IH].
Qed.

(** C8, as amended.  On an array, [create] starts one save per element, in
    input order and in one pass, issues no datastore call of its own, and
    returns [Q.all] of the promises: with two or more elements a save starts
    while the one before it is unsettled.  In whatever order the saves then
    settle, once all are fulfilled the result is the list of their instances
    in input order. *)
Theorem create_many m createMaps privateMap w :
  let promises := seq (started (timeline w)) (length createMaps) in
  let after :=
    timeline w ++ map (fun c => Started (save_of m privateMap c)) createMaps in
  create m (CreateMany createMaps) privateMap w =
    (AllOf promises,
     {| heap := heap w; migrations := migrations w; calls := calls w; timeline := after |})
  /\ (forall tl instances,
        settles after tl ->
        Forall2 (fun i instance => settlement tl i = Some (Fulfilled instance))
                promises instances ->
        Q_all tl promises = Some (Fulfilled instances))
  /\ ((forall i, (started (timeline w) <= i)%nat -> settled_in (timeline w) i = false) ->
      (2 <= length createMaps)%nat ->
      ~ sequential after).
Proof.
  intros promises after. split_and!.
  - cbn [create]. unfold save_each. now rewrite save_each_spec.
  - intros tl instances _ Hall. unfold Q_all, first_rejection.
    rewrite find_nothing.
    + rewrite (proj2 (mapM_Some _ promises instances)); [reflexivity|].
      eapply Forall2_impl; [exact Hall|]. cbn. intros i instance ->. reflexivity.
    + intros [s|j [instance|e]] _; try reflexivity.
      destruct (existsb (Nat.eqb j) promises) eqn:Hj; [|reflexivity].
      apply existsb_exists in Hj as (i & Hi & Heq). apply Nat.eqb_eq in Heq. subst i.
      apply list_elem_of_In in Hi. now rewrite (fulfilled_member _ _ _ _ Hall Hi).
  - intros Hfresh Hlen Hseq.
    destruct createMaps as [|first [|second rest]]; cbn in Hlen; try lia.
    specialize (Hseq (S (length (timeline w))) (save_of m privateMap second)
                  (started (timeline w))).
    subst after. cbn [map] in Hseq.
    rewrite lookup_app_r in Hseq by lia.
    replace (S (length (timeline w)) - length (timeline w))%nat with 1%nat in Hseq by lia.
    rewrite (take_app_ge _ _ (S (length (timeline w)))) in Hseq by lia.
    replace (S (length (timeline w)) - length (timeline w))%nat with 1%nat in Hseq by lia.
    cbn [take lookup list_lookup] in Hseq.
    rewrite started_app, settled_in_app in Hseq. cbn in Hseq.
    rewrite Hfresh in Hseq by lia. cbn in Hseq.
    assert (H : false = true) by (apply Hseq; [reflexivity | lia]). discriminate H.
Qed.

Example create_two :
  create article_model (CreateMany two_maps) VUndefined empty_world =
  (AllOf [0; 1]%nat,
   tick (Started (save_of article_model VUndefined {["title" := VStr "second"]}))
     (tick (Started (save_of article_model VUndefined {["title" := VStr "first"]}))
        empty_world)).
Proof. reflexivity. Qed.

(** The theorem at two create-maps whose saves settle in reverse order. *)
Lemma create_many_witness :
  Q_all second_first [0; 1]%nat = Some (Fulfilled [saved "1"; saved "2"]).
Proof.
  refine (proj1 (proj2 (create_many article_model two_maps VUndefined empty_world))
            second_first [saved "1"; saved "2"] _ _).
  - change second_first with
      (((timeline empty_world
           ++ map (fun c => Started (save_of article_model VUndefined c)) two_maps)
          ++ [Settled 1 (Fulfilled (saved "2"))])
         ++ [Settled 0 (Fulfilled (saved "1"))]).
    apply settles_step; [apply settles_step; [apply settles_refl | |] | |];
      vm_compute; first [reflexivity | lia].
  - repeat constructor.
Defined.

(** C8 as stated fails on an array of two: the second save starts while the
    first is unsettled. *)
Lemma create_many_counterexample :
  ~ (forall m createMaps privateMap,
        sequential (timeline (snd (create m (CreateMany createMaps) privateMap empty_world)))).
Proof.
  intros claim.
  specialize (claim article_model two_maps VUndefined 1%nat
                (save_of article_model VUndefined {["title" := VStr "second"]}) 0%nat
                eq_refl).
  assert (H : false = true) by (apply claim; vm_compute; lia).
  discriminate H.
Qed.

(** * Access-control denials *)



(** * Where-maps that pass through, and hashes *)

(** The entries are visited in order: the map the first ones build is the
    one the rest go on with. *)
Lemma transform_entries_app models m before : forall rest start,
  transform_entries models m (before ++ rest) start =
  match transform_entries models m before start with
  | Return map => transform_entries models m rest map
  | Throw e => Throw e
  end.
Proof.
  induction before as [|[k v] before IH]; intros rest start; [reflexivity|].
  cbn [app transform_entries]. destruct (is_operator k); [apply IH|].
  destruct (getProperty 1 models m k) as [[[p|]|e]|]; try reflexivity.
  destruct (isSelectable p), (selectMethod (options p)), (hashMethod (options p));
    try reflexivity; apply IH.
Qed.

Lemma transform_entries_verbatim models m : forall todo map,
  NoDup (Dict.keys map ++ Dict.keys todo) ->
  Forall (fun kv => verbatim models m (fst kv)) todo ->
  transform_entries models m todo map = Return (map ++ todo).
Proof.
  induction todo as [|[k v] todo IH]; intros map Hnd Hall.
  - now rewrite app_nil_r.
  - apply Forall_cons in Hall as [Hk Hall]. cbn [fst] in Hk.
    assert (Hfresh : k ∉ Dict.keys map).
    { apply NoDup_app in Hnd as (_ & Hdisj & _). intros Hin.
      apply (Hdisj k Hin). apply elem_of_cons. now left. }
    assert (Hnext : transform_entries models m todo (Dict.set map k v) =
                    Return (map ++ (k, v) :: todo)).
    { rewrite dict_set_fresh by assumption. rewrite IH; [| | assumption].
      - now rewrite <- app_assoc.
      - unfold Dict.keys in *. rewrite map_app, <- app_assoc. exact Hnd. }
    cbn [transform_entries]. destruct Hk as [Hop|(p & Hget & Hsel & Hhash)].
    + now rewrite Hop.
    + destruct (is_operator k); [assumption|].
      rewrite Hget, Hsel, Hhash. exact Hnext.
Qed.

(** X1.  A where-map whose keys are operators or name properties that are
    neither selectable nor hashed comes out of [_transformWhereMap] as it went
    in: the same keys in the same order with the same values; and it is the
    where clause of the select [find] issues. *)
Theorem _transformWhereMap_verbatim datastore (models : gmap string Model) m whereMap :
  NoDup (Dict.keys whereMap) ->
  Forall (fun kv => verbatim models m (fst kv)) whereMap ->
  _transformWhereMap models m whereMap = Return whereMap
  /\ (forall table l w,
        _activeMigration m = None -> _table m = Some table ->
        calls (snd (find datastore models m (Some whereMap) (Some l) w)) =
        calls w ++ [TSelect whereMap (read w l "limit") (read w l "skip")
                      (read w l "orderBy") (read w l "groupBy") (read w l "select")
                      (read w l "associations") (read w l "autoFetchDepth")]).
Proof.
  intros Hnd Hall.
  assert (Hsame : _transformWhereMap models m whereMap = Return whereMap).
  { unfold _transformWhereMap. now rewrite transform_entries_verbatim. }
  split; [exact Hsame|].
  intros table l w Hmig Htable. unfold find. rewrite Hmig. cbn [options_or_new].
  change (default [] (Some whereMap)) with whereMap. rewrite Hsame.
  unfold on_table. now rewrite Htable.
Qed.

(** The theorem at [Article.find({title: 'x', $or: null})]. *)
Lemma _transformWhereMap_verbatim_witness :
  _transformWhereMap ∅ article_model [("title", VStr "x"); ("$or", VNull)] =
    Return [("title", VStr "x"); ("$or", VNull)].
Proof.
  refine (proj1 (_transformWhereMap_verbatim no_rows ∅ article_model
                   [("title", VStr "x"); ("$or", VNull)] _ _)).
  - apply (bool_decide_unpack _). vm_compute. exact I.
  - apply Forall_cons. split.
    + right. exists (plain "title" no_options). now split_and!.
    + apply Forall_cons. split; [now left | apply Forall_nil_2].
Defined.

Lemma transform_entries_hash models m k v p h : forall todo start,
  (k, v) ∈ todo -> is_operator k = false ->
  getProperty 1 models m k = Some (Return (Some p)) ->
  isSelectable p = false -> hashMethod (options p) = Some h ->
  exists e, transform_entries models m todo start = Throw e.
Proof.
  induction todo as [|[k0 v0] todo IH]; intros start Hin Hop Hget Hsel Hhash.
  - now apply not_elem_of_nil in Hin.
  - cbn [transform_entries]. apply elem_of_cons in Hin as [[= <- <-]|Hin].
    + rewrite Hop, Hget, Hsel, Hhash. now eexists.
    + destruct (is_operator k0); [now apply IH|].
      destruct (getProperty 1 models m k0) as [[[p0|]|e]|]; try now eexists.
      destruct (isSelectable p0), (selectMethod (options p0)), (hashMethod (options p0));
        try (now eexists); now apply IH.
Qed.

Section Hash.

Variable new_Property : string -> list PropertyType -> string -> completion Property.
Variable datastore : TableCall -> promise (list Row).
Variable models : gmap string Model.

(** X2.  A where-map with a key that names a hashed property that is not
    selectable never gets through [_transformWhereMap]: the call throws, with
    the "contains a hash method" error when the keys before it went through;
    [find], [remove] and [update] throw the same error before any datastore
    call. *)
Theorem hash_never_queried m whereMap k v p h :
  (k, v) ∈ whereMap -> is_operator k = false ->
  getProperty 1 models m k = Some (Return (Some p)) ->
  isSelectable p = false -> hashMethod (options p) = Some h ->
  exists e,
    _transformWhereMap models m whereMap = Throw e
    /\ (forall before after map,
          whereMap = before ++ (k, v) :: after ->
          transform_entries models m before [] = Return map ->
          e = hash_not_queryable k)
    /\ (_activeMigration m = None ->
        (forall optionsMap w,
            fst (find datastore models m (Some whereMap) optionsMap w) = Throw e
            /\ calls (snd (find datastore models m (Some whereMap) optionsMap w)) = calls w)
        /\ (forall optionsMap w,
              remove datastore models m (Some whereMap) optionsMap w = (Throw e, w))
        /\ (forall setMap optionsMap w,
              update new_Property datastore models m (WhereMap whereMap) setMap optionsMap w =
                (Throw e, m, w))).
Proof.
  intros Hin Hop Hget Hsel Hhash.
  destruct (transform_entries_hash models m k v p h whereMap [] Hin Hop Hget Hsel Hhash)
    as [e He].
  fold (_transformWhereMap models m whereMap) in He.
  exists e. split_and!; [exact He | |].
  - intros before after map -> Hbefore. unfold _transformWhereMap in He.
    rewrite transform_entries_app, Hbefore in He. cbn [transform_entries] in He.
    rewrite Hop, Hget, Hsel, Hhash in He. congruence.
  - intros Hmig. split_and!.
    + intros optionsMap w. unfold find. rewrite Hmig.
      destruct (options_or_new optionsMap w) as [options w1] eqn:Hnew.
      change (_transformWhereMap models m (default [] (Some whereMap)))
        with (_transformWhereMap models m whereMap). rewrite He. cbn [fst snd].
      split; [reflexivity|]. destruct optionsMap; cbn in Hnew; now injection Hnew as _ <-.
    + intros optionsMap w. unfold remove. rewrite Hmig.
      change (_transformWhereMap models m (default [] (Some whereMap)))
        with (_transformWhereMap models m whereMap). now rewrite He.
    + intros setMap optionsMap w. unfold update. rewrite Hmig. cbn [update_where].
      now rewrite He.
Qed.

End Hash.

(** The theorem at [Account.find({email: 'a', password: 'secret'})]. *)
Lemma hash_never_queried_witness :
  _transformWhereMap ∅ account_model [("email", VStr "a"); ("password", VStr "secret")] =
    Throw (hash_not_queryable "password").
Proof.
  assert (Hin : ("password", VStr "secret") ∈
                [("email", VStr "a"); ("password", VStr "secret")]).
  { apply elem_of_cons. right. apply elem_of_cons. now left. }
  destruct (hash_never_queried plain_Property no_rows ∅ account_model
              [("email", VStr "a"); ("password", VStr "secret")]
              "password" (VStr "secret") (plain "password" password_options)
              (fun _ => VStr "hashed") Hin eq_refl eq_refl eq_refl eq_refl)
    as (e & He & Hfirst & _).
  rewrite He. f_equal.
  now apply (Hfirst [("email", VStr "a")] [] [("email", VStr "a")]).
Defined.

(** * What the set-map pipeline leaves alone, and what it overrides *)

(** The set-map a chain leaves: every callback in turn. *)
Lemma run_chain_result chain setMap :
  snd (run_chain chain setMap) = fold_left (fun s cb => run cb s) chain setMap.
Proof.
  unfold run_chain.
  assert (H : forall acc, snd (fold_left
                (fun acc cb => (fst acc ++ [event cb], run cb (snd acc))) chain acc)
              = fold_left (fun s cb => run cb s) chain (snd acc)).
  { induction chain as [|cb chain IH]; intros acc; [reflexivity|]. cbn. now rewrite IH. }
  now rewrite H.
Qed.

Lemma register_callbacks_app setMap isNew chain p :
  register_callbacks setMap isNew chain p = chain ++ register_callbacks setMap isNew [] p.
Proof.
  unfold register_callbacks.
  destruct (isTransformable p), (transformMethod (options p)), (hashMethod (options p)),
    (defaultValue (options p)), (truthy (lookup_value setMap (name p))),
    (default_condition setMap isNew p);
    cbn; rewrite ?app_nil_r, <- ?app_assoc; reflexivity.
Qed.

Lemma registered_chain setMap isNew ps : forall chain,
  fold_left (register_callbacks setMap isNew) ps chain =
  chain ++ flat_map (register_callbacks setMap isNew []) ps.
Proof.
  induction ps as [|p ps IH]; intros chain; cbn.
  - now rewrite app_nil_r.
  - now rewrite IH, (register_callbacks_app _ _ chain), <- app_assoc.
Qed.

(** A callback a property registers writes the field of that property and
    no other. *)
Lemma registered_writes_own setMap isNew p cb :
  cb ∈ register_callbacks setMap isNew [] p ->
  forall s k, k <> name p -> run cb s !! k = s !! k.
Proof.
  unfold register_callbacks. intros Hcb s k Hk.
  assert (Hown : cb ∈ match transformMethod (options p) with
                      | Some f => [transform_callback p f] | None => [] end
                      ++ match hashMethod (options p) with
                         | Some f => [hash_callback p f] | None => [] end
                      ++ match defaultValue (options p) with
                         | Some f => [default_callback p f] | None => [] end).
  { revert Hcb.
    destruct (isTransformable p), (transformMethod (options p)), (hashMethod (options p)),
      (defaultValue (options p)), (truthy (lookup_value setMap (name p))),
      (default_condition setMap isNew p); cbn;
      rewrite ?elem_of_cons, ?elem_of_nil; tauto. }
  clear Hcb. repeat (apply elem_of_app in Hown as [Hown|Hown]).
  - destruct (transformMethod (options p)) as [f|]; [|now apply not_elem_of_nil in Hown].
    apply list_elem_of_singleton in Hown as ->. cbn.
    destruct (f s); try reflexivity; now rewrite lookup_insert_ne.
  - destruct (hashMethod (options p)) as [f|]; [|now apply not_elem_of_nil in Hown].
    apply list_elem_of_singleton in Hown as ->. cbn. now rewrite lookup_insert_ne.
  - destruct (defaultValue (options p)) as [f|]; [|now apply not_elem_of_nil in Hown].
    apply list_elem_of_singleton in Hown as ->. cbn. now rewrite lookup_insert_ne.
Qed.

Lemma chain_frame (chain : list Callback) k : forall s,
  (forall cb, cb ∈ chain -> forall s', run cb s' !! k = s' !! k) ->
  fold_left (fun s cb => run cb s) chain s !! k = s !! k.
Proof.
  induction chain as [|cb chain IH]; intros s Hall; [reflexivity|].
  cbn. rewrite IH.
  - apply Hall. apply elem_of_cons. now left.
  - intros cb' Hcb'. apply Hall. apply elem_of_cons. now right.
Qed.

Lemma no_events_no_callbacks setMap isNew p :
  property_events setMap isNew p = [] -> register_callbacks setMap isNew [] p = [].
Proof.
  intros H. pose proof (register_callbacks_events setMap isNew [] p) as He.
  rewrite H in He. cbn in He. now apply map_eq_nil in He.
Qed.

Lemma properties_frame setMap isNew (ps : list Property) k cb :
  (forall p, p ∈ ps -> name p = k -> property_events setMap isNew p = []) ->
  cb ∈ flat_map (register_callbacks setMap isNew []) ps ->
  forall s, run cb s !! k = s !! k.
Proof.
  intros Hps Hcb s. apply list_elem_of_In, in_flat_map in Hcb as (p & Hp & Hcb).
  apply list_elem_of_In in Hp, Hcb.
  destruct (decide (name p = k)) as [Hk|Hk].
  - rewrite (no_events_no_callbacks _ _ _ (Hps p Hp Hk)) in Hcb.
    now apply not_elem_of_nil in Hcb.
  - apply (registered_writes_own setMap isNew p cb Hcb). congruence.
Qed.

(** X3.  [_transformSetMap] writes only the fields of properties that
    register a callback: a field that names no property, or a property that
    registers none (not transformable, no hash to apply, no default to apply),
    is in the resulting set-map exactly as it was passed in, present or
    absent. *)
Theorem _transformSetMap_frame (properties : dict Property) setMap isNew k :
  (forall key p, (key, p) ∈ properties -> name p = k ->
                 property_events setMap isNew p = []) ->
  snd (_transformSetMap properties setMap isNew) !! k = setMap !! k.
Proof.
  intros Hquiet. unfold _transformSetMap.
  rewrite run_chain_result, registered_chain. cbn [app].
  apply chain_frame. intros cb Hcb s.
  apply (properties_frame setMap isNew (map snd properties) k cb); [|assumption].
  intros p Hp. apply list_elem_of_fmap in Hp as ([key p'] & -> & Hin). now apply (Hquiet key).
Qed.

(** The theorem at an update of an article that sets a field [views],
    which names no property. *)
Lemma _transformSetMap_frame_witness :
  snd (_transformSetMap article_properties
         {["views" := VNum 1]} false) !! "views" = Some (VNum 1).
Proof.
  refine (_transformSetMap_frame article_properties {["views" := VNum 1]} false "views" _).
  intros key p Hin Hname.
  apply elem_of_cons in Hin as [[= -> ->]|Hin]; [discriminate Hname|].
  apply elem_of_cons in Hin as [[= -> ->]|Hin]; [discriminate Hname|].
  now apply not_elem_of_nil in Hin.
Defined.

(** The callbacks of a property whose default applies end with the default. *)
Lemma default_last setMap isNew p f s :
  defaultValue (options p) = Some f -> default_condition setMap isNew p = true ->
  fold_left (fun s cb => run cb s) (register_callbacks setMap isNew [] p) s !! name p =
  Some (f tt).
Proof.
  intros Hf Hc. unfold register_callbacks. rewrite Hf, Hc.
  rewrite fold_left_app. cbn. apply lookup_insert_eq.
Qed.

(** X4.  When the default of a property applies, the resulting set-map holds
    the default value under the name of the property, whatever the caller
    passed for it and whatever the transform and the hash of the property
    wrote before. *)
Theorem default_overrides (properties : dict Property) setMap isNew key p f :
  NoDup (map name (map snd properties)) ->
  (key, p) ∈ properties ->
  defaultValue (options p) = Some f ->
  default_condition setMap isNew p = true ->
  snd (_transformSetMap properties setMap isNew) !! name p = Some (f tt).
Proof.
  intros Hnd Hin Hf Hc. unfold _transformSetMap.
  rewrite run_chain_result, registered_chain. cbn [app].
  assert (Hp : p ∈ map snd properties).
  { apply list_elem_of_fmap. now exists (key, p). }
  apply list_elem_of_split in Hp as (l1 & l2 & Hsplit). rewrite Hsplit in *.
  rewrite flat_map_app. cbn [flat_map]. rewrite !fold_left_app.
  rewrite chain_frame; [now apply default_last|].
  intros cb Hcb s. apply list_elem_of_In, in_flat_map in Hcb as (q & Hq & Hcb).
  apply list_elem_of_In in Hq, Hcb.
  apply (registered_writes_own setMap isNew q cb Hcb).
  rewrite map_app in Hnd. cbn in Hnd. apply NoDup_app in Hnd as (_ & _ & Hnd).
  apply NoDup_cons in Hnd as [Hnotin _]. intros Heq. apply Hnotin.
  apply list_elem_of_fmap. now exists q.
Qed.

(** The theorem at creating an article with [slug] and [title] set: the
    slug the caller passed is replaced by the generated one. *)
Lemma default_overrides_witness :
  snd (_transformSetMap article_properties article_setMap true) !! "slug" =
    Some (VStr "generated").
Proof.
  refine (default_overrides article_properties article_setMap true "slug"
            (plain "slug" slug_options) (fun _ => VStr "generated") _ _ _ _).
  - apply (bool_decide_unpack _). vm_compute. exact I.
  - apply elem_of_cons. now left.
  - reflexivity.
  - vm_compute. reflexivity.
Defined.

(** * One row at most: [updateOne], [removeOne] *)

Section One.

Variable new_Property : string -> list PropertyType -> string -> completion Property.
Variable datastore : TableCall -> promise (list Row).
Variable models : gmap string Model.

(** The only call [update] issues is an update with the limit of the option
    object. *)
Lemma update_calls m whereMap setMap l w :
  calls (snd (update new_Property datastore models m whereMap setMap (Some l) w)) = calls w
  \/ exists where_ set_ s o,
       calls (snd (update new_Property datastore models m whereMap setMap (Some l) w)) =
       calls w ++ [TUpdate where_ set_ (read w l "limit") s o].
Proof.
  unfold update, addTask. destruct (_activeMigration m); [now left|].
  destruct (update_where _ _ _) as [where_|]; [|now left]. cbn [options_or_new].
  pose proof (getAllProperties_world new_Property m w) as H.
  destruct (getAllProperties new_Property m w) as [[[props|e] m'] w2]; cbn in H; subst;
    [|now left].
  destruct (_table m'); [|now left].
  right. now eexists _, _, _, _.
Qed.

(** The only call [remove] issues carries the limit of the option object. *)
Lemma remove_limit m whereMap l w :
  calls (snd (remove datastore models m whereMap (Some l) w)) = calls w
  \/ exists where_ s o,
       where_ <> [] /\
       calls (snd (remove datastore models m whereMap (Some l) w)) =
       calls w ++ [TRemove where_ (read w l "limit") s o].
Proof.
  unfold remove, addTask. destruct (_activeMigration m); [now left|].
  destruct (_transformWhereMap _ _ _) as [where_|]; [|now left].
  destruct where_ as [|entry where_]; [now left|]. cbn [Dict.keys map options_or_new].
  match goal with |- context [on_table ?m0 ?c ?w0] =>
    destruct (on_table_calls m0 c w0) as [H|H];
    destruct (on_table m0 c w0) as [[c'|e] w2] end; cbn [snd] in *;
    rewrite H;
    first [now left | right; eexists _, _, _; split; [|reflexivity]; discriminate].
Qed.

(** The only call [updateOne] issues is an update with limit 1. *)
Lemma updateOne_calls m whereMap setMap optionsMap w :
  let after := snd (updateOne new_Property datastore models m whereMap setMap optionsMap w) in
  calls after = calls w
  \/ exists where_ set_ s o, calls after = calls w ++ [TUpdate where_ set_ (VNum 1) s o].
Proof.
  intros after. subst after. unfold updateOne.
  pose proof (options_or_new_calls optionsMap w) as Hnew.
  destruct (options_or_new optionsMap w) as [options w1]. cbn [snd] in Hnew.
  pose proof (update_calls m whereMap setMap options (write w1 options "limit" (VNum 1)))
    as Hcalls.
  rewrite read_write in Hcalls.
  change (calls (write w1 options "limit" (VNum 1))) with (calls w1) in Hcalls.
  rewrite Hnew in Hcalls.
  destruct (update _ _ _ _ _ _ _ _) as [[[[t|p]|e] m'] w3]; exact Hcalls.
Qed.

(** The only call [removeOne] issues is a remove with limit 1. *)
Lemma removeOne_calls m whereMap optionsMap w :
  let after := snd (removeOne datastore models m whereMap optionsMap w) in
  calls after = calls w
  \/ exists where_ s o,
       where_ <> [] /\ calls after = calls w ++ [TRemove where_ (VNum 1) s o].
Proof.
  intros after. subst after. unfold removeOne.
  pose proof (options_or_new_calls optionsMap w) as Hnew.
  destruct (options_or_new optionsMap w) as [options w1]. cbn [snd] in Hnew.
  pose proof (remove_limit m whereMap options (write w1 options "limit" (VNum 1)))
    as Hcalls.
  rewrite read_write in Hcalls.
  change (calls (write w1 options "limit" (VNum 1))) with (calls w1) in Hcalls.
  rewrite Hnew in Hcalls.
  destruct (remove _ _ _ _ _ _) as [[[t|p]|e] w3]; exact Hcalls.
Qed.

(** X5.  Whatever option object the caller passes, and whatever limit it
    holds, [updateOne] issues at most one datastore call, an update with
    limit 1, and [removeOne] at most one, a remove with limit 1 and a where
    clause that has a key. *)
Theorem one_row_at_most m w :
  (forall whereMap setMap optionsMap,
      let after := snd (updateOne new_Property datastore models m whereMap setMap optionsMap w) in
      calls after = calls w
      \/ exists where_ set_ s o, calls after = calls w ++ [TUpdate where_ set_ (VNum 1) s o])
  /\ (forall whereMap optionsMap,
        let after := snd (removeOne datastore models m whereMap optionsMap w) in
        calls after = calls w
        \/ exists where_ s o,
             where_ <> [] /\ calls after = calls w ++ [TRemove where_ (VNum 1) s o]).
Proof.
  split.
  - intros whereMap setMap optionsMap. apply updateOne_calls.
  - intros whereMap optionsMap. apply removeOne_calls.
Qed.

End One.

Example updateOne_limit :
  calls (snd (updateOne plain_Property no_rows ∅ article_model (WhereId (VStr "7"))
                (Some {["title" := VStr "x"]}) (Some 0%nat)
                (with_heap empty_world {[0%nat := {["limit" := VNum 100]}]}))) =
  [TUpdate [("id", VStr "7")] {["title" := VStr "x"]} (VNum 1) VUndefined VUndefined].
Proof. vm_compute. reflexivity. Qed.

(** * Adding, finding and removing a property *)





(** * The order of the properties *)










Section Enumeration.

Variable new_Property : string -> list PropertyType -> string -> completion Property.

(** The constructor names the property as it is asked to. *)
Hypothesis new_Property_name :
  forall n ts owner p, new_Property n ts owner = Return p -> name p = n.




End Enumeration.


(** * Key paths of two segments and more *)

(** A string without a dot is the first segment of what it is put before. *)
Lemma split_on_dotted first : forall rest,
  split_on "." first = [first] ->
  split_on "." (first +:+ "." +:+ rest) = first :: split_on "." rest.
Proof.
  induction first as [|c first IH]; intros rest Hfirst; [reflexivity|].
  cbn [split_on] in Hfirst.
  change (split_on "." (String c first +:+ "." +:+ rest))
    with (if Ascii.eqb c "." then "" :: split_on "." (first +:+ "." +:+ rest)
          else match split_on "." (first +:+ "." +:+ rest) with
               | [] => [String c ""]
               | segment :: segments => String c segment :: segments
               end).
  destruct (Ascii.eqb c "."); [discriminate Hfirst|].
  destruct (split_on "." first) as [|segment segments] eqn:Hsplit.
  - now destruct (split_on_nonempty "." first).
  - injection Hfirst as -> ->. now rewrite (IH rest eq_refl).
Qed.

Lemma dotted_nonempty first rest : String.eqb (first +:+ "." +:+ rest) "" = false.
Proof. now destruct first. Qed.

(** X8.  A key path that is no property name itself is cut after its second
    segment: [getProperty] resolves [first.second.rest] as it resolves
    [first.second].  It resolves [first.second] to what the model associated
    by [first] (the through model of a many-to-many association) holds under
    [second], a property or nothing. *)
Theorem getProperty_key_path depth (models : gmap string Model) m first second rest props :
  _properties m = Some props ->
  split_on "." first = [first] ->
  split_on "." second = [second] ->
  Dict.get props (first +:+ "." +:+ second) = None ->
  Dict.get props (first +:+ "." +:+ second +:+ "." +:+ rest) = None ->
  getProperty depth models m (first +:+ "." +:+ second +:+ "." +:+ rest) =
    getProperty depth models m (first +:+ "." +:+ second)
  /\ (forall firstProperty associated aprops,
        Dict.get props first = Some firstProperty ->
        (if isManyToMany firstProperty
         then through (options firstProperty)
         else getAssociatedModel firstProperty) ≫= (fun n => models !! n) = Some associated ->
        _properties associated = Some aprops ->
        second <> "" ->
        getProperty (S depth) models m (first +:+ "." +:+ second) =
          Some (Return (Dict.get aprops second))).
Proof.
  intros Hprops Hfirst Hsecond Htwo Hthree.
  assert (Hcut : take 2 (split_on "." (first +:+ "." +:+ second +:+ "." +:+ rest)) =
                 [first; second]).
  { rewrite split_on_dotted by assumption. now rewrite split_on_dotted by assumption. }
  assert (Hboth : take 2 (split_on "." (first +:+ "." +:+ second)) = [first; second]).
  { rewrite split_on_dotted by assumption. now rewrite Hsecond. }
  split.
  - destruct depth; cbn [getProperty];
      rewrite !dotted_nonempty, Hprops, Htwo, Hthree, Hcut, Hboth; reflexivity.
  - intros firstProperty associated aprops Hget Hassociated Haprops Hne.
    cbn [getProperty]. rewrite dotted_nonempty, Hprops, Htwo, Hboth, Hget, Hassociated.
    apply String.eqb_neq in Hne.
    destruct depth; cbn [getProperty]; rewrite Hne, Haprops;
      (destruct (Dict.get aprops second); [reflexivity | now rewrite Hsecond]).
Qed.

(** The theorem at the key paths [author.name.first] and [author.name] of
    an article of the blog. *)
Lemma getProperty_key_path_witness :
  getProperty 1 blog blog_article "author.name.first" =
    getProperty 1 blog blog_article "author.name"
  /\ getProperty 1 blog blog_article "author.name" =
       Some (Return (Some (plain "name" no_options))).
Proof.
  split.
  - exact (proj1 (getProperty_key_path 1 blog blog_article "author" "name" "first"
                    [("id", plain "id" no_options); ("title", plain "title" no_options);
                     ("author", author)] eq_refl eq_refl eq_refl eq_refl eq_refl)).
  - refine (proj2 (getProperty_key_path 0 blog blog_article "author" "name" "first"
                     [("id", plain "id" no_options); ("title", plain "title" no_options);
                      ("author", author)] eq_refl eq_refl eq_refl eq_refl eq_refl)
              author blog_user
              [("id", plain "id" no_options); ("name", plain "name" no_options);
               ("articles", articles)] eq_refl eq_refl eq_refl _).
    discriminate.
Defined.

(** * The automatic property on creation: [canCreate] *)

Lemma stamp_spec automatic authenticator createMaps :
  stamp automatic authenticator createMaps =
  if existsb (fun createMap => truthy (lookup_value createMap automatic)) createMaps
  then Throw automatic_property_set
  else Return (map (fun createMap => <[automatic := authenticator]> createMap) createMaps).
Proof.
  induction createMaps as [|createMap rest IH]; [reflexivity|]. cbn.
  destruct (truthy (lookup_value createMap automatic)); [reflexivity|]. cbn.
  rewrite IH. now destruct (existsb _ rest).
Qed.

(** X9.  When the access check lets a request through on a model with an
    automatic property, [canCreate] rejects with the status-400 error as soon
    as one create-map sets that property to a truthy value, and otherwise
    resolves with every create-map carrying the authenticator under it, the
    other fields untouched (the create-maps being distinct objects); without
    an authenticator model it rejects whatever the create-maps hold; without
    a request it passes the create-maps on as they are. *)
Theorem canCreate_automatic m createMaps request authenticator accessControl automatic :
  truthy accessControl = true ->
  automaticPropertyName m = Some automatic ->
  automatic <> "" ->
  canCreate m true createMaps (Some request) (Fulfilled authenticator) accessControl =
    (if existsb (fun createMap => truthy (lookup_value createMap automatic)) createMaps
     then Rejected automatic_property_set
     else Fulfilled (true, map (fun createMap => <[automatic := authenticator]> createMap)
                               createMaps))
  /\ status_of automatic_property_set = Some 400
  /\ canCreate m false createMaps (Some request) (Fulfilled authenticator) accessControl =
       Rejected no_authenticator_model
  /\ (forall hasAuthenticator found,
        canCreate m hasAuthenticator createMaps None found accessControl =
          Fulfilled (true, createMaps)).
Proof.
  intros Hallowed Hauto Hne. apply String.eqb_neq in Hne.
  unfold canCreate, then_try, canCreate_spread.
  rewrite Hallowed, Hauto, Hne, stamp_spec. cbn.
  split_and!; try reflexivity. now destruct (existsb _ createMaps).
Qed.

(** The theorem at a tester created by the user at location 3, and at one
    that names its owner itself. *)
Lemma canCreate_automatic_witness :
  canCreate tester_model true [{["name" := VStr "a"]}] (Some (VRef 9))
    (Fulfilled (VRef 3)) (VRef 1) =
    Fulfilled (true, [<["owner" := VRef 3]> {["name" := VStr "a"]}])
  /\ canCreate tester_model true [{["owner" := VRef 4]}] (Some (VRef 9))
       (Fulfilled (VRef 3)) (VRef 1) = Rejected automatic_property_set.
Proof.
  split.
  - refine (proj1 (canCreate_automatic tester_model [{["name" := VStr "a"]}] (VRef 9)
                     (VRef 3) (VRef 1) "owner" eq_refl eq_refl _)).
    discriminate.
  - refine (proj1 (canCreate_automatic tester_model [{["owner" := VRef 4]}] (VRef 9)
                     (VRef 3) (VRef 1) "owner" eq_refl eq_refl _)).
    discriminate.
Defined.

(** * Finding or creating, updating or creating *)

(** Once the loop holds an instance it holds one to the end. *)
Lemma consume_step_current m hookName isPartial isShallow rows : forall finished current,
  exists finished' current',
    fold_left (consume_step m hookName isPartial isShallow) rows (finished, Some current) =
    (finished', Some current').
Proof.
  induction rows as [|next rows IH]; intros finished current; [now eexists _, _|].
  cbn [fold_left]. unfold consume_step at 2. cbn [fst snd].
  destruct (consumeRow current next); apply IH.
Qed.

(** The loop makes an instance of the first row, whatever the rows after it
    are consumed into: it returns no instance only when there is no row. *)
Lemma _createModelInstances_nil m rows hookName isPartial isShallow :
  _createModelInstances m rows hookName isPartial isShallow = [] <-> rows = [].
Proof.
  split; [|now intros ->].
  destruct rows as [|row rows]; [reflexivity|]. intros H. exfalso. revert H.
  unfold _createModelInstances. cbn [fold_left].
  change (consume_step m hookName isPartial isShallow ([], None) row)
    with (@nil ModelInstance, Some (new_ModelInstance m row hookName isPartial isShallow)).
  destruct (consume_step_current m hookName isPartial isShallow rows []
              (new_ModelInstance m row hookName isPartial isShallow))
    as (finished & current & ->).
  cbn. intros H. now apply app_eq_nil in H as [_ H].
Qed.

(** Reading a fresh option object, as it is and after [limit] was set on
    it. *)
Lemma read_fresh w k : let '(l, w1) := alloc w in read w1 l k = VUndefined.
Proof.
  unfold alloc, read, with_heap. cbn. rewrite lookup_insert_eq. cbn. now rewrite lookup_empty.
Qed.

Lemma read_fresh_limit w k :
  let '(l, w1) := alloc w in
  read (write w1 l "limit" (VNum 1)) l k = if String.eqb k "limit" then VNum 1 else VUndefined.
Proof.
  unfold alloc, read, write, with_heap. cbn. rewrite !lookup_insert_eq. cbn.
  destruct (String.eqb_spec k "limit") as [->|Hne].
  - now rewrite lookup_insert_eq.
  - rewrite lookup_insert_ne by congruence. now rewrite lookup_empty.
Qed.

Section UpsertFacts.

Variable new_Property : string -> list PropertyType -> string -> completion Property.
Variable datastore : TableCall -> promise (list Row).
Variable models : gmap string Model.
Variable merge : WhereArg -> option (gmap string value) -> gmap string value.

(** X10.  With no migration active and a where-map that goes through,
    [findOrCreate] issues one select with limit 1 and starts a save exactly
    when the select resolves with no row: the save of one new instance made
    from the merge of the where-map and the set-map.  When the select
    resolves with rows the promise resolves with the first instance made of
    them, and when it rejects the promise rejects; no save is started
    then. *)
Theorem findOrCreate_creates_when_missing m where_ set_ w table transformed :
  _activeMigration m = None ->
  _table m = Some table ->
  _transformWhereMap models m (default [] where_) = Return transformed ->
  let c := TSelect transformed (VNum 1) VUndefined VUndefined VUndefined VUndefined
             VUndefined VUndefined in
  let '(r, after) := findOrCreate datastore models merge m where_ set_ w in
  calls after = calls w ++ [c]
  /\ match datastore c with
     | Fulfilled [] =>
         r = Return (inr (Follows (SavePromise (started (timeline w)))))
         /\ timeline after =
              timeline w ++ [Started (save_of m VUndefined (merge (where_arg where_) set_))]
     | Fulfilled (row :: rows) =>
         (exists instance,
             head (_createModelInstances m (row :: rows) None false VUndefined) = Some instance
             /\ r = Return (inr (Kept (Fulfilled instance))))
         /\ timeline after = timeline w
     | Rejected e =>
         r = Return (inr (Kept (Rejected e))) /\ timeline after = timeline w
     end.
Proof.
  intros Hmig Htable Hwhere c.
  unfold findOrCreate, findOne, find. rewrite Hmig. cbn [options_or_new].
  pose proof (read_fresh_limit w) as Hread.
  destruct (alloc w) as [l w1] eqn:Halloc.
  assert (Hw1 : calls w1 = calls w /\ timeline w1 = timeline w).
  { unfold alloc in Halloc. injection Halloc as _ <-. now split. }
  destruct Hw1 as [Hcalls Htimeline].
  rewrite Hwhere. unfold on_table. rewrite Htable.
  rewrite !Hread. cbn [String.eqb Ascii.eqb Bool.eqb]. fold c.
  destruct (datastore c) as [[|row rows]|e] eqn:Hanswer; cbn [then_ first_or_null head].
  - cbn. rewrite Hcalls, Htimeline. now split_and!.
  - destruct (_createModelInstances m (row :: rows) None false VUndefined)
      as [|instance others] eqn:Hinstances.
    + apply _createModelInstances_nil in Hinstances. discriminate Hinstances.
    + cbn. rewrite Hcalls, Htimeline. split_and!; try reflexivity. now eexists.
  - cbn. rewrite Hcalls, Htimeline. now split_and!.
Qed.





End UpsertFacts.

(** The theorem at [Article.findOrCreate({title: 'x'}, {title: 'x'})] on an
    empty table. *)
Lemma findOrCreate_creates_when_missing_witness :
  fst (findOrCreate no_rows ∅ set_only article_model (Some [("title", VStr "x")])
         (Some {["title" := VStr "x"]}) empty_world) =
  Return (inr (Follows (SavePromise 0))).
Proof.
  pose proof (findOrCreate_creates_when_missing no_rows ∅ set_only article_model
                (Some [("title", VStr "x")]) (Some {["title" := VStr "x"]}) empty_world
                "articles" [("title", VStr "x")] eq_refl eq_refl eq_refl) as H.
  cbv zeta in H.
  destruct (findOrCreate _ _ _ _ _ _ _) as [r after].
  destruct H as (_ & Hr & _). cbn in Hr. now subst r.
Defined.


(** * Removing an association returns *)

Lemma association_count_insert (models : gmap string Model) self m m' :
  models !! self = Some m ->
  (association_count (<[self := m']> models) + length (_associations m))%nat =
  (association_count models + length (_associations m'))%nat.
Proof.
  intros Hself. unfold association_count.
  rewrite (map_fold_delete_L _ _ self m models); [| intros; lia | assumption].
  rewrite <- (insert_delete_eq models).
  rewrite map_fold_insert_L; [lia | intros; lia | apply lookup_delete_eq].
Qed.

Lemma association_count_ge (models : gmap string Model) self m :
  models !! self = Some m -> (length (_associations m) <= association_count models)%nat.
Proof.
  intros Hself. unfold association_count.
  rewrite (map_fold_delete_L _ _ self m models); [lia | intros; lia | assumption].
Qed.

Lemma associations_by_name_insert (models : gmap string Model) self m' :
  associations_by_name models ->
  stored_by_name (_associations m') ->
  associations_by_name (<[self := m']> models).
Proof.
  intros Hall Hm' n m Hn. destruct (decide (self = n)) as [->|Hne].
  - rewrite lookup_insert_eq in Hn. now injection Hn as <-.
  - rewrite lookup_insert_ne in Hn by assumption. now apply (Hall n).
Qed.

(** [removeProperty], with its inner loop by name. *)
Lemma removeProperty_step fuel models self property w :
  removeProperty (S fuel) models self property w =
  match models !! self with
  | None => Some (Throw (undefined_member "_activeMigration"), models, w)
  | Some m =>
      let w1 :=
        match _activeMigration m with
        | Some mig => send mig (MRemoveProperty property) w
        | None => w
        end in
      match _properties m with
      | None =>
          Some (Throw (TypeError "Cannot convert undefined or null to object"), models, w1)
      | Some props =>
          let m1 := with_properties m (Some (Dict.remove props (name property))) in
          if isAssociation property
          then
            let m2 := with_associations m1
                        (Dict.remove (_associations m1) (name property)) in
            let models2 := <[self := m2]> models in
            if manyAssociation property || oneAssociation property
            then
              match getAssociatedModel property ≫= (fun n => (fun o => (n, o)) <$> models2 !! n) with
              | None =>
                  Some (Throw (undefined_member
                                 (if manyAssociation property
                                  then "_removeOneAssociationTo"
                                  else "_removeManyAssociationTo")),
                        models2, w1)
              | Some (other, o) =>
                  each_association (removeProperty fuel) (manyAssociation property) other self
                    (Dict.keys (_associations o)) models2 w1
              end
            else Some (Return tt, models2, w1)
          else Some (Return tt, <[self := m1]> models, w1)
      end
  end.
Proof. reflexivity. Qed.

Lemma removal_returned_here (models : gmap string Model) c w :
  associations_by_name models -> removal_returned models (Some (c, models, w)).
Proof. intros H. exists c, models, w. now split_and!. Qed.

Lemma removal_returned_le (models models0 : gmap string Model) r :
  (association_count models0 <= association_count models)%nat ->
  removal_returned models0 r -> removal_returned models r.
Proof.
  intros Hle (c & models' & w' & -> & Hnamed & Hcount).
  exists c, models', w'. split_and!; [reflexivity | assumption | lia].
Qed.

(** The loop returns when the nested calls do. *)
Lemma each_association_returns nested b :
  (forall models owner association w,
      associations_by_name models -> (association_count models <= b)%nat ->
      held models owner association ->
      removal_returned models (nested models owner association w)) ->
  forall one owner target names models w,
    associations_by_name models -> (association_count models <= b)%nat ->
    removal_returned models (each_association nested one owner target names models w).
Proof.
  intros Hnested one owner target names.
  induction names as [|associationName rest IH]; intros models w Hnamed Hcount.
  - now apply removal_returned_here.
  - cbn [each_association].
    destruct (models !! owner) as [o|] eqn:Howner; cbn [mbind option_bind];
      [|now apply removal_returned_here].
    destruct (Dict.get (_associations o) associationName) as [association|] eqn:Hget;
      [|now apply removal_returned_here].
    destruct (_ && _); [|now apply IH].
    assert (Hheld : held models owner association).
    { intros m Hm _. rewrite Howner in Hm. injection Hm as <-.
      apply dict_get_in in Hget.
      pose proof (Hnamed owner o Howner) as Hall. unfold stored_by_name in Hall.
      rewrite Forall_forall in Hall.
      pose proof (Hall _ Hget) as Hn. cbn in Hn. rewrite Hn.
      now apply dict_in_keys in Hget. }
    destruct (Hnested models owner association w Hnamed Hcount Hheld)
      as (c & models' & w' & -> & Hnamed' & Hcount').
    destruct c as [[]|e].
    + apply (removal_returned_le models models'); [assumption|]. apply IH; [assumption | lia].
    + exists (Throw e), models', w'. now split_and!.
Qed.

(** One call, given that the nested calls it makes return on every registry
    with at most [b] associations. *)
Lemma removeProperty_bounded b fuel (models : gmap string Model) self property w :
  associations_by_name models ->
  (forall m, models !! self = Some m -> isAssociation property = true ->
     (association_count models + length (Dict.remove (_associations m) (name property))
      <= b + length (_associations m))%nat
     /\ forall models0 owner association w0,
          associations_by_name models0 -> (association_count models0 <= b)%nat ->
          held models0 owner association ->
          removal_returned models0 (removeProperty fuel models0 owner association w0)) ->
  removal_returned models (removeProperty (S fuel) models self property w).
Proof.
  intros Hnamed Hb. rewrite removeProperty_step.
  destruct (models !! self) as [m|] eqn:Hself; [|now apply removal_returned_here].
  cbv zeta. destruct (_properties m) as [props|]; [|now apply removal_returned_here].
  destruct (isAssociation property) eqn:Hassoc.
  - match goal with |- context [<[self := ?x]> models] =>
      set (m2 := x); set (models2 := <[self := m2]> models) end.
    assert (Hnamed2 : associations_by_name models2).
    { apply associations_by_name_insert; [assumption|]. cbn.
      apply dict_remove_Forall. now apply (Hnamed self). }
    pose proof (association_count_insert models self m m2 Hself) as Hcount.
    fold models2 in Hcount. cbn [m2 with_associations with_properties _associations] in Hcount.
    pose proof (dict_remove_length_le (_associations m) (name property)) as Hle.
    destruct (Hb m eq_refl eq_refl) as [Hbound Hnested].
    assert (Hcount2 : (association_count models2 <= association_count models)%nat) by lia.
    assert (Hhere : forall c w0, removal_returned models (Some (c, models2, w0))).
    { intros c w0. exists c, models2, w0. now split_and!. }
    destruct (_ || _); [|apply Hhere].
    destruct (_ ≫= _) as [[other o]|]; [|apply Hhere].
    apply (removal_returned_le models models2); [assumption|].
    apply (each_association_returns (removeProperty fuel) b); [assumption | assumption | lia].
  - match goal with |- context [<[self := ?x]> models] =>
      set (m1 := x); set (models1 := <[self := m1]> models) end.
    eexists (Return tt), models1, _. split_and!; [reflexivity | |].
    + apply associations_by_name_insert; [assumption|]. cbn. now apply (Hnamed self).
    + pose proof (association_count_insert models self m m1 Hself) as Hcount.
      fold models1 in Hcount. cbn in Hcount. lia.
Qed.

(** Removing a property the model holds as an association takes no more
    nested calls than the registry has associations. *)
Lemma removeProperty_held n : forall fuel models self property w,
  associations_by_name models ->
  (association_count models <= n)%nat -> (n < fuel)%nat ->
  held models self property ->
  removal_returned models (removeProperty fuel models self property w).
Proof.
  induction n as [n IH] using lt_wf_ind.
  intros [|fuel] models self property w Hnamed Hcount Hfuel Hheld; [lia|].
  apply (removeProperty_bounded (pred (association_count models))); [assumption|].
  intros m Hself Hassoc.
  pose proof (dict_remove_length _ _ (Hheld m Hself Hassoc)) as Hlen.
  pose proof (association_count_ge models self m Hself) as Hge.
  split; [lia|].
  intros models0 owner association w0 Hnamed0 Hcount0 Hheld0.
  apply (IH (pred (association_count models))); try assumption; lia.
Qed.

(** X12.  On a registry whose models store their associations under the
    names of the properties, [removeProperty] returns: the calls it makes on
    the associated models, and they on theirs, end after at most as many
    nested calls as the registry has associations, so two more than that is
    fuel enough.  The registry it leaves still stores its associations by
    name and has no more of them than before. *)
Theorem removeProperty_terminates fuel (models : gmap string Model) self property w :
  associations_by_name models ->
  (association_count models + 2 <= fuel)%nat ->
  exists c models' w',
    removeProperty fuel models self property w = Some (c, models', w')
    /\ associations_by_name models'
    /\ (association_count models' <= association_count models)%nat.
Proof.
  intros Hnamed Hfuel. destruct fuel as [|fuel]; [lia|].
  apply (removeProperty_bounded (association_count models)); [assumption|].
  intros m Hself Hassoc.
  pose proof (dict_remove_length_le (_associations m) (name property)) as Hle.
  split; [lia|].
  intros models0 owner association w0 Hnamed0 Hcount0 Hheld0.
  apply (removeProperty_held (association_count models)); try assumption; lia.
Qed.

Lemma blog_by_name : associations_by_name blog.
Proof.
  intros n m Hn. unfold blog in Hn.
  apply lookup_insert_Some in Hn as [[_ <-]|[_ Hn]].
  - now repeat constructor.
  - apply lookup_singleton_Some in Hn as [_ <-]. now repeat constructor.
Qed.

Example remove_author :
  removeProperty 4 blog "Article" author empty_world =
  Some (Return tt,
        {["Article" := with_associations
                         (with_properties blog_article
                            (Some [("id", plain "id" no_options);
                                   ("title", plain "title" no_options)])) [];
          "User" := with_associations
                      (with_properties blog_user
                         (Some [("id", plain "id" no_options);
                                ("name", plain "name" no_options)])) []]},
        empty_world).
Proof. vm_compute. reflexivity. Qed.

(** The theorem at removing [author] from the articles of the blog, which
    removes [articles] from its users in turn. *)
Lemma removeProperty_terminates_witness :
  exists c models' w',
    removeProperty 4 blog "Article" author empty_world = Some (c, models', w')
    /\ associations_by_name models'
    /\ (association_count models' <= association_count blog)%nat.
Proof.
  apply (removeProperty_terminates 4 blog "Article" author empty_world).
  - exact blog_by_name.
  - vm_compute. lia.
Defined.

(** * The associations to a model: [findAssociationsTo] *)

Lemma push_all model (d : dict Property) : forall found,
  fold_left (push_association model None) d found =
  found ++ List.filter (fun association => points_to association model) (map snd d).
Proof.
  induction d as [|[k a] d IH]; intros found; cbn.
  - now rewrite app_nil_r.
  - rewrite IH. unfold push_association, points_to. cbn.
    destruct (_ || _); [now rewrite <- app_assoc | reflexivity].
Qed.

Lemma push_other model linked (d : dict Property) : forall found,
  String.eqb linked "" = false -> linked ∉ Dict.keys d ->
  fold_left (push_association model (Some linked)) d found = found.
Proof.
  induction d as [|[k a] d IH]; intros found Hne Hnotin; [reflexivity|].
  cbn in Hnotin. apply not_elem_of_cons in Hnotin as [Hk Hnotin].
  cbn [fold_left]. rewrite IH by assumption.
  unfold push_association. cbn. rewrite Hne.
  destruct (String.eqb_spec linked k); [congruence|]. now destruct (_ || _).
Qed.

Lemma push_linked model linked (d : dict Property) : forall found,
  String.eqb linked "" = false -> NoDup (Dict.keys d) ->
  fold_left (push_association model (Some linked)) d found =
  found ++ match Dict.get d linked with
           | Some association => if points_to association model then [association] else []
           | None => []
           end.
Proof.
  induction d as [|[k a] d IH]; intros found Hne Hnd.
  - cbn. now rewrite app_nil_r.
  - cbn in Hnd. apply NoDup_cons in Hnd as [Hk Hnd]. cbn [fold_left Dict.get].
    destruct (String.eqb_spec k linked) as [->|Hkl].
    + rewrite push_other by assumption. unfold push_association, points_to. cbn.
      rewrite Hne, String.eqb_refl. destruct (_ || _); [reflexivity | now rewrite app_nil_r].
    + rewrite IH by assumption. unfold push_association. cbn. rewrite Hne.
      destruct (String.eqb_spec linked k); [congruence|]. now destruct (_ || _).
Qed.

(** X13.  Asked for the associations to a model under one property name,
    [findAssociationsTo] returns at most one: the association stored under
    that name, if it points to the model.  Asked without a name it returns
    the associations that point to the model, in the order of the keys. *)
Theorem findAssociationsTo_linked m model linked :
  NoDup (Dict.keys (_associations m)) ->
  linked <> "" ->
  findAssociationsTo m model (Some linked) =
    match Dict.get (_associations m) linked with
    | Some association => if points_to association model then [association] else []
    | None => []
    end
  /\ findAssociationsTo m model None =
       List.filter (fun association => points_to association model)
                   (map snd (_associations m)).
Proof.
  intros Hnd Hne. apply String.eqb_neq in Hne. split.
  - exact (push_linked model linked (_associations m) [] Hne Hnd).
  - exact (push_all model (_associations m) []).
Qed.

(** The theorem at the associations of an article to the user model. *)
Lemma findAssociationsTo_linked_witness :
  findAssociationsTo blog_article blog_user (Some "author") = [author]
  /\ findAssociationsTo blog_article blog_user (Some "title") = [].
Proof.
  split.
  - refine (proj1 (findAssociationsTo_linked blog_article blog_user "author" _ _)).
    + apply (bool_decide_unpack _). vm_compute. exact I.
    + discriminate.
  - refine (proj1 (findAssociationsTo_linked blog_article blog_user "title" _ _)).
    + apply (bool_decide_unpack _). vm_compute. exact I.
    + discriminate.
Defined.

(** * The generated API: merging, checking, creating and deleting *)



Section ChecksFacts.

Variable canSet canUpdate : Property -> value.
Variable models : gmap string Model.

(** X15.  The update check of the generated API is the stricter one: names
    that pass [_canUpdateProperties] pass [_canSetProperties], and names that
    [_canSetProperties] refuses [_canUpdateProperties] refuses too.  A name
    that resolves to no property passes both. *)
Theorem update_check_stricter propertyNames model :
  (Tester._canUpdateProperties canSet canUpdate models propertyNames model = Return true ->
   Tester._canSetProperties canSet models propertyNames model = Return true)
  /\ (Tester._canSetProperties canSet models propertyNames model = Return false ->
      Tester._canUpdateProperties canSet canUpdate models propertyNames model = Return false)
  /\ (Forall (fun propertyName =>
                getProperty 1 models model propertyName = Some (Return None)) propertyNames ->
      Tester._canSetProperties canSet models propertyNames model = Return true
      /\ Tester._canUpdateProperties canSet canUpdate models propertyNames model = Return true).
Proof.
  induction propertyNames as [|propertyName rest (IH1 & IH2 & IH3)].
  - now split_and!.
  - cbn [Tester._canSetProperties Tester._canUpdateProperties].
    destruct (getProperty 1 models model propertyName) as [[[property|]|e]|] eqn:Hget.
    + destruct (defined (canSet property) && Tester.not_true (canSet property)).
      * rewrite orb_true_r. split_and!; [discriminate | reflexivity |].
        intros H. apply Forall_cons in H as [H _]. congruence.
      * rewrite orb_false_r.
        destruct (defined (canUpdate property) && Tester.not_true (canUpdate property)).
        -- split_and!; [discriminate | reflexivity |].
           intros H. apply Forall_cons in H as [H _]. congruence.
        -- split_and!; [assumption | assumption |].
           intros H. apply Forall_cons in H as [H _]. congruence.
    + split_and!; [assumption | assumption |].
      intros H. apply Forall_cons in H as [_ H]. now apply IH3.
    + split_and!; try discriminate. intros H. apply Forall_cons in H as [H _]. congruence.
    + split_and!; try discriminate. intros H. apply Forall_cons in H as [H _]. congruence.
Qed.

End ChecksFacts.

(** The theorem at the names [name] and [colour] of a tester whose [id] may
    not be set: what may be updated may be set. *)
Lemma update_check_stricter_witness :
  Tester._canSetProperties id_is_fixed ∅ ["name"; "colour"] tester_model = Return true.
Proof.
  refine (proj1 (update_check_stricter id_is_fixed unrestricted ∅ ["name"; "colour"]
                   tester_model) _).
  reflexivity.
Defined.


Section Creating.

Variable canSet : Property -> value.
Variable models : gmap string Model.




End Creating.

Example post_two_testers :
  map (fun t => match t with
                | Started s => save_changes s !! "owner"
                | Settled _ _ => None
                end)
      (timeline (snd (Tester.post_testers id_is_fixed ∅ tester_model
                        (Tester.BodyMany [[("name", VStr "a")];
                                          [("name", VStr "b"); ("owner", VRef 4)]])
                        (VRef 3) (Tester.Verdict true) VUndefined empty_world))) =
  [Some (VRef 3); Some (VRef 3)].
Proof. vm_compute. reflexivity. Qed.

Example post_fixed_id :
  Tester.post_testers id_is_fixed ∅ tester_model
    (Tester.BodyMany [[("name", VStr "a")]; [("id", VStr "7")]])
    (VRef 3) (Tester.Verdict true) VUndefined empty_world =
  (Tester.Fails Tester.badRequestError, empty_world).
Proof. vm_compute. reflexivity. Qed.

Section Deleting.

Variable datastore : TableCall -> promise (list Row).
Variable models : gmap string Model.

(** X17.  The handler of [DELETE /api/testers] never empties the table: the
    only datastore call it can issue is a remove with a where clause that has
    a key.  On a model with an automatic property, when the access check
    plainly allows and the where-map passes through, the one remove it issues
    has the query as its where clause with the authenticator under the
    automatic property, whatever the query held there. *)
Theorem delete_testers_scoped TesterModel query authenticator permission w :
  let after :=
    snd (Tester.delete_testers datastore models TesterModel query authenticator permission w) in
  (calls after = calls w
   \/ exists where_ l s o, where_ <> [] /\ calls after = calls w ++ [TRemove where_ l s o])
  /\ (forall automatic table,
        automaticPropertyName TesterModel = Some automatic ->
        automatic <> "" ->
        permission = Tester.Verdict true ->
        _activeMigration TesterModel = None ->
        _table TesterModel = Some table ->
        let scoped := Dict.set (default [] query) automatic authenticator in
        NoDup (Dict.keys (default [] query)) ->
        Forall (fun kv => verbatim models TesterModel (fst kv)) scoped ->
        Dict.get scoped automatic = Some authenticator
        /\ calls after = calls w ++ [TRemove scoped VUndefined VUndefined VUndefined]).
Proof.
  intros after. subst after. unfold Tester.delete_testers. cbv zeta. split.
  - assert (H : forall whereMap,
               let after := snd (match remove datastore models TesterModel (Some whereMap) None w
                                 with
                                 | (Throw e, w') => (Rejected e, w')
                                 | (Return (inl t), w') => (Fulfilled (inl t), w')
                                 | (Return (inr p), w') => (then_ p inr, w')
                                 end) in
               calls after = calls w
               \/ exists where_ l s o,
                    where_ <> [] /\ calls after = calls w ++ [TRemove where_ l s o]).
    { intros whereMap.
      pose proof (remove_calls datastore models TesterModel (Some whereMap) None w) as H.
      destruct (remove _ _ _ _ _ _) as [[[t|p]|e] w']; exact H. }
    destruct permission as [[|]|canDelete]; [apply H | now left | apply H].
  - intros automatic table Hauto Hne -> Hmig Htable Hnd Hall.
    apply String.eqb_neq in Hne. rewrite Hauto, Hne.
    set (scoped := Dict.set (default [] query) automatic authenticator) in *.
    split; [apply dict_get_set_eq|].
    unfold remove. rewrite Hmig.
    change (default [] (Some scoped)) with scoped.
    unfold _transformWhereMap.
    rewrite transform_entries_verbatim; [| now apply dict_nodup_set | assumption].
    destruct scoped as [|entry rest] eqn:Hscoped.
    { exfalso. assert (Hin : automatic ∈ Dict.keys scoped).
      { apply dict_in_keys_set. now left. }
      rewrite Hscoped in Hin. now apply not_elem_of_nil in Hin. }
    cbn [Dict.keys map options_or_new].
    pose proof (read_fresh w) as Hread. destruct (alloc w) as [l w1] eqn:Halloc.
    unfold on_table. rewrite Htable, !Hread. cbn.
    unfold alloc in Halloc. now injection Halloc as _ <-.
Qed.

End Deleting.

(** The theorem at [DELETE /api/testers?owner=4] sent by the user at
    location 3: the remove is for the testers of that user. *)
Lemma delete_testers_scoped_witness :
  calls (snd (Tester.delete_testers no_rows ∅ tester_model (Some [("owner", VRef 4)])
                (VRef 3) (Tester.Verdict true) empty_world)) =
  [TRemove [("owner", VRef 3)] VUndefined VUndefined VUndefined].
Proof.
  refine (proj2 (proj2 (delete_testers_scoped no_rows ∅ tester_model
                          (Some [("owner", VRef 4)]) (VRef 3) (Tester.Verdict true)
                          empty_world)
                   "owner" "testers" eq_refl _ eq_refl eq_refl eq_refl _ _)).
  - discriminate.
  - apply (bool_decide_unpack _). vm_compute. exact I.
  - apply Forall_cons. split; [|apply Forall_nil_2].
    right. exists (plain "owner" no_options). now split_and!.
Defined.

(** * Who is asking: [findMe], [getMe], [_findAuthenticator], [authorize] *)

Section WhoIsAsking.

Variable datastore : TableCall -> promise (list Row).
Variable models : gmap string Model.
Variable getAuthenticator : option Model.
Variable parseAuthorization : value -> option (value * value).
Variable authenticatingProperty : Model -> option string.
Variable isPasswordBased : Model -> bool.
Variable validateHash : ModelInstance -> string -> value -> promise value.

(** A promise [find] returns stands for a select it issued, with the limit of
    the option object. *)
Lemma find_promised m whereMap l w p w' :
  find datastore models m whereMap (Some l) w = (Return (inr p), w') ->
  exists where_ s o g sel a d,
    calls w' = calls w ++ [TSelect where_ (read w l "limit") s o g sel a d].
Proof.
  unfold find, addTask. destruct (_activeMigration m); [discriminate|].
  cbn [options_or_new].
  destruct (_transformWhereMap _ _ _) as [where_|]; [|discriminate].
  unfold on_table. destruct (_table m); [|discriminate].
  intros [= _ <-]. now eexists _, _, _, _, _, _, _.
Qed.

(** A promise [findOne] returns stands for a select with limit 1. *)
Lemma findOne_promised m whereMap optionsMap w p w' :
  findOne datastore models m whereMap optionsMap w = (Return (inr p), w') ->
  exists where_ s o g sel a d,
    calls w' = calls w ++ [TSelect where_ (VNum 1) s o g sel a d].
Proof.
  unfold findOne, addTask. destruct (_activeMigration m); [discriminate|].
  pose proof (options_or_new_calls optionsMap w) as Hnew.
  destruct (options_or_new optionsMap w) as [options w1]. cbn [snd] in Hnew.
  destruct (find _ _ _ _ _ _) as [[[t|q]|e] w3] eqn:Hfind; try discriminate.
  intros [= _ <-]. apply find_promised in Hfind.
  rewrite read_write in Hfind.
  change (calls (write w1 options "limit" (VNum 1))) with (calls w1) in Hfind.
  now rewrite Hnew in Hfind.
Qed.

(** An instance [findMe] resolves with was looked up with what the request
    carried. *)
Lemma findMe_resolves m request instance w w' :
  findMe datastore models getAuthenticator parseAuthorization authenticatingProperty
    m request w = (Return (inr (Fulfilled (Some instance))), w') ->
  exists r,
    request = Some r
    /\ (is_Some (parseAuthorization (authorization r)) \/ truthy (session_at r) = true)
    /\ exists where_ s o g sel a d,
         calls w' = calls w ++ [TSelect where_ (VNum 1) s o g sel a d].
Proof.
  unfold findMe. destruct request as [r|]; [|discriminate].
  destruct getAuthenticator as [am|]; [|discriminate].
  destruct (negb _); [discriminate|].
  destruct (parseAuthorization (authorization r)) as [[identifier accessToken]|] eqn:Hparse.
  - destruct (authenticatingProperty m) as [propertyName|]; [|discriminate].
    intros H. apply findOne_promised in H.
    exists r. split_and!; [reflexivity | left; rewrite Hparse; now eexists | exact H].
  - destruct (truthy (session_at r)) eqn:Hat; [|discriminate]. cbn [negb].
    intros H. apply findOne_promised in H. exists r. split_and!; [reflexivity | now right | exact H].
Qed.

(** X18.  Nobody is signed in without credentials and a look in the
    datastore.  [getMe] rejects with the 401 error, with no datastore call,
    when there is no authenticator model or when the request carries neither
    credentials in its authorization header nor an access token in its
    session.  When [getMe] resolves, and when [_findAuthenticator] resolves
    with an instance, the request carried one of the two and one select with
    limit 1 was issued. *)
Theorem getMe_needs_credentials m w :
  (forall r,
      getAuthenticator = None
      \/ (exists am, getAuthenticator = Some am /\ _name am = _name m
                     /\ parseAuthorization (authorization r) = None
                     /\ truthy (session_at r) = false) ->
      getMe datastore models getAuthenticator parseAuthorization authenticatingProperty
        m (Some r) w = (Return (inr (Rejected unauthorized)), w)
      /\ status_of unauthorized = Some 401)
  /\ (forall request instance w',
        getMe datastore models getAuthenticator parseAuthorization authenticatingProperty
          m request w = (Return (inr (Fulfilled instance)), w') ->
        exists r,
          request = Some r
          /\ (is_Some (parseAuthorization (authorization r)) \/ truthy (session_at r) = true)
          /\ exists where_ s o g sel a d,
               calls w' = calls w ++ [TSelect where_ (VNum 1) s o g sel a d])
  /\ (forall request instance w',
        _findAuthenticator datastore models getAuthenticator parseAuthorization
          authenticatingProperty request w = (Return (inr (Fulfilled (Some instance))), w') ->
        exists r,
          request = Some r
          /\ (is_Some (parseAuthorization (authorization r)) \/ truthy (session_at r) = true)
          /\ exists where_ s o g sel a d,
               calls w' = calls w ++ [TSelect where_ (VNum 1) s o g sel a d]).
Proof.
  split_and!.
  - intros r H. split; [|reflexivity]. unfold getMe, findMe.
    destruct H as [->|(am & -> & Hname & -> & Hat)]; [reflexivity|].
    rewrite Hname, String.eqb_refl, Hat. reflexivity.
  - intros request instance w'. unfold getMe.
    destruct (findMe _ _ _ _ _ _ _ _) as [[[t|[[found|]|e]]|e] w1] eqn:Hme;
      cbn [then_try]; try discriminate.
    intros [= <- <-]. now apply findMe_resolves in Hme.
  - intros request instance w'. unfold _findAuthenticator.
    destruct request as [r|]; [|discriminate].
    destruct getAuthenticator as [am|] eqn:Ham; [|discriminate].
    unfold findMe. rewrite String.eqb_refl. cbn [negb].
    destruct (parseAuthorization (authorization r)) as [[identifier accessToken]|] eqn:Hparse.
    + destruct (authenticatingProperty am) as [propertyName|]; [|discriminate].
      intros H. apply findOne_promised in H.
      exists r. split_and!; [reflexivity | left; rewrite Hparse; now eexists | exact H].
    + destruct (truthy (session_at r)) eqn:Hat; [|discriminate]. cbn [negb].
      intros H. apply findOne_promised in H.
      exists r. split_and!; [reflexivity | now right | exact H].
Qed.

(** X19.  [authorize] throws on a model that is not a password-based
    authenticator.  When it resolves, it resolves with an instance that one
    select with limit 1 gave and whose [validateHash] answered the password of
    the authenticate-map with a truthy value.  The password is no part of the
    query: on a model with a table, for an authenticating property whose value
    passes through, the select asks for that property alone. *)
Theorem authorize_validates m authenticateMap w :
  (isPasswordBasedAuthenticator authenticatingProperty isPasswordBased m = false ->
   authorize datastore models authenticatingProperty isPasswordBased validateHash
     m authenticateMap w = (Throw authorize_unavailable, w))
  /\ (forall instance w',
        authorize datastore models authenticatingProperty isPasswordBased validateHash
          m authenticateMap w = (Return (inr (Fulfilled instance)), w') ->
        (exists valid,
            validateHash instance "password" (lookup_value authenticateMap "password") =
              Fulfilled valid
            /\ truthy valid = true)
        /\ exists where_ s o g sel a d,
             calls w' = calls w ++ [TSelect where_ (VNum 1) s o g sel a d])
  /\ (forall propertyName table,
        authenticatingProperty m = Some propertyName ->
        isPasswordBased m = true ->
        _activeMigration m = None ->
        _table m = Some table ->
        verbatim models m propertyName ->
        calls (snd (authorize datastore models authenticatingProperty isPasswordBased
                      validateHash m authenticateMap w)) =
        calls w ++ [TSelect [(propertyName, lookup_value authenticateMap propertyName)]
                      (VNum 1) VUndefined VUndefined VUndefined VUndefined VUndefined
                      VUndefined]).
Proof.
  split_and!.
  - intros H. unfold authorize. now rewrite H.
  - intros instance w'. unfold authorize.
    destruct (negb _); [discriminate|].
    destruct (authenticatingProperty m) as [propertyName|]; [|discriminate].
    unfold getOne.
    destruct (findOne _ _ _ _ _ _) as [[[t|p]|e] w1] eqn:Hfind; try discriminate.
    intros [= Hvalid <-]. split; [|now apply findOne_promised in Hfind].
    destruct p as [[found|]|e]; cbn [then_try validated] in Hvalid; try discriminate.
    destruct (validateHash found _ _) as [valid|e] eqn:Hhash; [|discriminate].
    destruct (truthy valid) eqn:Htruthy; [|discriminate].
    injection Hvalid as <-. now exists valid.
  - intros propertyName table Hprop Hpw Hmig Htable Hverbatim.
    unfold authorize, isPasswordBasedAuthenticator. rewrite Hprop, Hpw.
    rewrite bool_decide_eq_true_2 by now eexists. cbn [andb negb].
    unfold getOne, findOne. rewrite Hmig. cbn [options_or_new].
    pose proof (read_fresh_limit w) as Hread.
    destruct (alloc w) as [l w1] eqn:Halloc.
    unfold find. rewrite Hmig. cbn [options_or_new].
    change (default [] (Some ?d)) with d.
    unfold _transformWhereMap.
    rewrite transform_entries_verbatim; cycle 1.
    { cbn. apply NoDup_singleton. }
    { apply Forall_cons. split; [exact Hverbatim | apply Forall_nil_2]. }
    unfold on_table. rewrite Htable, !Hread. cbn.
    unfold alloc in Halloc. now injection Halloc as _ <-.
Qed.

End WhoIsAsking.

(** The theorem at a request with an authorization header, on a datastore
    that holds the member. *)
Lemma getMe_needs_credentials_witness :
  exists r,
    Some signed_request = Some r
    /\ (is_Some (basic_credentials (authorization r)) \/ truthy (session_at r) = true)
    /\ exists where_ s o g sel a d,
         calls (snd (getMe one_member ∅ (Some member_model) basic_credentials by_email
                       member_model (Some signed_request) empty_world)) =
         calls empty_world ++ [TSelect where_ (VNum 1) s o g sel a d].
Proof.
  refine (proj1 (proj2 (getMe_needs_credentials one_member ∅ (Some member_model)
                          basic_credentials by_email member_model empty_world))
            (Some signed_request)
            (new_ModelInstance member_model {| row_id := "1"; row_joined := None |} None false
               VUndefined) _ _).
  vm_compute. reflexivity.
Defined.

(** The theorem at [Member.authorize({email: 'ann@example.com', password:
    'secret'})]. *)
Lemma authorize_validates_witness :
  calls (snd (authorize one_member ∅ by_email with_password secret_validates member_model
                {["email" := VStr "ann@example.com"; "password" := VStr "secret"]}
                empty_world)) =
  calls empty_world
  ++ [TSelect [("email", lookup_value {["email" := VStr "ann@example.com";
                                        "password" := VStr "secret"]} "email")]
        (VNum 1) VUndefined VUndefined VUndefined VUndefined VUndefined VUndefined].
Proof.
  refine (proj2 (proj2 (authorize_validates one_member ∅ by_email with_password
                          secret_validates member_model
                          {["email" := VStr "ann@example.com"; "password" := VStr "secret"]}
                          empty_world))
            "email" "members" eq_refl eq_refl eq_refl eq_refl _).
  right. exists (plain "email" no_options). now split_and!.
Defined.

Example authorize_wrong_password :
  fst (authorize one_member ∅ by_email with_password secret_validates member_model
         {["email" := VStr "ann@example.com"; "password" := VStr "guess"]} empty_world) =
  Return (inr (Rejected incorrect_password)).
Proof. vm_compute. reflexivity. Qed.

(** * Updating one tester: [PUT /api/testers/:id] *)

Section Putting.

Variable canSet canUpdate : Property -> value.
Variable models : gmap string Model.
Variable new_Property : string -> list PropertyType -> string -> completion Property.
Variable datastore : TableCall -> promise (list Row).

(** The only call [update] issues has the where clause [update_where] gives
    and the limit, the skip and the order of the option object. *)
Lemma update_where_calls m whereMap where_ setMap l w :
  update_where models m whereMap = Return where_ ->
  calls (snd (update new_Property datastore models m whereMap setMap (Some l) w)) = calls w
  \/ exists set_,
       calls (snd (update new_Property datastore models m whereMap setMap (Some l) w)) =
       calls w ++ [TUpdate where_ set_ (read w l "limit") (read w l "skip")
                     (read w l "orderBy")].
Proof.
  intros Hwhere. unfold update, addTask. destruct (_activeMigration m); [now left|].
  rewrite Hwhere. cbn [options_or_new].
  pose proof (getAllProperties_world new_Property m w) as H.
  destruct (getAllProperties new_Property m w) as [[[props|e] m'] w2]; cbn in H; subst;
    [|now left].
  destruct (_table m'); [|now left].
  right. now eexists.
Qed.

(** The where-map of the handler holds the id of the path, and the
    authenticator under the automatic property. *)
Lemma put_where_scoped TesterModel query id authenticator :
  Dict.get (put_where TesterModel query id authenticator) "id" = Some id
  /\ forall automatic,
       automaticPropertyName TesterModel = Some automatic ->
       automatic <> "" -> automatic <> "id" ->
       Dict.get (put_where TesterModel query id authenticator) automatic =
         Some authenticator.
Proof.
  unfold put_where. split; [apply dict_get_set_eq|].
  intros automatic -> Hne Hid. apply String.eqb_neq in Hne. rewrite Hne.
  rewrite dict_get_set_ne by congruence. apply dict_get_set_eq.
Qed.

Lemma put_where_NoDup TesterModel query id authenticator :
  NoDup (Dict.keys (default [] query)) ->
  NoDup (Dict.keys (put_where TesterModel query id authenticator)).
Proof.
  intros Hnd. unfold put_where. apply dict_nodup_set.
  destruct (automaticPropertyName TesterModel) as [automatic|]; [|assumption].
  destruct (String.eqb automatic ""); [assumption | now apply dict_nodup_set].
Qed.

(** X20.  The handler of [PUT /api/testers/:id] updates one row at most: the
    only datastore call it can issue is an update with limit 1.  It answers
    with the 401 or 403 denial when the access check refuses, and also when
    the update matched no row; it answers 400, with no datastore call, when
    the body names a property that may not be updated.  When the access check
    plainly allows and the where-map passes through, the update is for the id
    of the path and for the authenticator under the automatic property,
    whatever the query held there. *)
Theorem put_tester_scoped TesterModel query id body authenticator permission w :
  let answer :=
    Tester.put_tester canSet canUpdate models new_Property datastore TesterModel query id
      body authenticator permission w in
  (calls (snd answer) = calls w
   \/ exists where_ set_ s o,
        calls (snd answer) = calls w ++ [TUpdate where_ set_ (VNum 1) s o])
  /\ (permission = Tester.Verdict false ->
      answer = (Rejected (Tester.unauthenticatedError authenticator), TesterModel, w))
  /\ (permission <> Tester.Verdict false ->
      Tester._canUpdateProperties canSet canUpdate models (Dict.keys body) TesterModel =
        Return false ->
      answer = (Rejected Tester.badRequestError, TesterModel, w)
      /\ status_of Tester.badRequestError = Some 400)
  /\ (forall m' w',
        permission = Tester.Verdict true ->
        Tester._canUpdateProperties canSet canUpdate models (Dict.keys body) TesterModel =
          Return true ->
        updateOne new_Property datastore models TesterModel
          (WhereMap (put_where TesterModel query id authenticator))
          (Some (Tester.fields_of body)) None w = (Return (inr (Fulfilled None)), m', w') ->
        answer = (Rejected (Tester.unauthenticatedError authenticator), m', w'))
  /\ (permission = Tester.Verdict true ->
      NoDup (Dict.keys (default [] query)) ->
      Forall (fun kv => verbatim models TesterModel (fst kv))
             (put_where TesterModel query id authenticator) ->
      Dict.get (put_where TesterModel query id authenticator) "id" = Some id
      /\ (forall automatic,
            automaticPropertyName TesterModel = Some automatic ->
            automatic <> "" -> automatic <> "id" ->
            Dict.get (put_where TesterModel query id authenticator) automatic =
              Some authenticator)
      /\ (calls (snd answer) = calls w
          \/ exists set_,
               calls (snd answer) =
               calls w ++ [TUpdate (put_where TesterModel query id authenticator) set_
                             (VNum 1) VUndefined VUndefined])).
Proof.
  intros answer. subst answer. unfold Tester.put_tester. cbv zeta.
  set (whereMap := put_where TesterModel query id authenticator).
  change (Dict.set _ "id" id) with whereMap.
  split_and!.
  - assert (H : forall whereMap',
               let answer :=
                 match Tester._canUpdateProperties canSet canUpdate models (Dict.keys body)
                         TesterModel with
                 | Throw e => (Rejected e, TesterModel, w)
                 | Return false => (Rejected Tester.badRequestError, TesterModel, w)
                 | Return true =>
                     match updateOne new_Property datastore models TesterModel
                             (WhereMap whereMap') (Some (Tester.fields_of body)) None w with
                     | (Throw e, m', w') => (Rejected e, m', w')
                     | (Return (inl t), m', w') => (Fulfilled (inl t), m', w')
                     | (Return (inr p), m', w') =>
                         (then_try p (fun modelInstance =>
                            match modelInstance with
                            | Some instance => Return (inr instance)
                            | None => Throw (Tester.unauthenticatedError authenticator)
                            end), m', w')
                     end
                 end in
               calls (snd answer) = calls w
               \/ exists where_ set_ s o,
                    calls (snd answer) = calls w ++ [TUpdate where_ set_ (VNum 1) s o]).
    { intros whereMap'.
      destruct (Tester._canUpdateProperties _ _ _ _ _) as [[|]|e]; [|now left|now left].
      pose proof (updateOne_calls new_Property datastore models TesterModel
                    (WhereMap whereMap') (Some (Tester.fields_of body)) None w) as H.
      destruct (updateOne _ _ _ _ _ _ _ _) as [[[[t|p]|e] m'] w']; exact H. }
    destruct permission as [[|]|predicate]; [apply H | now left | apply H].
  - now intros ->.
  - intros Hallowed Hbody. split; [|reflexivity].
    destruct permission as [[|]|predicate]; [| congruence |]; now rewrite Hbody.
  - intros m' w' -> Hbody Hone. now rewrite Hbody, Hone.
  - intros -> Hnd Hall.
    destruct (put_where_scoped TesterModel query id authenticator) as [Hid Hautomatic].
    split_and!; [exact Hid | exact Hautomatic |].
    destruct (Tester._canUpdateProperties _ _ _ _ _) as [[|]|e]; [|now left|now left].
    unfold updateOne. cbn [options_or_new].
    pose proof (read_fresh_limit w) as Hread.
    destruct (alloc w) as [l w1] eqn:Halloc.
    assert (Hwhere : update_where models TesterModel (WhereMap whereMap) = Return whereMap).
    { cbn [update_where]. unfold _transformWhereMap.
      rewrite transform_entries_verbatim; [reflexivity | | assumption].
      now apply put_where_NoDup. }
    pose proof (update_where_calls TesterModel (WhereMap whereMap) whereMap
                  (Some (Tester.fields_of body)) l (write w1 l "limit" (VNum 1)) Hwhere)
      as Hcalls.
    rewrite !Hread in Hcalls. cbn [String.eqb Ascii.eqb Bool.eqb] in Hcalls.
    change (calls (write w1 l "limit" (VNum 1))) with (calls w1) in Hcalls.
    assert (Hw1 : calls w1 = calls w).
    { unfold alloc in Halloc. now injection Halloc as _ <-. }
    rewrite Hw1 in Hcalls.
    destruct (update _ _ _ _ _ _ _ _) as [[[[t|p]|e] m'] w3]; exact Hcalls.
Qed.

End Putting.

(** The theorem at [PUT /api/testers/7?owner=4&id=9] sent by the user at
    location 3. *)
Lemma put_tester_scoped_witness :
  Dict.get (put_where tester_model (Some [("owner", VRef 4); ("id", VStr "9")]) (VStr "7")
              (VRef 3)) "id" = Some (VStr "7")
  /\ Dict.get (put_where tester_model (Some [("owner", VRef 4); ("id", VStr "9")]) (VStr "7")
                 (VRef 3)) "owner" = Some (VRef 3).
Proof.
  destruct (proj2 (proj2 (proj2 (proj2
              (put_tester_scoped unrestricted unrestricted ∅ plain_Property no_rows
                 tester_model (Some [("owner", VRef 4); ("id", VStr "9")]) (VStr "7")
                 [("name", VStr "x")] (VRef 3) (Tester.Verdict true) empty_world))))
            eq_refl) as (Hid & Hautomatic & _).
  - apply (bool_decide_unpack _). vm_compute. exact I.
  - repeat (apply Forall_cons; split; [right; eexists; now split_and!|]).
    apply Forall_nil_2.
  - split; [exact Hid|]. apply (Hautomatic "owner"); [reflexivity | discriminate | discriminate].
Defined.

Example put_tester_7 :
  calls (snd (Tester.put_tester unrestricted unrestricted ∅ plain_Property no_rows
                tester_model (Some [("owner", VRef 4); ("id", VStr "9")]) (VStr "7")
                [("name", VStr "x")] (VRef 3) (Tester.Verdict true) empty_world)) =
  [TUpdate [("owner", VRef 3); ("id", VStr "7")] {["name" := VStr "x"]} (VNum 1)
     VUndefined VUndefined].
Proof. vm_compute. reflexivity. Qed.

Example put_tester_fixed_id :
  Tester.put_tester id_is_fixed unrestricted ∅ plain_Property no_rows
    tester_model None (VStr "7") [("id", VStr "8")] (VRef 3) (Tester.Verdict true)
    empty_world =
  (Rejected Tester.badRequestError, tester_model, empty_world).
Proof. vm_compute. reflexivity. Qed.

(** * Updating the testers of a user, deleting one tester *)

Section Owned.

Variable canSet canUpdate : Property -> value.
Variable models : gmap string Model.
Variable new_Property : string -> list PropertyType -> string -> completion Property.
Variable datastore : TableCall -> promise (list Row).

Lemma owned_NoDup TesterModel (whereMap : dict value) authenticator :
  NoDup (Dict.keys whereMap) -> NoDup (Dict.keys (owned TesterModel whereMap authenticator)).
Proof.
  intros Hnd. unfold owned.
  destruct (automaticPropertyName TesterModel) as [automatic|]; [|assumption].
  destruct (String.eqb automatic ""); [assumption | now apply dict_nodup_set].
Qed.

(** The authenticator stands under the automatic property, whatever stood
    there; the other keys are as they were. *)
Lemma owned_get TesterModel (whereMap : dict value) authenticator :
  (forall automatic,
      automaticPropertyName TesterModel = Some automatic -> automatic <> "" ->
      Dict.get (owned TesterModel whereMap authenticator) automatic = Some authenticator)
  /\ (forall k,
        automaticPropertyName TesterModel <> Some k ->
        Dict.get (owned TesterModel whereMap authenticator) k = Dict.get whereMap k).
Proof.
  unfold owned. split.
  - intros automatic -> Hne. apply String.eqb_neq in Hne. rewrite Hne.
    apply dict_get_set_eq.
  - intros k Hk. destruct (automaticPropertyName TesterModel) as [automatic|]; [|reflexivity].
    destruct (String.eqb automatic ""); [reflexivity|].
    apply dict_get_set_ne. congruence.
Qed.

(** With no option object, the only call [update] issues has the where clause
    [update_where] gives and no limit. *)
Lemma update_unlimited m whereMap where_ setMap w :
  update_where models m whereMap = Return where_ ->
  calls (snd (update new_Property datastore models m whereMap setMap None w)) = calls w
  \/ exists set_,
       calls (snd (update new_Property datastore models m whereMap setMap None w)) =
       calls w ++ [TUpdate where_ set_ VUndefined VUndefined VUndefined].
Proof.
  intros Hwhere. unfold update, addTask. destruct (_activeMigration m); [now left|].
  rewrite Hwhere. cbn [options_or_new].
  pose proof (read_fresh w) as Hread.
  destruct (alloc w) as [l w1] eqn:Halloc.
  assert (Hw1 : calls w1 = calls w).
  { unfold alloc in Halloc. now injection Halloc as _ <-. }
  pose proof (getAllProperties_world new_Property m w1) as H.
  destruct (getAllProperties new_Property m w1) as [[[props|e] m'] w2]; cbn in H; subst w2;
    [|now left].
  destruct (_table m'); [|now left].
  right. cbn [snd calls issue]. rewrite !Hread, Hw1. now eexists.
Qed.

(** X21.  The handler of [PUT /api/testers] issues one update at most, with
    no limit.  It answers with the 401 or 403 denial when the access check
    refuses and with 400, with no datastore call, when the body names a
    property that may not be updated.  When the access check plainly allows
    and the where-map passes through, the update is for the rows that hold the
    authenticator under the automatic property, whatever the query held
    there. *)
Theorem put_testers_owned TesterModel query body authenticator permission w :
  let answer :=
    Tester.put_testers canSet canUpdate models new_Property datastore TesterModel query
      body authenticator permission w in
  (permission = Tester.Verdict false ->
   answer = (Rejected (Tester.unauthenticatedError authenticator), TesterModel, w))
  /\ (permission <> Tester.Verdict false ->
      Tester._canUpdateProperties canSet canUpdate models (Dict.keys (default [] body))
        TesterModel = Return false ->
      answer = (Rejected Tester.badRequestError, TesterModel, w))
  /\ (permission = Tester.Verdict true ->
      NoDup (Dict.keys (default [] query)) ->
      Forall (fun kv => verbatim models TesterModel (fst kv))
             (owned TesterModel (default [] query) authenticator) ->
      (forall automatic,
          automaticPropertyName TesterModel = Some automatic -> automatic <> "" ->
          Dict.get (owned TesterModel (default [] query) authenticator) automatic =
            Some authenticator)
      /\ (calls (snd answer) = calls w
          \/ exists set_,
               calls (snd answer) =
               calls w ++ [TUpdate (owned TesterModel (default [] query) authenticator) set_
                             VUndefined VUndefined VUndefined])).
Proof.
  intros answer. subst answer. unfold Tester.put_testers. cbv zeta.
  fold (owned TesterModel (default [] query) authenticator).
  set (whereMap := owned TesterModel (default [] query) authenticator).
  split_and!.
  - now intros ->.
  - intros Hallowed Hbody.
    destruct permission as [[|]|predicate]; [| congruence |]; now rewrite Hbody.
  - intros -> Hnd Hall.
    split; [apply owned_get|].
    destruct (Tester._canUpdateProperties _ _ _ _ _) as [[|]|e]; [|now left|now left].
    assert (Hwhere : update_where models TesterModel (WhereMap whereMap) = Return whereMap).
    { cbn [update_where]. unfold _transformWhereMap.
      rewrite transform_entries_verbatim; [reflexivity | | assumption].
      now apply owned_NoDup. }
    pose proof (update_unlimited TesterModel (WhereMap whereMap) whereMap
                  (Some (Tester.fields_of (default [] body))) w Hwhere) as Hcalls.
    destruct (update _ _ _ _ _ _ _ _) as [[[[t|p]|e] m'] w3]; exact Hcalls.
Qed.

(** X22.  The handler of [DELETE /api/testers/:id] removes one row at most:
    the only datastore call it can issue is a remove with limit 1 and a where
    clause that has a key.  On a model with a table, when the access check
    plainly allows and the where-map passes through, it issues that remove
    for the query with the id of the path and the authenticator under the
    automatic property; the authenticator is written last, and stands under
    [id] itself when that is the automatic property. *)
Theorem delete_tester_scoped TesterModel query id authenticator permission w :
  let after :=
    snd (Tester.delete_tester models datastore TesterModel query id authenticator
           permission w) in
  (calls after = calls w
   \/ exists where_ s o,
        where_ <> [] /\ calls after = calls w ++ [TRemove where_ (VNum 1) s o])
  /\ (forall table,
        permission = Tester.Verdict true ->
        _activeMigration TesterModel = None ->
        _table TesterModel = Some table ->
        NoDup (Dict.keys (default [] query)) ->
        Forall (fun kv => verbatim models TesterModel (fst kv))
               (delete_where TesterModel query id authenticator) ->
        calls after =
          calls w ++ [TRemove (delete_where TesterModel query id authenticator) (VNum 1)
                        VUndefined VUndefined]
        /\ (forall automatic,
              automaticPropertyName TesterModel = Some automatic -> automatic <> "" ->
              Dict.get (delete_where TesterModel query id authenticator) automatic =
                Some authenticator)
        /\ (automaticPropertyName TesterModel <> Some "id" ->
            Dict.get (delete_where TesterModel query id authenticator) "id" = Some id)).
Proof.
  intros after. subst after. unfold Tester.delete_tester. cbv zeta.
  fold (owned TesterModel (Dict.set (default [] query) "id" id) authenticator).
  fold (delete_where TesterModel query id authenticator).
  set (whereMap := delete_where TesterModel query id authenticator).
  split.
  - assert (H : forall whereMap',
               let after :=
                 snd (match removeOne datastore models TesterModel (Some whereMap') None w with
                      | (Throw e, w') => (Rejected e, w')
                      | (Return (inl t), w') => (Fulfilled (inl t), w')
                      | (Return (inr p), w') => (then_ p inr, w')
                      end) in
               calls after = calls w
               \/ exists where_ s o,
                    where_ <> [] /\ calls after = calls w ++ [TRemove where_ (VNum 1) s o]).
    { intros whereMap'.
      pose proof (removeOne_calls datastore models TesterModel (Some whereMap') None w) as H.
      destruct (removeOne _ _ _ _ _ _) as [[[t|p]|e] w']; exact H. }
    destruct permission as [[|]|canDelete]; [apply H | now left | apply H].
  - intros table -> Hmig Htable Hnd Hall.
    destruct (owned_get TesterModel (Dict.set (default [] query) "id" id) authenticator)
      as [Hautomatic Hother].
    split_and!; [| exact Hautomatic | intros Hid; unfold whereMap, delete_where;
                                      rewrite Hother by exact Hid; apply dict_get_set_eq].
    unfold removeOne. cbn [options_or_new].
    pose proof (read_fresh_limit w) as Hread.
    destruct (alloc w) as [l w1] eqn:Halloc.
    unfold remove. rewrite Hmig.
    change (default [] (Some whereMap)) with whereMap.
    unfold _transformWhereMap.
    rewrite transform_entries_verbatim;
      [| now apply owned_NoDup, dict_nodup_set | assumption].
    destruct whereMap as [|entry rest] eqn:Hscoped.
    { exfalso. assert (Hin : "id" ∈ Dict.keys whereMap).
      { unfold whereMap, delete_where, owned.
        destruct (automaticPropertyName TesterModel) as [automatic|];
          [destruct (String.eqb automatic "")|];
          repeat (apply dict_in_keys_set; first [now left | right]). }
      rewrite Hscoped in Hin. now apply not_elem_of_nil in Hin. }
    cbn [Dict.keys map options_or_new app].
    unfold on_table. rewrite Htable, !Hread. cbn.
    unfold alloc in Halloc. now injection Halloc as _ <-.
Qed.

End Owned.

(** The theorem at [PUT /api/testers?owner=4] sent by the user at location
    3. *)
Lemma put_testers_owned_witness :
  Dict.get (owned tester_model (default [] (Some [("owner", VRef 4)])) (VRef 3)) "owner" =
    Some (VRef 3).
Proof.
  destruct (proj2 (proj2
              (put_testers_owned unrestricted unrestricted ∅ plain_Property no_rows
                 tester_model (Some [("owner", VRef 4)]) (Some [("name", VStr "x")])
                 (VRef 3) (Tester.Verdict true) empty_world))
            eq_refl) as (Hautomatic & _).
  - apply (bool_decide_unpack _). vm_compute. exact I.
  - repeat (apply Forall_cons; split; [right; eexists; now split_and!|]).
    apply Forall_nil_2.
  - apply (Hautomatic "owner"); [reflexivity | discriminate].
Defined.

(** The theorem at [DELETE /api/testers/7?owner=4] sent by the user at
    location 3. *)
Lemma delete_tester_scoped_witness :
  calls (snd (Tester.delete_tester ∅ no_rows tester_model (Some [("owner", VRef 4)])
                (VStr "7") (VRef 3) (Tester.Verdict true) empty_world)) =
  calls empty_world
  ++ [TRemove (delete_where tester_model (Some [("owner", VRef 4)]) (VStr "7") (VRef 3))
        (VNum 1) VUndefined VUndefined].
Proof.
  refine (proj1 (proj2 (delete_tester_scoped ∅ no_rows tester_model
                          (Some [("owner", VRef 4)]) (VStr "7") (VRef 3)
                          (Tester.Verdict true) empty_world)
                   "testers" eq_refl eq_refl eq_refl _ _)).
  - apply (bool_decide_unpack _). vm_compute. exact I.
  - repeat (apply Forall_cons; split; [right; eexists; now split_and!|]).
    apply Forall_nil_2.
Defined.

Example delete_tester_7 :
  calls (snd (Tester.delete_tester ∅ no_rows tester_model (Some [("owner", VRef 4)])
                (VStr "7") (VRef 3) (Tester.Verdict true) empty_world)) =
  [TRemove [("owner", VRef 3); ("id", VStr "7")] (VNum 1) VUndefined VUndefined].
Proof. vm_compute. reflexivity. Qed.
